(** * Reservoir weather data: cleaner, validator and analyzer

    A shallow embedding of the data-quality and statistical-analysis engine of
    the Málaga reservoirs repository:

    - [src/data_processing/cleaner.py]   ([ReservoirDataCleaner]),
    - [src/data_processing/validator.py] ([DataValidator]),
    - [src/analysis/exploratory.py]      ([ExploratoryAnalyzer]).

    Modelling conventions.

    - A pandas [DataFrame] is an index (row labels) together with a finite map
      from column names to typed columns; a column holds one optional value
      per row, [None] standing for NaN / NaT / a missing object.  The order
      of the columns is not kept.
    - A [float64] is modelled by an exact rational ([Q]); NaN is [None].
      Results that are not rational (a square root, a normal or Student
      tail probability) are kept symbolic, see [ExploratoryAnalyzer.Value].
    - A timestamp ([datetime64[ns]]) is the integer number of nanoseconds
      since the epoch.
    - A Python exception is an [Err] result; every function that can raise
      returns a [result].  Only the key of a [KeyError] is kept.
    - [sort_values] is modelled by a stable sort.  With several keys pandas
      sorts stably; with one key its default sort may order equal keys
      differently for large frames.
    - The library functions follow pandas 2 and a recent scipy: an
      interpolation by time on a frame whose index is not made of timestamps
      raises, and so does a regression on samples of different lengths. *)

From Stdlib Require Import ZArith QArith Qround Qabs Lia Lqa String Sorted.
From stdpp Require Import gmap strings list sorting.

Local Open Scope Z_scope.

(** ** Exceptions *)

Inductive exn :=
| KeyError (key : string)
| ValueError
| TypeError
| AttributeError
| ZeroDivisionError.

Inductive result (A : Type) :=
| Ok (a : A)
| Err (e : exn).
Arguments Ok {A} a.
Arguments Err {A} e.

(** Sequencing: the first exception raised ends the computation. *)
Definition bind {A B} (r : result A) (f : A → result B) : result B :=
  match r with
  | Ok a => f a
  | Err e => Err e
  end.

Notation "'let*' x := c 'in' k" := (bind c (λ x, k))
  (at level 10, x name, c at level 100, k at level 200).

Fixpoint mapR {A B} (f : A → result B) (l : list A) : result (list B) :=
  match l with
  | [] => Ok []
  | x :: l' => let* y := f x in let* ys := mapR f l' in Ok (y :: ys)
  end.

(** A loop [for x in l: state = body(state, x)] whose body can raise. *)
Fixpoint foldR {A S} (body : S → A → result S) (l : list A) (s : S) : result S :=
  match l with
  | [] => Ok s
  | x :: l' => let* s' := body s x in foldR body l' s'
  end.

(** ** Columns, indexes and frames *)

(** Nanoseconds in a day: [Timedelta.days] is the floor of the quotient. *)
Definition NS_PER_DAY : Z := 86400 * 1000000000.

Definition days (delta : Z) : Z := delta / NS_PER_DAY.

(** The timestamp of midnight of the calendar day numbered [d]. *)
Definition midnight (d : Z) : Z := d * NS_PER_DAY.

Inductive Column :=
| Float64 (v : list (option Q))
| Datetime64 (v : list (option Z))
| Object (v : list (option string)).

Inductive Label :=
| LInt (i : Z)
| LStamp (t : Z).

Inductive Index :=
| Int64Index (labels : list Z)
| DatetimeIndex (stamps : list Z).

Record DataFrame := mkDataFrame {
  index : Index;
  columns : gmap string Column
}.

Definition index_tolist (i : Index) : list Label :=
  match i with
  | Int64Index l => LInt <$> l
  | DatetimeIndex l => LStamp <$> l
  end.

(** [len(df)] *)
Definition nrows (df : DataFrame) : nat := length (index_tolist (index df)).

(** [df[col]]: a missing column raises [KeyError]. *)
Definition getitem (df : DataFrame) (col : string) : result Column :=
  match columns df !! col with
  | Some c => Ok c
  | None => Err (KeyError col)
  end.

(** [df[col] = c] *)
Definition setitem (df : DataFrame) (col : string) (c : Column) : DataFrame :=
  mkDataFrame (index df) (<[col := c]> (columns df)).

(** A value of any dtype, used for sort keys, group keys and duplicate keys.
    Rationals are reduced so that equal numbers are equal terms. *)
Inductive Cell :=
| CNum (q : Q)
| CTime (t : Z)
| CStr (s : string).

Definition cells (c : Column) : list (option Cell) :=
  match c with
  | Float64 v => fmap (M := option) (λ q, CNum (Qred q)) <$> v
  | Datetime64 v => fmap (M := option) CTime <$> v
  | Object v => fmap (M := option) CStr <$> v
  end.

#[global] Instance Q_eq_dec : EqDecision Q.
Proof. solve_decision. Defined.
#[global] Instance Cell_eq_dec : EqDecision Cell.
Proof. solve_decision. Defined.
#[global] Instance Label_eq_dec : EqDecision Label.
Proof. solve_decision. Defined.

(** *** Selecting and reordering rows *)

(** Boolean-mask selection [s[mask]]. *)
Fixpoint select {A} (mask : list bool) (l : list A) : list A :=
  match mask, l with
  | b :: mask', x :: l' => if b then x :: select mask' l' else select mask' l'
  | _, _ => []
  end.

(** Positional selection [s.take(pos)]. *)
Definition take_pos {A} (pos : list nat) (l : list A) : list A :=
  omap (λ i, l !! i) pos.

Definition column_rows (f : ∀ A, list A → list A) (c : Column) : Column :=
  match c with
  | Float64 v => Float64 (f _ v)
  | Datetime64 v => Datetime64 (f _ v)
  | Object v => Object (f _ v)
  end.

Definition index_rows (f : ∀ A, list A → list A) (i : Index) : Index :=
  match i with
  | Int64Index l => Int64Index (f _ l)
  | DatetimeIndex l => DatetimeIndex (f _ l)
  end.

Definition frame_rows (f : ∀ A, list A → list A) (df : DataFrame) : DataFrame :=
  mkDataFrame (index_rows f (index df)) (column_rows f <$> columns df).

(** [df[mask]] *)
Definition getitem_mask (df : DataFrame) (mask : list bool) : DataFrame :=
  frame_rows (λ A, select mask) df.

(** *** Stable sorting *)

Section StableSort.
Context {A : Type} (leb : A → A → bool).

Fixpoint insert_sorted (x : A) (l : list A) : list A :=
  match l with
  | [] => [x]
  | y :: l' => if leb x y then x :: l else y :: insert_sorted x l'
  end.

Definition stable_sort (l : list A) : list A := foldr insert_sorted [] l.
End StableSort.

Definition cell_compare (a b : Cell) : comparison :=
  match a, b with
  | CNum x, CNum y => (x ?= y)%Q
  | CTime x, CTime y => (x ?= y)%Z
  | CStr x, CStr y => String.compare x y
  | _, _ => Eq
  end.

(** Missing values sort last ([na_position='last']). *)
Definition key_compare (a b : option Cell) : comparison :=
  match a, b with
  | Some x, Some y => cell_compare x y
  | Some _, None => Lt
  | None, Some _ => Gt
  | None, None => Eq
  end.

Fixpoint keys_compare (a b : list (option Cell)) : comparison :=
  match a, b with
  | x :: a', y :: b' =>
      match key_compare x y with
      | Eq => keys_compare a' b'
      | c => c
      end
  | _, _ => Eq
  end.

Definition keys_leb (a b : list (option Cell)) : bool :=
  match keys_compare a b with
  | Gt => false
  | _ => true
  end.

(** The key of row [i]: its cell in each of the [by] columns. *)
Definition row_key (by_cols : list (list (option Cell))) (i : nat) : list (option Cell) :=
  (λ c, mjoin (c !! i)) <$> by_cols.

Definition argsort (n : nat) (by_cols : list (list (option Cell))) : list nat :=
  stable_sort (λ i j, keys_leb (row_key by_cols i) (row_key by_cols j)) (seq 0 n).

(** [df.sort_values(by)] *)
Definition sort_values (df : DataFrame) (by_names : list string) : result DataFrame :=
  let* by_cols := mapR (getitem df) by_names in
  let pos := argsort (nrows df) (cells <$> by_cols) in
  Ok (frame_rows (λ A, take_pos pos) df).

(** ** Series helpers *)

Definition dropna {A} (v : list (option A)) : list A := omap id v.

(** [s.notna()] *)
Definition notna {A} (v : list (option A)) : list bool := (λ x, bool_decide (is_Some x)) <$> v.

(** [s.min()] and [s.max()] skip missing values; [None] when nothing is left. *)
Definition list_min (l : list Z) : option Z :=
  match l with
  | [] => None
  | x :: l' => Some (foldl Z.min x l')
  end.

Definition list_max (l : list Z) : option Z :=
  match l with
  | [] => None
  | x :: l' => Some (foldl Z.max x l')
  end.

Definition series_min (v : list (option Z)) : option Z := list_min (dropna v).
Definition series_max (v : list (option Z)) : option Z := list_max (dropna v).

(** [s.nunique()]: the number of distinct non-missing values. *)
Definition nunique (v : list (option Z)) : nat := length (remove_dups (dropna v)).

(** [s.diff()]: the difference with the previous row, missing on the first
    row and wherever one of the two rows is missing. *)
Definition sub_opt (a b : option Z) : option Z :=
  match a, b with
  | Some x, Some y => Some (x - y)
  | _, _ => None
  end.

Fixpoint diff_from (prev : option Z) (v : list (option Z)) : list (option Z) :=
  match v with
  | [] => []
  | x :: v' => sub_opt x prev :: diff_from x v'
  end.

Definition diff (v : list (option Z)) : list (option Z) := diff_from None v.

(** [s.dt.days] *)
Definition dt_days (v : list (option Z)) : list (option Z) := fmap (M := option) days <$> v.

Definition Z_leb_sort (l : list Z) : list Z := stable_sort Z.leb l.

(** [s.median()]: the middle of the sorted non-missing values, the mean of
    the two middle ones when their number is even. *)
Definition median (v : list (option Z)) : option Q :=
  let s := Z_leb_sort (dropna v) in
  let n := length s in
  if (n =? 0)%nat then None
  else if Nat.odd n then inject_Z <$> s !! (n / 2)%nat
  else
    a ← s !! (n / 2 - 1)%nat;
    b ← s !! (n / 2)%nat;
    Some ((inject_Z a + inject_Z b) / 2)%Q.

(** The timestamps of a column used in date arithmetic ([.dt], [.days],
    subtraction): numbers have no such attribute, strings do not subtract. *)
Definition datetime_values (c : Column) : result (list (option Z)) :=
  match c with
  | Datetime64 v => Ok v
  | Float64 _ => Err AttributeError
  | Object _ => Err TypeError
  end.

(** [s.dt]: only a column of timestamps has the accessor. *)
Definition dt_values (c : Column) : result (list (option Z)) :=
  match c with
  | Datetime64 v => Ok v
  | _ => Err AttributeError
  end.

(** The numbers of a column used in arithmetic or compared with a number. *)
Definition float_values (c : Column) : result (list (option Q)) :=
  match c with
  | Float64 v => Ok v
  | _ => Err TypeError
  end.

Definition Qltb (x y : Q) : bool :=
  match (x ?= y)%Q with
  | Lt => true
  | _ => false
  end.

(** Comparisons with a missing value are false. *)
Definition gt_opt (a b : option Q) : bool :=
  match a, b with
  | Some x, Some y => Qltb y x
  | _, _ => false
  end.

Definition lt_opt (a b : option Q) : bool := gt_opt b a.

Definition cell_gt (a b : option Cell) : bool :=
  match a, b with
  | Some x, Some y => bool_decide (cell_compare x y = Gt)
  | _, _ => false
  end.

(** [a > b] between two columns of a frame.  Columns of different dtypes do
    not compare, and neither do objects when one of them is missing. *)
Definition series_gt (a b : Column) : result (list bool) :=
  match a, b with
  | Float64 _, Float64 _ | Datetime64 _, Datetime64 _ =>
      Ok (zip_with cell_gt (cells a) (cells b))
  | Object x, Object y =>
      if forallb (λ o, bool_decide (is_Some o)) (x ++ y)
      then Ok (zip_with cell_gt (cells a) (cells b))
      else Err TypeError
  | _, _ => Err TypeError
  end.

(** [s > c] and [s < c] for a number [c]. *)
Definition series_gt_scalar (a : Column) (c : Q) : result (list bool) :=
  let* v := float_values a in Ok ((λ x, gt_opt x (Some c)) <$> v).

Definition series_lt_scalar (a : Column) (c : Q) : result (list bool) :=
  let* v := float_values a in Ok ((λ x, lt_opt x (Some c)) <$> v).

(** [m1 | m2] *)
Definition mask_or (m1 m2 : list bool) : list bool := zip_with orb m1 m2.

(** [df[mask].index.tolist()] *)
Definition index_where (df : DataFrame) (mask : list bool) : list Label :=
  select mask (index_tolist (index df)).

(** [all(col in df.columns for col in cols)] *)
Definition has_columns (df : DataFrame) (cols : list string) : bool :=
  forallb (λ c, bool_decide (is_Some (columns df !! c))) cols.

Definition qsub_opt (a b : option Q) : option Q :=
  match a, b with
  | Some x, Some y => Some (x - y)%Q
  | _, _ => None
  end.

Definition qadd_opt (a b : option Q) : option Q :=
  match a, b with
  | Some x, Some y => Some (x + y)%Q
  | _, _ => None
  end.

(** [df.groupby(key)[col].diff()]: each row minus the previous row of the
    same group, in frame order.  [seen] holds the rows already passed, the
    latest first; rows whose key is missing belong to no group. *)
Definition last_of (k : Cell) (seen : list (Cell * option Q)) : option (option Q) :=
  snd <$> (snd <$> list_find (λ p, p.1 = k) seen).

Fixpoint group_diff (seen : list (Cell * option Q)) (rows : list (option Cell * option Q))
    : list (option Q) :=
  match rows with
  | [] => []
  | (None, _) :: rows' => None :: group_diff seen rows'
  | (Some k, v) :: rows' =>
      (last_of k seen ≫= qsub_opt v) :: group_diff ((k, v) :: seen) rows'
  end.

Definition groupby_diff (df : DataFrame) (key col : string) : result (list (option Q)) :=
  let* k := getitem df key in
  let* v := bind (getitem df col) float_values in
  Ok (group_diff [] (zip (cells k) v)).

(** [s.abs()] *)
Definition series_abs (v : list (option Q)) : list (option Q) := fmap (M := option) Qabs <$> v.

Definition Q_leb_sort (l : list Q) : list Q := stable_sort Qle_bool l.

(** [s.quantile(q)] with linear interpolation between the two nearest
    ranks of the sorted non-missing values; nan when there is none. *)
Definition quantile (v : list (option Q)) (q : Q) : result (option Q) :=
  if negb (Qle_bool 0 q && Qle_bool q 1) then Err ValueError
  else
    let s := Q_leb_sort (dropna v) in
    let n := length s in
    if (n =? 0)%nat then Ok None
    else
      let h := (q * inject_Z (Z.of_nat (n - 1)))%Q in
      let lo := Z.to_nat (Qfloor h) in
      let hi := Nat.min (lo + 1) (n - 1) in
      let g := (h - inject_Z (Qfloor h))%Q in
      let a := nth lo s 0%Q in
      let b := nth hi s 0%Q in
      Ok (Some (a + (b - a) * g)%Q).

(** * Validator ([validator.py]) *)

Module DataValidator.

(** [check_data_completeness(df)]: for each column the percentage of its
    values that are present, nan on a frame without rows. *)
Definition check_data_completeness (df : DataFrame) : gmap string (option Q) :=
  (λ c, let non_null_count := length (filter (λ b, b = true) (notna (cells c))) in
        if (nrows df =? 0)%nat then None
        else Some (inject_Z (Z.of_nat non_null_count) / inject_Z (Z.of_nat (nrows df)) * 100)%Q)
    <$> columns df.

(** The mapping returned by [check_temporal_consistency]. *)
Record TemporalConsistency := mkTemporalConsistency {
  date_range : option Z * option Z;
  total_days : option Z;
  unique_dates : nat;
  duplicate_dates : Z;
  missing_days : Z;
  median_gap_days : option Q;
  max_gap_days : option Z
}.

(** [check_temporal_consistency(df)].  A ['date'] column that does not hold
    timestamps makes the date arithmetic fail. *)
Definition check_temporal_consistency (df : DataFrame) : result TemporalConsistency :=
  let* df_sorted := sort_values df ["date"] in
  let* sorted_date := bind (getitem df_sorted "date") datetime_values in
  let date_diffs := diff sorted_date in
  let* date := bind (getitem df "date") datetime_values in
  Ok {|
    date_range := (series_min date, series_max date);
    total_days := days <$> sub_opt (series_max date) (series_min date);
    unique_dates := nunique date;
    duplicate_dates := Z.of_nat (nrows df) - Z.of_nat (nunique date);
    missing_days := 0;
    median_gap_days := median (dt_days date_diffs);
    max_gap_days := series_max (dt_days date_diffs)
  |}.

(** [validate_weather_consistency(df)] *)
Definition validate_weather_consistency (df : DataFrame) : result (gmap string (list Label)) :=
  let inconsistencies : gmap string (list Label) := ∅ in
  let* inconsistencies :=
    (if has_columns df ["meteo_temp_min"; "meteo_temp_media"; "meteo_temp_max"] then
       let* tmin := getitem df "meteo_temp_min" in
       let* tmed := getitem df "meteo_temp_media" in
       let* tmax := getitem df "meteo_temp_max" in
       let* m1 := series_gt tmin tmed in
       let* m2 := series_gt tmed tmax in
       Ok (<["temperature_order" := index_where df (mask_or m1 m2)]> inconsistencies)
     else Ok inconsistencies) in
  let* inconsistencies :=
    (if has_columns df ["meteo_humedad_min"; "meteo_humedad_media"; "meteo_humedad_max"] then
       let* hmin := getitem df "meteo_humedad_min" in
       let* hmed := getitem df "meteo_humedad_media" in
       let* hmax := getitem df "meteo_humedad_max" in
       let* m1 := series_gt hmin hmed in
       let* m2 := series_gt hmed hmax in
       Ok (<["humidity_order" := index_where df (mask_or m1 m2)]> inconsistencies)
     else Ok inconsistencies) in
  let* inconsistencies :=
    (if has_columns df ["meteo_vel_viento"; "meteo_vel_viento_max"] then
       let* w := getitem df "meteo_vel_viento" in
       let* wmax := getitem df "meteo_vel_viento_max" in
       let* m := series_gt w wmax in
       Ok (<["wind_speed_order" := index_where df m]> inconsistencies)
     else Ok inconsistencies) in
  Ok inconsistencies.

(** [check_reservoir_consistency(df)] *)
Definition check_reservoir_consistency (df : DataFrame) : result (gmap string (list Label)) :=
  let inconsistencies : gmap string (list Label) := ∅ in
  let* pct := getitem df "embalse_porcentaje" in
  let* below := series_lt_scalar pct 0 in
  let* above := series_gt_scalar pct 100 in
  let percentage_issues := index_where df (mask_or below above) in
  let inconsistencies := <["percentage_out_of_bounds" := percentage_issues]> inconsistencies in
  let* df_sorted := sort_values df ["embalse_codigo"; "date"] in
  let* percentage_change := groupby_diff df_sorted "embalse_codigo" "embalse_porcentaje" in
  let df_sorted := setitem df_sorted "percentage_change" (Float64 percentage_change) in
  let* change := bind (getitem df_sorted "percentage_change") float_values in
  let* m := series_gt_scalar (Float64 (series_abs change)) 20 in
  let extreme_changes := index_where df_sorted m in
  let inconsistencies := <["extreme_percentage_changes" := extreme_changes]> inconsistencies in
  Ok inconsistencies.

(** The outlier count of one numeric column by the IQR rule. *)
Definition outlier_count (threshold : Q) (v : list (option Q)) : result nat :=
  let* Q1 := quantile v (25 # 100) in
  let* Q3 := quantile v (75 # 100) in
  let IQR := qsub_opt Q3 Q1 in
  let lower_bound := qsub_opt Q1 (Qmult threshold <$> IQR) in
  let upper_bound := qadd_opt Q3 (Qmult threshold <$> IQR) in
  Ok (length (filter (λ x, lt_opt x lower_bound || gt_opt x upper_bound = true) v)).

(** [_detect_outliers(df, threshold)] *)
Definition _detect_outliers (df : DataFrame) (threshold : Q) : result (gmap string nat) :=
  map_fold (λ col c acc,
              let* outliers := acc in
              match c with
              | Float64 v =>
                  let* outlier_count := outlier_count threshold v in
                  Ok (<[col := outlier_count]> outliers)
              | _ => Ok outliers
              end)
           (Ok ∅) (columns df).

(** The ['basic_stats'] entry of the quality report. *)
Record BasicStats := mkBasicStats {
  total_records : nat;
  total_columns : nat;
  memory_usage_mb : Q
}.

(** The mapping returned by [generate_quality_report]. *)
Record QualityReport := mkQualityReport {
  basic_stats : BasicStats;
  completeness : gmap string (option Q);
  temporal_consistency : TemporalConsistency;
  weather_inconsistencies : gmap string (list Label);
  reservoir_inconsistencies : gmap string (list Label);
  outliers : gmap string nat
}.

Section Report.
(** [df.memory_usage(deep=True).sum()]: the bytes the frame occupies, which
    depend on the platform. *)
Context (memory_usage : DataFrame → Z).

(** [generate_quality_report(df)]: the five checks in the order the report
    is filled; the first check that raises ends the report. *)
Definition generate_quality_report (df : DataFrame) : result QualityReport :=
  let basic_stats := {|
    total_records := nrows df;
    total_columns := size (columns df);
    memory_usage_mb := (inject_Z (memory_usage df) / inject_Z (1024 ^ 2))%Q
  |} in
  let completeness := check_data_completeness df in
  let* temporal_consistency := check_temporal_consistency df in
  let* weather_inconsistencies := validate_weather_consistency df in
  let* reservoir_inconsistencies := check_reservoir_consistency df in
  let* outliers := _detect_outliers df (15 # 10) in
  Ok {|
    basic_stats := basic_stats;
    completeness := completeness;
    temporal_consistency := temporal_consistency;
    weather_inconsistencies := weather_inconsistencies;
    reservoir_inconsistencies := reservoir_inconsistencies;
    outliers := outliers
  |}.
End Report.

End DataValidator.

(** * Cleaner ([cleaner.py]) *)

Module ReservoirDataCleaner.

(** [sub in s] for strings. *)
Fixpoint contains (sub s : string) : bool :=
  if String.prefix sub s then true
  else match s with
       | EmptyString => false
       | String _ s' => contains sub s'
       end.

(** [np.rint]: round to the nearest integer, halves to the even one. *)
Definition rint (x : Q) : Z :=
  let f := Qfloor x in
  match (x - inject_Z f ?= 1 # 2)%Q with
  | Lt => f
  | Gt => f + 1
  | Eq => if Z.even f then f else f + 1
  end.

(** [x.round(d)] on a float: scale by [10**d], [rint], scale back. *)
Definition round_float (d : nat) (x : Q) : Q :=
  Qmake (rint (x * inject_Z (Zpos (10 ^ Pos.of_nat d) ))) (10 ^ Pos.of_nat d).

Definition round_series (d : nat) (c : Column) : Column :=
  match c with
  | Float64 v => Float64 (fmap (M := option) (round_float d) <$> v)
  | _ => c
  end.

Definition numeric_columns : list string :=
  ["embalse_reserva"; "embalse_porcentaje";
   "meteo_temp_max"; "meteo_temp_min"; "meteo_temp_media";
   "meteo_humedad_max"; "meteo_humedad_min"; "meteo_humedad_media";
   "meteo_vel_viento"; "meteo_vel_viento_max"; "meteo_dir_viento";
   "meteo_radiacion"; "meteo_precipitacion"].

(** The [if]/[elif] chain of [clean_numeric_columns]: the number of decimals
    kept for a column, [None] when no branch applies. *)
Definition precision (col : string) : option nat :=
  if bool_decide (col ∈ ["embalse_reserva"]) then Some 3%nat
  else if bool_decide (col ∈ ["embalse_porcentaje"]) then Some 1%nat
  else if contains "temp" col then Some 2%nat
  else if contains "humedad" col then Some 1%nat
  else if contains "viento" col || contains "dir_viento" col then Some 2%nat
  else if bool_decide (col ∈ ["meteo_radiacion"; "meteo_precipitacion"]) then Some 2%nat
  else None.

Section Cleaning.
(** [pd.to_numeric] on one string: its number, or [None] when the string
    does not parse. *)
Context (parse_float : string → option Q).

(** [pd.to_numeric(s, errors='coerce')]: numbers are kept, strings are
    parsed, timestamps become their integer value ([NaT] the least
    64-bit integer). *)
Definition to_numeric (c : Column) : Column :=
  match c with
  | Float64 v => Float64 v
  | Object v => Float64 ((λ o, o ≫= parse_float) <$> v)
  | Datetime64 v => Float64 ((λ o, Some (inject_Z (default (- 2 ^ 63) o))) <$> v)
  end.

(** One iteration of the loop of [clean_numeric_columns]. *)
Definition clean_column (df_clean : DataFrame) (col : string) : DataFrame :=
  match columns df_clean !! col with
  | Some c =>
      let df_clean := setitem df_clean col (to_numeric c) in
      match precision col, columns df_clean !! col with
      | Some d, Some c' => setitem df_clean col (round_series d c')
      | _, _ => df_clean
      end
  | None => df_clean
  end.

(** [clean_numeric_columns(df)] *)
Definition clean_numeric_columns (df : DataFrame) : DataFrame :=
  foldl clean_column df numeric_columns.
End Cleaning.

(** *** Ranges *)

(** The [ranges] mapping of [validate_ranges], in the order it is written. *)
Definition ranges : list (string * (Z * Z)) :=
  [("embalse_porcentaje", (0, 100));
   ("meteo_temp_max", (-10, 50));
   ("meteo_temp_min", (-15, 45));
   ("meteo_temp_media", (-12, 47));
   ("meteo_humedad_max", (0, 100));
   ("meteo_humedad_min", (0, 100));
   ("meteo_humedad_media", (0, 100));
   ("meteo_vel_viento", (0, 50));
   ("meteo_vel_viento_max", (0, 100));
   ("meteo_dir_viento", (0, 360));
   ("meteo_radiacion", (0, 40));
   ("meteo_precipitacion", (0, 200))].

(** A line printed by [validate_ranges]:
    ["Warning: {count} values in {column} outside range [{range_min}, {range_max}]"]. *)
Record Warning := mkWarning {
  count : nat;
  column : string;
  range_min : Z;
  range_max : Z
}.

(** [mask.any()] and [mask.sum()] *)
Definition mask_any (mask : list bool) : bool := existsb id mask.
Definition mask_sum (mask : list bool) : nat := length (filter (λ b, b = true) mask).

(** One iteration of the loop of [validate_ranges]; [printed] holds the
    lines printed so far. *)
Definition validate_range (df_validated : DataFrame) (printed : list Warning)
    (item : string * (Z * Z)) : result (list Warning) :=
  let '(col, (min_val, max_val)) := item in
  match columns df_validated !! col with
  | Some c =>
      let* below := series_lt_scalar c (inject_Z min_val) in
      let* above := series_gt_scalar c (inject_Z max_val) in
      let mask := mask_or below above in
      if mask_any mask
      then Ok (printed ++ [mkWarning (mask_sum mask) col min_val max_val])
      else Ok printed
  | None => Ok printed
  end.

(** [validate_ranges(df)]: the frame it returns and the lines it prints. *)
Definition validate_ranges (df : DataFrame) : result (DataFrame * list Warning) :=
  let df_validated := df in
  let* printed := foldR (validate_range df_validated) ranges [] in
  Ok (df_validated, printed).

(** *** Missing values *)

(** [np.interp(x, xp, fp)] for [xp] in increasing order: the value at the
    last point whose abscissa is at most [x], moved along the segment to the
    next point; the first or last value outside the points. *)
Definition lerp (p0 p1 : Z * Q) (x : Z) : Q :=
  ((p1.2 - p0.2) / inject_Z (p1.1 - p0.1) * inject_Z (x - p0.1) + p0.2)%Q.

Fixpoint np_interp_from (x : Z) (p0 : Z * Q) (rest : list (Z * Q)) : Q :=
  match rest with
  | [] => p0.2
  | p1 :: rest' =>
      if p1.1 <=? x then np_interp_from x p1 rest'
      else if p0.1 =? x then p0.2
      else lerp p0 p1 x
  end.

Definition np_interp (x : Z) (points : list (Z * Q)) : Q :=
  match points with
  | [] => 0%Q
  | p0 :: rest => if x <? p0.1 then p0.2 else np_interp_from x p0 rest
  end.

(** The rows of a series that hold a value, with their index stamps. *)
Fixpoint valid_points (stamps : list Z) (v : list (option Q)) : list (Z * Q) :=
  match stamps, v with
  | t :: stamps', Some y :: v' => (t, y) :: valid_points stamps' v'
  | _ :: stamps', None :: v' => valid_points stamps' v'
  | _, _ => []
  end.

(** Fill the missing rows from the first valid row on. *)
Fixpoint fill_interp (points : list (Z * Q)) (started : bool)
    (stamps : list Z) (v : list (option Q)) : list (option Q) :=
  match stamps, v with
  | t :: stamps', Some y :: v' => Some y :: fill_interp points true stamps' v'
  | t :: stamps', None :: v' =>
      (if started then Some (np_interp t points) else None)
        :: fill_interp points started stamps' v'
  | _, _ => []
  end.

(** [s.interpolate(method='time')] on a float series.  It needs a
    [DatetimeIndex].  A series without a value, or without a gap, is
    returned as it is; otherwise the valid rows, ordered by stamp, are the
    interpolation points, the rows before the first valid row stay missing
    and every later missing row is filled. *)
Definition interpolate_time (idx : Index) (v : list (option Q)) : result (list (option Q)) :=
  if bool_decide (v = []) then Ok v
  else match idx with
       | Int64Index _ => Err ValueError
       | DatetimeIndex stamps =>
           if forallb (λ o, bool_decide (o = None)) v
              || forallb (λ o, bool_decide (is_Some o)) v
           then Ok v
           else
             let points := stable_sort (λ p q, p.1 <=? q.1) (valid_points stamps v) in
             Ok (fill_interp points false stamps v)
       end.

(** [s.fillna(method='ffill')] *)
Fixpoint ffill_from {A} (last : option A) (v : list (option A)) : list (option A) :=
  match v with
  | [] => []
  | Some x :: v' => Some x :: ffill_from (Some x) v'
  | None :: v' => last :: ffill_from last v'
  end.

Definition ffill_numeric (c : Column) : Column :=
  match c with
  | Float64 v => Float64 (ffill_from None v)
  | _ => c
  end.

(** [df.select_dtypes(include=[np.number]).columns] *)
Definition is_numeric (c : Column) : bool :=
  match c with
  | Float64 _ => true
  | _ => false
  end.

Definition select_dtypes_number (df : DataFrame) : list string :=
  (map_to_list (filter (λ kc, is_numeric kc.2 = true) (columns df))).*1.

(** The mask of the rows without any missing value. *)
Definition column_notna (c : Column) : list bool := notna (cells c).

Definition complete_rows (df : DataFrame) : list bool :=
  map_fold (λ _ c mask, zip_with andb (column_notna c) mask)
    (replicate (nrows df) true) (columns df).

(** [df.dropna()] *)
Definition frame_dropna (df : DataFrame) : DataFrame :=
  getitem_mask df (complete_rows df).

(** [handle_missing_values(df, strategy)] *)
Definition handle_missing_values (df : DataFrame) (strategy : string) : result DataFrame :=
  let df_filled := df in
  let numeric_columns := select_dtypes_number df_filled in
  if bool_decide (strategy = "interpolate") then
    foldR (λ df_filled col,
             let* v := bind (getitem df_filled col) float_values in
             let* v' := interpolate_time (index df_filled) v in
             Ok (setitem df_filled col (Float64 v')))
          numeric_columns df_filled
  else if bool_decide (strategy = "forward_fill") then
    Ok (mkDataFrame (index df_filled) (ffill_numeric <$> columns df_filled))
  else if bool_decide (strategy = "drop") then
    Ok (frame_dropna df_filled)
  else Ok df_filled.

(** *** Duplicates *)

(** [s.duplicated(keep='first')]: whether the key was met on an earlier row. *)
Fixpoint duplicated_from {K} `{EqDecision K} (seen : list K) (keys : list K) : list bool :=
  match keys with
  | [] => []
  | k :: keys' => bool_decide (k ∈ seen) :: duplicated_from (k :: seen) keys'
  end.

Definition duplicated {K} `{EqDecision K} (keys : list K) : list bool :=
  duplicated_from [] keys.

(** [remove_duplicates(df)]: the frame without its duplicate rows, and the
    count it prints when rows were removed.  A key column that is absent
    raises [KeyError]. *)
Definition remove_duplicates (df : DataFrame) : result (DataFrame * option nat) :=
  let* date := getitem df "date" in
  let* codigo := getitem df "embalse_codigo" in
  let keys := zip (cells date) (cells codigo) in
  let df_clean := getitem_mask df (negb <$> duplicated keys) in
  let duplicates_removed := (nrows df - nrows df_clean)%nat in
  Ok (df_clean, if (0 <? duplicates_removed)%nat then Some duplicates_removed else None).

End ReservoirDataCleaner.

(** * Analyzer ([exploratory.py]) *)

Module ExploratoryAnalyzer.

(** A value stored in a result mapping.  Floats that exact arithmetic
    cannot express are kept as the expression the code evaluates. *)
Inductive Value :=
| VFloat (x : option Q)              (* a float; [None] is nan *)
| VStr (s : string)
| VSqrt (rad : Q)                    (* [sqrt(rad)] *)
| VDivSqrt (num rad : Q)             (* [num / sqrt(rad)] *)
| VNormTwoTail (z : Value)           (* [2 * (1 - norm.cdf(abs(z)))] *)
| VStudentTwoTail (n : nat) (r2 : Q) (* the two-sided p-value of the slope
                                        for [n] points with squared
                                        correlation [r2] *).

(** The civil date of a day of the epoch (proleptic Gregorian calendar), as
    [.dt.year] and [.dt.month] give it. *)
Definition civil_from_days (d : Z) : Z * Z * Z :=
  let z := d + 719468 in
  let era := z / 146097 in
  let doe := z - era * 146097 in
  let yoe := (doe - doe / 1460 + doe / 36524 - doe / 146096) / 365 in
  let y := yoe + era * 400 in
  let doy := doe - (365 * yoe + yoe / 4 - yoe / 100) in
  let mp := (5 * doy + 2) / 153 in
  let day := doy - (153 * mp + 2) / 5 + 1 in
  let m := if mp <? 10 then mp + 3 else mp - 9 in
  (if m <=? 2 then y + 1 else y, m, day).

Definition dt_year (t : Z) : Z := (civil_from_days (days t)).1.1.
Definition dt_month (t : Z) : Z := (civil_from_days (days t)).1.2.

(** [s.groupby(keys).size()]: the number of rows per key; rows with a
    missing key are left out. *)
Definition group_sizes (keys : list (option Z)) : gmap Z nat :=
  foldr (λ k m, <[k := S (default 0%nat (m !! k))]> m) ∅ (dropna keys).

Definition Qsum (l : list Q) : Q := foldr Qplus 0%Q l.

Definition Qmean (l : list Q) : Q := (Qsum l / inject_Z (Z.of_nat (length l)))%Q.

(** *** Extreme events *)

Record ExtremeEvents := mkExtremeEvents {
  threshold : option Q;
  num_extreme_events : nat;
  extreme_percentage : Q;
  extreme_events_data : DataFrame;
  monthly_extreme_counts : gmap Z nat;
  yearly_extreme_counts : gmap Z nat;
  (* the three keys below exist only when there is an extreme event *)
  extreme_mean : option Value;
  extreme_max : option Value;
  extreme_std : option Value
}.

Definition Qmax_list (l : list Q) : option Q :=
  match l with
  | [] => None
  | x :: l' => Some (foldl (λ a b, if Qle_bool a b then b else a) x l')
  end.

(** [s.std()]: the sample standard deviation, nan for fewer than two values. *)
Definition series_std (l : list Q) : Value :=
  if (length l <? 2)%nat then VFloat None
  else
    let m := Qmean l in
    VSqrt (Qsum ((λ x, (x - m) * (x - m))%Q <$> l) / inject_Z (Z.of_nat (length l - 1)))%Q.

(** [extreme_events_analysis(variable, threshold_percentile)] on the data the
    analyzer was built with. *)
Definition extreme_events_analysis (data : DataFrame) (variable : string)
    (threshold_percentile : Q) : result ExtremeEvents :=
  let df := data in
  let* v := bind (getitem df variable) float_values in
  let* threshold := quantile v (threshold_percentile / 100) in
  let mask := (λ x, gt_opt x threshold) <$> v in
  let extreme_events := getitem_mask df mask in
  let* percentage :=
    (if (nrows df =? 0)%nat then Err ZeroDivisionError
     else Ok (inject_Z (Z.of_nat (nrows extreme_events))
              / inject_Z (Z.of_nat (nrows df)) * 100)%Q) in
  let* date := bind (getitem extreme_events "date") dt_values in
  let* values := bind (getitem extreme_events variable) float_values in
  let present := (0 <? nrows extreme_events)%nat in
  Ok {|
    threshold := threshold;
    num_extreme_events := nrows extreme_events;
    extreme_percentage := percentage;
    extreme_events_data := extreme_events;
    monthly_extreme_counts := group_sizes (fmap (M := option) dt_month <$> date);
    yearly_extreme_counts := group_sizes (fmap (M := option) dt_year <$> date);
    extreme_mean := if present then Some (VFloat (Some (Qmean (dropna values)))) else None;
    extreme_max := if present then Some (VFloat (Qmax_list (dropna values))) else None;
    extreme_std := if present then Some (series_std (dropna values)) else None
  |}.

(** *** Trends *)

(** [scipy.stats.linregress(x, y)].  The two samples must be non-empty and
    of one length, and [x] must not be constant. *)
Record LinregressResult := mkLinregressResult {
  slope : option Q;
  intercept : option Q;
  r_squared : option Q;
  p_value : Value;
  std_err : Value
}.

Definition all_equal (l : list Q) : bool :=
  match l with
  | [] => true
  | x :: l' => forallb (Qeq_bool x) l'
  end.

Definition linregress (x y : list (option Q)) : result LinregressResult :=
  if (length x =? 0)%nat || (length y =? 0)%nat then Err ValueError
  else if negb (length x =? length y)%nat then Err ValueError
  else
    match mapM id x, mapM id y with
    | Some xs, Some ys =>
        let n := length xs in
        if all_equal xs && (1 <? n)%nat then Err ValueError
        else
          let xmean := Qmean xs in
          let ymean := Qmean ys in
          let ssxm := Qmean ((λ a, (a - xmean) * (a - xmean))%Q <$> xs) in
          let ssym := Qmean ((λ b, (b - ymean) * (b - ymean))%Q <$> ys) in
          let ssxym := Qmean (zip_with (λ a b, (a - xmean) * (b - ymean))%Q xs ys) in
          let r2 := if Qeq_bool ssxm 0 || Qeq_bool ssym 0 then 0%Q
                    else (ssxym * ssxym / (ssxm * ssym))%Q in
          if Qeq_bool ssxm 0 then
            Ok (mkLinregressResult None None (Some r2) (VFloat None) (VFloat None))
          else
            let slope := (ssxym / ssxm)%Q in
            let intercept := (ymean - slope * xmean)%Q in
            if (n =? 2)%nat then
              Ok (mkLinregressResult (Some slope) (Some intercept) (Some r2)
                    (VFloat (Some (if all_equal ys then 1 else 0)%Q)) (VFloat (Some 0%Q)))
            else
              Ok (mkLinregressResult (Some slope) (Some intercept) (Some r2)
                    (VStudentTwoTail n r2)
                    (VSqrt ((1 - r2) * ssym / ssxm / inject_Z (Z.of_nat n - 2))%Q))
    | _, _ =>
        (* a nan in a sample makes every computed statistic nan *)
        Ok (mkLinregressResult None None None (VFloat None) (VFloat None))
    end.

(** [np.sign] *)
Definition sign (x : Q) : Z := Z.sgn (Qnum x).

(** The double loop of the Mann-Kendall statistic:
    [for i in range(n-1): for j in range(i+1, n): S += sign(values[j] - values[i])]. *)
Definition mann_kendall_S (values : list Q) : Z :=
  let n := length values in
  foldl (λ S i,
           foldl (λ S j, S + sign (nth j values 0 - nth i values 0)%Q)
                 S (seq (i + 1) (n - (i + 1))))
        0 (seq 0 (n - 1)).

Definition mann_kendall_var (n : nat) : Q :=
  let n := inject_Z (Z.of_nat n) in
  (n * (n - 1) * (2 * n + 5) / 18)%Q.

Definition mann_kendall_Z (S : Z) (var_s : Q) : Value :=
  if 0 <? S then VDivSqrt (inject_Z (S - 1)) var_s
  else if S <? 0 then VDivSqrt (inject_Z (S + 1)) var_s
  else VFloat (Some 0%Q).

Definition mann_kendall_trend (S : Z) : string :=
  if 0 <? S then "increasing" else if S <? 0 then "decreasing" else "no trend".

(** The [time_index] column: whole days elapsed since the earliest date. *)
Definition time_index (date : list (option Z)) : list (option Q) :=
  (λ t, inject_Z <$> (days <$> sub_opt t (series_min date))) <$> date.

(** [trend_analysis(variable, method)] on the data the analyzer was built
    with. *)
Definition trend_analysis (data : DataFrame) (variable method : string)
    : result (gmap string Value) :=
  let df := data in
  let* df := sort_values df ["date"] in
  let* date := bind (getitem df "date") datetime_values in
  let df := setitem df "time_index" (Float64 (time_index date)) in
  let results : gmap string Value := ∅ in
  if bool_decide (method = "linear") then
    let* x := bind (getitem df "time_index") float_values in
    let* y := bind (getitem df variable) float_values in
    let* fit := linregress x (Some <$> dropna y) in
    let results := <["slope" := VFloat (slope fit)]> results in
    let results := <["intercept" := VFloat (intercept fit)]> results in
    let results := <["r_squared" := VFloat (r_squared fit)]> results in
    let results := <["p_value" := p_value fit]> results in
    let results := <["std_error" := std_err fit]> results in
    let annual_change := (λ s, s * (36525 # 100))%Q <$> slope fit in
    let results := <["annual_change" := VFloat annual_change]> results in
    Ok results
  else if bool_decide (method = "mann_kendall") then
    let* y := bind (getitem df variable) float_values in
    let values := dropna y in
    let n := length values in
    let S := mann_kendall_S values in
    let var_s := mann_kendall_var n in
    let z := mann_kendall_Z S var_s in
    let p_value := VNormTwoTail z in
    let results := <["S_statistic" := VFloat (Some (inject_Z S))]> results in
    let results := <["Z_statistic" := z]> results in
    let results := <["p_value" := p_value]> results in
    let results := <["trend" := VStr (mann_kendall_trend S)]> results in
    Ok results
  else Ok results.

End ExploratoryAnalyzer.

(** * Vocabulary of the statements *)

(** ** Well-formed frames *)

(** Every column of a frame has one entry per row of its index. *)
Definition column_length (c : Column) : nat := length (cells c).

Definition frame_wf (df : DataFrame) : Prop :=
  map_Forall (λ _ c, column_length c = nrows df) (columns df).

(** ** Earliest and latest date *)

(** The earliest date of a series: a date of the series that no other date
    of it precedes.  Likewise the latest. *)
Definition earliest (v : list (option Z)) (t : Z) : Prop :=
  Some t ∈ v ∧ ∀ u, Some u ∈ v → t ≤ u.

Definition latest (v : list (option Z)) (t : Z) : Prop :=
  Some t ∈ v ∧ ∀ u, Some u ∈ v → u ≤ t.

(** ** The Mann-Kendall statistic as the specification writes it *)

Definition sum_Z (l : list Z) : Z := foldr Z.add 0 l.

(** All pairs of positions [(i, j)] of a series of length [n] with [i < j]. *)
Definition pairs_before (n : nat) : list (nat * nat) :=
  i ← seq 0 n; j ← seq 0 n; if bool_decide (i < j)%nat then [(i, j)] else [].

(** [S = Σ_{i<j} sign(x_j − x_i)] *)
Definition sum_sign_pairs (x : list Q) : Z :=
  sum_Z ((λ p, ExploratoryAnalyzer.sign (nth p.2 x 0 - nth p.1 x 0)%Q)
           <$> pairs_before (length x)).

(** ** Counting duplicates *)

(** The number of rows that carry the key [k]. *)
Definition occurrences {K} `{EqDecision K} (k : K) (keys : list K) : nat :=
  length (filter (λ k', k' = k) keys).

Definition sum_nat (l : list nat) : nat := foldr Nat.add 0%nat l.

(** ** Interpolation as the specification describes it *)

(** The valid rows of one entity, as (stamp, value) points. *)
Definition entity_points (entity : option Cell)
    (rows : list (Z * (option Cell * option Q))) : list (Z * Q) :=
  omap (λ r, if decide (r.2.1 = entity) then (λ y, (r.1, y)) <$> r.2.2 else None) rows.

(** The latest of the points before [t], and the earliest after it. *)
Definition latest_before (t : Z) (points : list (Z * Q)) : option (Z * Q) :=
  foldl (λ best p,
           if p.1 <? t then
             match best with
             | Some b => if b.1 <? p.1 then Some p else best
             | None => Some p
             end
           else best) None points.

Definition earliest_after (t : Z) (points : list (Z * Q)) : option (Z * Q) :=
  foldl (λ best p,
           if t <? p.1 then
             match best with
             | Some b => if p.1 <? b.1 then Some p else best
             | None => Some p
             end
           else best) None points.

(** Time-weighted linear interpolation along each entity's own chronological
    axis: a missing value is filled from the nearest valid rows of its own
    entity on both sides, and stays missing when one side has none. *)
Definition interpolate_within_entity
    (stamps : list Z) (entity : list (option Cell)) (v : list (option Q)) : list (option Q) :=
  let rows := zip stamps (zip entity v) in
  (λ r, match r.2.2 with
        | Some y => Some y
        | None =>
            let own := entity_points r.2.1 rows in
            match latest_before r.1 own, earliest_after r.1 own with
            | Some p0, Some p1 => Some (ReservoirDataCleaner.lerp p0 p1 r.1)
            | _, _ => None
            end
        end) <$> rows.

(** ** One column under a cleaning step *)

(** What the ['interpolate'] strategy does to one column of a frame indexed
    by [idx]. *)
Definition interpolate_column (idx : Index) (c : Column) : Column :=
  match c with
  | Float64 v =>
      match ReservoirDataCleaner.interpolate_time idx v with
      | Ok v' => Float64 v'
      | Err _ => c
      end
  | _ => c
  end.

(** What one pass of the loop of [clean_numeric_columns] does to the column
    it visits. *)
Definition clean_series (parse_float : string → option Q) (col : string) (c : Column)
    : Column :=
  match ReservoirDataCleaner.precision col with
  | Some d => ReservoirDataCleaner.round_series d (ReservoirDataCleaner.to_numeric parse_float c)
  | None => ReservoirDataCleaner.to_numeric parse_float c
  end.

(** ** Cleaning followed by validation *)

(** Column [k] of [df] holds numbers (or is absent) and [df'] holds the same
    column rounded to [d] decimals. *)
Definition rounded_in (d : nat) (df df' : DataFrame) (k : string) : Prop :=
  match columns df !! k with
  | Some (Float64 v) =>
      columns df' !! k
      = Some (Float64 (fmap (M := option) (ReservoirDataCleaner.round_float d) <$> v))
  | Some _ => False
  | None => columns df' !! k = None
  end.

(** The report [r'] has the rules of [r], and under each rule its rows are
    among the rows of [r], in the same order. *)
Definition flags_fewer (r' r : gmap string (list Label)) : Prop :=
  ∀ rule, match r' !! rule, r !! rule with
          | Some l', Some l => l' `sublist_of` l
          | None, None => True
          | _, _ => False
          end.

(** ** Sorted dates *)

(** The order in which [sort_values] leaves a column of timestamps: present
    values in ascending order, missing ones last. *)
Definition stamp_le (a b : option Z) : Prop :=
  match a, b with
  | Some x, Some y => x ≤ y
  | None, Some _ => False
  | _, _ => True
  end.

(** ** Values outside a range *)

(** Whether a value is present and lies below [min_val] or above [max_val],
    and the number of such values in a series. *)
Definition outside (min_val max_val : Z) (o : option Q) : bool :=
  match o with
  | Some x => Qltb x (inject_Z min_val) || Qltb (inject_Z max_val) x
  | None => false
  end.

Definition out_of_range (min_val max_val : Z) (v : list (option Q)) : nat :=
  length (filter (λ o, outside min_val max_val o = true) v).

(** ** Tables of counts *)

(** The sum of the counts of a table of counts. *)
Definition total_count (m : gmap Z nat) : nat := map_fold (λ _ n s, (n + s)%nat) 0%nat m.

(** * Sample datasets *)

(** Five consecutive days from 2020-01-01, day 18262 of the epoch. *)
Definition five_days : list (option Z) :=
  [Some (midnight 18262); Some (midnight 18263); Some (midnight 18264);
   Some (midnight 18265); Some (midnight 18266)].

(** The fixture of the validator tests ([TestDataValidator.setUp]). *)
Definition validator_sample : DataFrame :=
  mkDataFrame (Int64Index [0; 1; 2; 3; 4])
    (<["date" := Datetime64 five_days]>
     (<["embalse_porcentaje" :=
          Float64 [Some 45%Q; Some 50%Q; Some 55%Q; Some 120%Q; Some 60%Q]]>
     (<["meteo_temp_max" :=
          Float64 [Some 25%Q; Some 30%Q; Some 28%Q; Some 26%Q; Some 29%Q]]>
     (<["meteo_temp_min" :=
          Float64 [Some 35%Q; Some 20%Q; Some 18%Q; Some 16%Q; Some 19%Q]]>
     (<["meteo_temp_media" :=
          Float64 [Some 20%Q; Some 25%Q; Some 23%Q; Some 21%Q; Some 24%Q]]> ∅))))).

(** The validator fixture with entity codes: the storage percentage of
    entity B jumps from 50 to 120. *)
Definition jump_sample : DataFrame :=
  setitem validator_sample "embalse_codigo"
    (Object [Some "A"; Some "B"; Some "A"; Some "B"; Some "A"]%string).

(** Five days of one entity, without the storage-percentage column. *)
Definition no_percentage_sample : DataFrame :=
  mkDataFrame (Int64Index [0; 1; 2; 3; 4])
    (<["date" := Datetime64 five_days]>
     (<["embalse_codigo" := Object (replicate 5 (Some "S19"%string))]> ∅)).

(** A dataset without any of the fields a validator reads. *)
Definition codes_only_sample : DataFrame :=
  mkDataFrame (Int64Index [0; 1])
    (<["embalse_codigo" := Object [Some "S19"%string; Some "S20"%string]]> ∅).

(** The fixture of the cleaner tests ([TestReservoirDataCleaner.setUp]). *)
Definition cleaner_sample : DataFrame :=
  mkDataFrame (Int64Index [0; 1; 2; 3; 4])
    (<["date" := Datetime64 five_days]>
     (<["embalse_porcentaje" :=
          Float64 [Some 45%Q; Some (50123456789 # 1000000000)%Q; Some 55%Q; None; Some 60%Q]]>
     (<["meteo_temp_max" :=
          Float64 [Some (25123456789 # 1000000000)%Q; Some 30%Q; Some 28%Q; Some 26%Q;
                   Some 29%Q]]>
     (<["meteo_temp_min" := Float64 [Some 15%Q; Some 20%Q; Some 18%Q; Some 16%Q; None]]>
     (<["meteo_precipitacion" :=
          Float64 [Some 0%Q; Some (55 # 10)%Q; Some 0%Q; Some (23 # 10)%Q; Some 0%Q]]> ∅))))).

(** Three consecutive days with a gap in the storage percentage. *)
Definition gap_sample : DataFrame :=
  mkDataFrame (Int64Index [0; 1; 2])
    (<["date" :=
         Datetime64 [Some (midnight 18262); Some (midnight 18263); Some (midnight 18264)]]>
     (<["embalse_porcentaje" := Float64 [Some 1%Q; None; Some 3%Q]]> ∅)).

(** Five consecutive days on which the variable takes the values 1 .. 5. *)
Definition increasing_sample : DataFrame :=
  mkDataFrame (Int64Index [0; 1; 2; 3; 4])
    (<["date" := Datetime64 five_days]>
     (<["embalse_porcentaje" :=
          Float64 [Some 1%Q; Some 2%Q; Some 3%Q; Some 4%Q; Some 5%Q]]> ∅)).

(** Two rows of one entity on the same day, then a row of another entity and
    a third row of the first entity on that day. *)
Definition duplicate_sample : DataFrame :=
  mkDataFrame (Int64Index [0; 1; 2; 3])
    (<["date" := Datetime64 (replicate 4 (Some (midnight 18262)))]>
     (<["embalse_codigo" :=
          Object [Some "S19"%string; Some "S19"%string; Some "S20"%string; Some "S19"%string]]>
     (<["embalse_porcentaje" := Float64 [Some 45%Q; Some 50%Q; Some 55%Q; Some 60%Q]]> ∅))).

(** Ten days of storage percentages for the extreme-event analysis. *)
Definition ten_days : list (option Z) :=
  (λ d, Some (midnight (18262 + Z.of_nat d))) <$> seq 0 10.

Definition extreme_sample : DataFrame :=
  mkDataFrame (Int64Index [0; 1; 2; 3; 4; 5; 6; 7; 8; 9])
    (<["date" := Datetime64 ten_days]>
     (<["embalse_porcentaje" :=
          Float64 [Some 40%Q; Some 42%Q; None; Some 95%Q; Some 41%Q;
                   Some 43%Q; Some 97%Q; Some 44%Q; Some 45%Q; Some 46%Q]]> ∅)).

(** Three days indexed by date: entity A on the first and the third day,
    entity B, without a storage percentage, on the second; entity A has no
    temperature on the third day. *)
Definition three_stamps : list Z := [midnight 18262; midnight 18263; midnight 18264].

Definition mixed_codes : Column := Object [Some "A"; Some "B"; Some "A"]%string.

Definition mixed_sample : DataFrame :=
  mkDataFrame (DatetimeIndex three_stamps)
    (<["embalse_codigo" := mixed_codes]>
     (<["embalse_porcentaje" := Float64 [Some 10%Q; None; Some 20%Q]]>
     (<["meteo_temp_max" := Float64 [Some 1%Q; Some 2%Q; None]]> ∅))).

(** * Properties *)

(** ** Results and frames *)

Lemma getitem_lookup df col c :
  columns df !! col = Some c → getitem df col = Ok c.
Proof. unfold getitem. by intros ->. Qed.

Lemma getitem_missing df col :
  columns df !! col = None → getitem df col = Err (KeyError col).
Proof. unfold getitem. by intros ->. Qed.

Lemma getitem_frame_rows f df col c :
  columns df !! col = Some c →
  getitem (frame_rows f df) col = Ok (column_rows f c).
Proof.
  intros H. apply getitem_lookup. simpl. by rewrite lookup_fmap, H.
Qed.

Lemma sort_values_one df col c :
  columns df !! col = Some c →
  sort_values df [col]
  = Ok (frame_rows (λ A, take_pos (argsort (nrows df) [cells c])) df).
Proof.
  intros H. unfold sort_values. simpl. by rewrite (getitem_lookup _ _ _ H).
Qed.

(** ** Minimum and maximum of a series *)

Lemma foldl_min_le l : ∀ x, foldl Z.min x l ≤ x ∧ Forall (λ y, foldl Z.min x l ≤ y) l.
Proof.
  induction l as [|a l IH]; intros x; simpl.
  - split; [lia | constructor].
  - destruct (IH (Z.min x a)) as [H1 H2]. split; [lia|].
    constructor; [lia | done].
Qed.

Lemma foldl_min_elem l : ∀ x, foldl Z.min x l = x ∨ foldl Z.min x l ∈ l.
Proof.
  induction l as [|a l IH]; intros x; simpl; [by left|].
  destruct (IH (Z.min x a)) as [H|H].
  - rewrite H. destruct (Z.min_spec x a) as [[_ ->]|[_ ->]]; [by left|].
    right. by left.
  - right. by right.
Qed.

Lemma foldl_max_ge l : ∀ x, x ≤ foldl Z.max x l ∧ Forall (λ y, y ≤ foldl Z.max x l) l.
Proof.
  induction l as [|a l IH]; intros x; simpl.
  - split; [lia | constructor].
  - destruct (IH (Z.max x a)) as [H1 H2]. split; [lia|].
    constructor; [lia | done].
Qed.

Lemma foldl_max_elem l : ∀ x, foldl Z.max x l = x ∨ foldl Z.max x l ∈ l.
Proof.
  induction l as [|a l IH]; intros x; simpl; [by left|].
  destruct (IH (Z.max x a)) as [H|H].
  - rewrite H. destruct (Z.max_spec x a) as [[_ ->]|[_ ->]]; [|by left].
    right. by left.
  - right. by right.
Qed.

Lemma elem_of_dropna {A} (v : list (option A)) x : x ∈ dropna v ↔ Some x ∈ v.
Proof.
  unfold dropna. rewrite list_elem_of_omap. split.
  - intros (o & Ho & Hx). simpl in Hx. by subst.
  - intros H. by exists (Some x).
Qed.

Lemma series_min_earliest v t : earliest v t → series_min v = Some t.
Proof.
  intros [Hin Hle]. unfold series_min, list_min.
  apply elem_of_dropna in Hin.
  destruct (dropna v) as [|x l] eqn:E; [by apply elem_of_nil in Hin|].
  f_equal. destruct (foldl_min_le l x) as [H1 H2].
  assert (Hm : foldl Z.min x l ∈ x :: l).
  { destruct (foldl_min_elem l x) as [->|H]; [by left | by right]. }
  assert (t ≤ foldl Z.min x l).
  { apply Hle. apply elem_of_dropna. by rewrite E. }
  apply list_elem_of_In in Hin.
  destruct Hin as [->|Hin]; [lia|].
  rewrite Forall_forall in H2. apply list_elem_of_In, H2 in Hin. lia.
Qed.

Lemma series_max_latest v t : latest v t → series_max v = Some t.
Proof.
  intros [Hin Hle]. unfold series_max, list_max.
  apply elem_of_dropna in Hin.
  destruct (dropna v) as [|x l] eqn:E; [by apply elem_of_nil in Hin|].
  f_equal. destruct (foldl_max_ge l x) as [H1 H2].
  assert (Hm : foldl Z.max x l ∈ x :: l).
  { destruct (foldl_max_elem l x) as [->|H]; [by left | by right]. }
  assert (foldl Z.max x l ≤ t).
  { apply Hle. apply elem_of_dropna. by rewrite E. }
  apply list_elem_of_In in Hin.
  destruct Hin as [->|Hin]; [lia|].
  rewrite Forall_forall in H2. apply list_elem_of_In, H2 in Hin. lia.
Qed.

Lemma days_between_midnights a b : days (midnight b - midnight a) = b - a.
Proof.
  unfold days, midnight. rewrite <- Z.mul_sub_distr_r.
  apply Z.div_mul. unfold NS_PER_DAY. lia.
Qed.

Lemma nunique_spec v :
  NoDup (remove_dups (dropna v))
  ∧ (∀ t, t ∈ remove_dups (dropna v) ↔ Some t ∈ v)
  ∧ nunique v = length (remove_dups (dropna v)).
Proof.
  split; [apply NoDup_remove_dups|]. split; [|done].
  intros t. by rewrite elem_of_remove_dups, elem_of_dropna.
Qed.

(** ** Temporal consistency *)

(** C1, as stated, fails: on the five consecutive days 2020-01-01 ..
    2020-01-05 (days 18262 .. 18266 of the epoch) the check reports
    [total_days = 4], not the inclusive count [(18266 - 18262) + 1 = 5]. *)
Lemma total_days_inclusive_counterexample :
  earliest five_days (midnight 18262)
  ∧ latest five_days (midnight 18266)
  ∧ ∃ r, DataValidator.check_temporal_consistency validator_sample = Ok r
         ∧ DataValidator.total_days r = Some 4
         ∧ DataValidator.total_days r ≠ Some ((18266 - 18262) + 1).
Proof.
  split; [|split].
  - split; [by left|].
    intros u Hu. apply list_elem_of_In in Hu. simpl in Hu.
    repeat destruct Hu as [Hu|Hu]; try done; injection Hu as <-; vm_compute; congruence.
  - split; [do 4 right; by left|].
    intros u Hu. apply list_elem_of_In in Hu. simpl in Hu.
    repeat destruct Hu as [Hu|Hu]; try done; injection Hu as <-; vm_compute; congruence.
  - eexists. split; [vm_compute; reflexivity|]. simpl. split; [done|discriminate].
Qed.

(** C1 (amended): for a dataset whose dates run from day [d_min] to day
    [d_max], the check returns [total_days = d_max - d_min], the number of
    days elapsed between the earliest and the latest date (one less than the
    inclusive count), with the number of distinct dates as [unique_dates]
    and [duplicate_dates = total rows - unique dates]. *)
Theorem check_temporal_consistency_total_days
    (df : DataFrame) (v : list (option Z)) (d_min d_max : Z) :
  columns df !! "date" = Some (Datetime64 v) →
  earliest v (midnight d_min) →
  latest v (midnight d_max) →
  ∃ r uniq,
    DataValidator.check_temporal_consistency df = Ok r
    ∧ DataValidator.date_range r = (Some (midnight d_min), Some (midnight d_max))
    ∧ DataValidator.total_days r = Some (d_max - d_min)
    ∧ NoDup uniq ∧ (∀ t, t ∈ uniq ↔ Some t ∈ v)
    ∧ DataValidator.unique_dates r = length uniq
    ∧ DataValidator.duplicate_dates r = Z.of_nat (nrows df) - Z.of_nat (length uniq).
Proof.
  intros Hdate Hmin Hmax.
  unfold DataValidator.check_temporal_consistency.
  rewrite (sort_values_one _ _ _ Hdate). simpl.
  rewrite (getitem_frame_rows _ _ _ _ Hdate). simpl.
  rewrite (getitem_lookup _ _ _ Hdate). simpl.
  destruct (nunique_spec v) as (Hnd & Hin & Hn).
  eexists. exists (remove_dups (dropna v)). split; [reflexivity|]. simpl.
  rewrite (series_min_earliest _ _ Hmin), (series_max_latest _ _ Hmax). simpl.
  rewrite days_between_midnights. by rewrite Hn.
Qed.

Lemma check_temporal_consistency_total_days_witness :
  ∃ r uniq,
    DataValidator.check_temporal_consistency validator_sample = Ok r
    ∧ DataValidator.date_range r = (Some (midnight 18262), Some (midnight 18266))
    ∧ DataValidator.total_days r = Some (18266 - 18262)
    ∧ NoDup uniq ∧ (∀ t, t ∈ uniq ↔ Some t ∈ five_days)
    ∧ DataValidator.unique_dates r = length uniq
    ∧ DataValidator.duplicate_dates r
      = Z.of_nat (nrows validator_sample) - Z.of_nat (length uniq).
Proof.
  apply (check_temporal_consistency_total_days validator_sample five_days 18262 18266).
  - reflexivity.
  - split; [by left|].
    intros u Hu. apply list_elem_of_In in Hu. simpl in Hu.
    repeat destruct Hu as [Hu|Hu]; try done; injection Hu as <-; vm_compute; congruence.
  - split; [do 4 right; by left|].
    intros u Hu. apply list_elem_of_In in Hu. simpl in Hu.
    repeat destruct Hu as [Hu|Hu]; try done; injection Hu as <-; vm_compute; congruence.
Defined.

(** ** Missing columns *)

Lemma check_reservoir_consistency_no_percentage df :
  columns df !! "embalse_porcentaje" = None →
  DataValidator.check_reservoir_consistency df = Err (KeyError "embalse_porcentaje").
Proof.
  intros H. unfold DataValidator.check_reservoir_consistency.
  by rewrite (getitem_missing _ _ H).
Qed.

Lemma check_temporal_consistency_no_date df :
  columns df !! "date" = None →
  DataValidator.check_temporal_consistency df = Err (KeyError "date").
Proof.
  intros H. unfold DataValidator.check_temporal_consistency, sort_values. simpl.
  by rewrite (getitem_missing _ _ H).
Qed.

(** C3, on the code: [check_reservoir_consistency] raises [KeyError] on a
    dataset without the storage-percentage column, and on the fixture of its
    own test, which has no entity-code column; [check_temporal_consistency]
    raises without a date column.  [validate_weather_consistency] guards
    its columns and returns the empty mapping; the completeness and outlier
    checks read only the columns that exist. *)
Theorem validators_on_missing_columns :
  columns no_percentage_sample !! "embalse_porcentaje" = None
  ∧ DataValidator.check_reservoir_consistency no_percentage_sample
    = Err (KeyError "embalse_porcentaje")
  ∧ columns validator_sample !! "embalse_codigo" = None
  ∧ DataValidator.check_reservoir_consistency validator_sample
    = Err (KeyError "embalse_codigo")
  ∧ DataValidator.check_temporal_consistency codes_only_sample = Err (KeyError "date")
  ∧ DataValidator.validate_weather_consistency codes_only_sample = Ok ∅
  ∧ DataValidator._detect_outliers codes_only_sample (15 # 10) = Ok ∅
  ∧ DataValidator.check_data_completeness codes_only_sample
    = {["embalse_codigo" := Some (200 # 2)%Q]}.
Proof. repeat split; vm_compute; reflexivity. Qed.

(** ** Sorting and reordering *)

Lemma insert_sorted_Permutation {A} (leb : A → A → bool) x l :
  insert_sorted leb x l ≡ₚ x :: l.
Proof.
  induction l as [|y l IH]; simpl; [done|].
  destruct (leb x y); [done|].
  rewrite IH. apply perm_swap.
Qed.

Lemma stable_sort_Permutation {A} (leb : A → A → bool) l :
  stable_sort leb l ≡ₚ l.
Proof.
  induction l as [|x l IH]; simpl; [done|].
  rewrite insert_sorted_Permutation. by rewrite IH.
Qed.

Lemma argsort_Permutation n by_cols : argsort n by_cols ≡ₚ seq 0 n.
Proof. apply stable_sort_Permutation. Qed.

Section StableSortSorted.
Context {A : Type} (leb : A → A → bool) (R : A → A → Prop).
Context (leb_true : ∀ x y, leb x y = true → R x y).
Context (leb_false : ∀ x y, leb x y = false → R y x).

Lemma insert_sorted_HdRel x a l :
  R a x → HdRel R a l → HdRel R a (insert_sorted leb x l).
Proof.
  intros Hax Hhd. destruct l as [|y l]; simpl; [by constructor|].
  destruct (leb x y); constructor; [done|]. by inversion Hhd.
Qed.

Lemma insert_sorted_Sorted x l :
  Sorted R l → Sorted R (insert_sorted leb x l).
Proof.
  induction 1 as [|y l Hs IH Hhd]; simpl.
  - by repeat constructor.
  - destruct (leb x y) eqn:E.
    + constructor; [by constructor|]. constructor. by apply leb_true.
    + constructor; [done|]. apply insert_sorted_HdRel; [|done]. by apply leb_false.
Qed.

Lemma stable_sort_Sorted l : Sorted R (stable_sort leb l).
Proof.
  induction l as [|x l IH]; simpl; [constructor|]. by apply insert_sorted_Sorted.
Qed.
End StableSortSorted.

Lemma cell_compare_antisym a b : cell_compare b a = CompOpp (cell_compare a b).
Proof.
  destruct a, b; simpl; try done.
  - symmetry. apply Qcompare_antisym.
  - apply Z.compare_antisym.
  - apply String.compare_antisym.
Qed.

Lemma key_compare_antisym a b : key_compare b a = CompOpp (key_compare a b).
Proof. destruct a, b; simpl; try done. apply cell_compare_antisym. Qed.

Lemma keys_compare_antisym a b : keys_compare b a = CompOpp (keys_compare a b).
Proof.
  revert b. induction a as [|x a IH]; intros [|y b]; simpl; try done.
  rewrite (key_compare_antisym x y). destruct (key_compare x y); simpl; auto.
Qed.

(** The rows of a sorted frame are the rows of the frame, each once, in
    ascending order of their keys. *)
Lemma argsort_Sorted n by_cols :
  Sorted (λ i j, keys_leb (row_key by_cols i) (row_key by_cols j) = true) (argsort n by_cols).
Proof.
  apply (stable_sort_Sorted (λ i j, keys_leb (row_key by_cols i) (row_key by_cols j))).
  - done.
  - intros i j. unfold keys_leb.
    rewrite (keys_compare_antisym (row_key by_cols i) (row_key by_cols j)).
    by destruct (keys_compare _ _).
Qed.

Lemma take_pos_seq_from {A} (l1 l2 : list A) :
  take_pos (seq (length l1) (length l2)) (l1 ++ l2) = l2.
Proof.
  revert l1. induction l2 as [|x l2 IH]; intros l1; simpl; [done|].
  unfold take_pos in *. simpl.
  rewrite list_lookup_middle by done. simpl. f_equal.
  specialize (IH (l1 ++ [x])). rewrite length_app in IH. simpl in IH.
  rewrite <- app_assoc in IH. simpl in IH.
  by rewrite Nat.add_1_r in IH.
Qed.

Lemma take_pos_seq {A} (l : list A) : take_pos (seq 0 (length l)) l = l.
Proof. apply (take_pos_seq_from [] l). Qed.

Lemma take_pos_Permutation {A} pos (l : list A) :
  pos ≡ₚ seq 0 (length l) → take_pos pos l ≡ₚ l.
Proof.
  intros H. unfold take_pos. rewrite H.
  by rewrite <- (take_pos_seq l) at 2.
Qed.

Lemma length_dropna_le {A} (v : list (option A)) : (length (dropna v) ≤ length v)%nat.
Proof. induction v as [|[x|] v IH]; simpl; lia. Qed.

Lemma length_dropna_lt {A} (v : list (option A)) :
  None ∈ v → (length (dropna v) < length v)%nat.
Proof.
  induction v as [|[x|] v IH]; intros H.
  - by apply elem_of_nil in H.
  - apply elem_of_cons in H as [H|H]; [done|]. simpl. specialize (IH H). lia.
  - simpl. pose proof (length_dropna_le v). lia.
Qed.

(** ** Unknown strategy and method names *)

(** C4, as stated, fails: an unrecognized strategy gives the dataset back and
    an unrecognized method (here the ['polynomial'] the docstring lists)
    gives the empty mapping; neither call raises. *)
Lemma unknown_option_counterexample :
  ReservoirDataCleaner.handle_missing_values cleaner_sample "mean" = Ok cleaner_sample
  ∧ ExploratoryAnalyzer.trend_analysis cleaner_sample "embalse_porcentaje" "polynomial" = Ok ∅
  ∧ ¬ (∃ e, ReservoirDataCleaner.handle_missing_values cleaner_sample "mean" = Err e)
  ∧ ¬ (∃ e, ExploratoryAnalyzer.trend_analysis cleaner_sample "embalse_porcentaje" "polynomial"
            = Err e).
Proof.
  assert (H1 : ReservoirDataCleaner.handle_missing_values cleaner_sample "mean"
               = Ok cleaner_sample) by reflexivity.
  assert (H2 : ExploratoryAnalyzer.trend_analysis cleaner_sample "embalse_porcentaje"
                 "polynomial" = Ok ∅) by (vm_compute; reflexivity).
  repeat split; try done.
  - intros [e He]. by rewrite H1 in He.
  - intros [e He]. by rewrite H2 in He.
Qed.

(** C4 (amended): for every strategy other than ['interpolate'],
    ['forward_fill'] and ['drop'] the missing-value handler returns the
    dataset unchanged, and for every method other than ['linear'] and
    ['mann_kendall'] the trend analysis of a dataset with a date column
    returns the empty mapping. *)
Theorem unknown_option_is_ignored
    (df : DataFrame) (variable strategy method : string) :
  strategy ∉ ["interpolate"; "forward_fill"; "drop"]%string →
  method ∉ ["linear"; "mann_kendall"]%string →
  ReservoirDataCleaner.handle_missing_values df strategy = Ok df
  ∧ ∀ dates, columns df !! "date" = Some (Datetime64 dates) →
      ExploratoryAnalyzer.trend_analysis df variable method = Ok ∅.
Proof.
  intros Hs Hm. split.
  - unfold ReservoirDataCleaner.handle_missing_values.
    repeat case_bool_decide; subst; try done; exfalso; apply Hs; set_solver.
  - intros dates Hdate. unfold ExploratoryAnalyzer.trend_analysis.
    rewrite (sort_values_one _ _ _ Hdate). simpl.
    rewrite (getitem_frame_rows _ _ _ _ Hdate). simpl.
    repeat case_bool_decide; subst; try done; exfalso; apply Hm; set_solver.
Qed.

Lemma unknown_option_is_ignored_witness :
  ReservoirDataCleaner.handle_missing_values cleaner_sample "mean" = Ok cleaner_sample
  ∧ ∀ dates, columns cleaner_sample !! "date" = Some (Datetime64 dates) →
      ExploratoryAnalyzer.trend_analysis cleaner_sample "embalse_porcentaje" "polynomial"
      = Ok ∅.
Proof.
  apply (unknown_option_is_ignored cleaner_sample "embalse_porcentaje" "mean" "polynomial").
  - intros H. apply list_elem_of_In in H. simpl in H. intuition discriminate.
  - intros H. apply list_elem_of_In in H. simpl in H. intuition discriminate.
Defined.

(** ** Linear trend *)

Lemma getitem_setitem_eq df col c : getitem (setitem df col c) col = Ok c.
Proof. unfold getitem, setitem. simpl. by rewrite lookup_insert_eq. Qed.

Lemma getitem_setitem_ne df col col' c :
  col ≠ col' → getitem (setitem df col c) col' = getitem df col'.
Proof. intros H. unfold getitem, setitem. simpl. by rewrite lookup_insert_ne. Qed.

Lemma linregress_length_mismatch x y :
  length x ≠ length y → ExploratoryAnalyzer.linregress x y = Err ValueError.
Proof.
  intros H. unfold ExploratoryAnalyzer.linregress.
  destruct (_ || _); [done|].
  apply Nat.eqb_neq in H. by rewrite H.
Qed.

(** C9, on the code: whenever the target variable has a missing value the
    linear method raises.  The regression is given every row's elapsed-days
    coordinate but only the non-missing values, two samples of different
    lengths, instead of the coordinates of the retained rows. *)
Theorem trend_linear_missing_values_raises
    (data : DataFrame) (variable : string) (dates : list (option Z)) (y : list (option Q)) :
  columns data !! "date" = Some (Datetime64 dates) →
  columns data !! variable = Some (Float64 y) →
  variable ≠ "time_index"%string →
  length dates = nrows data →
  length y = nrows data →
  None ∈ y →
  ExploratoryAnalyzer.trend_analysis data variable "linear" = Err ValueError.
Proof.
  intros Hdate Hvar Hne Hld Hly Hnone.
  unfold ExploratoryAnalyzer.trend_analysis.
  rewrite (sort_values_one _ _ _ Hdate). simpl.
  rewrite (getitem_frame_rows _ _ _ _ Hdate). simpl.
  rewrite getitem_setitem_eq. simpl.
  rewrite getitem_setitem_ne by done.
  rewrite (getitem_frame_rows _ _ _ _ Hvar). simpl.
  set (pos := argsort (nrows data) _).
  assert (Hy : take_pos pos y ≡ₚ y).
  { apply take_pos_Permutation. rewrite Hly. apply argsort_Permutation. }
  assert (Hd : take_pos pos dates ≡ₚ dates).
  { apply take_pos_Permutation. rewrite Hld. apply argsort_Permutation. }
  rewrite linregress_length_mismatch; [done|].
  unfold ExploratoryAnalyzer.time_index.
  rewrite !length_fmap, (Permutation_length Hd).
  assert (None ∈ take_pos pos y) by by rewrite Hy.
  pose proof (length_dropna_lt _ H) as Hlt.
  rewrite (Permutation_length Hy) in Hlt. lia.
Qed.

Lemma trend_linear_missing_values_raises_witness :
  ExploratoryAnalyzer.trend_analysis gap_sample "embalse_porcentaje" "linear" = Err ValueError.
Proof.
  apply (trend_linear_missing_values_raises gap_sample "embalse_porcentaje"
           [Some (midnight 18262); Some (midnight 18263); Some (midnight 18264)]
           [Some 1%Q; None; Some 3%Q]).
  - reflexivity.
  - reflexivity.
  - discriminate.
  - reflexivity.
  - reflexivity.
  - right. left.
Defined.

(** ** Mann-Kendall *)

Lemma foldl_add_sum_Z {A} (f : A → Z) l acc :
  foldl (λ S a, S + f a) acc l = acc + sum_Z (f <$> l).
Proof.
  unfold sum_Z. revert acc.
  induction l as [|a l IH]; intros acc; simpl; [lia|].
  rewrite IH. symmetry. apply Z.add_assoc.
Qed.

Lemma foldl_step_sum_Z {A} (body : Z → A → Z) (g : A → Z) l acc :
  (∀ S a, body S a = S + g a) →
  foldl body acc l = acc + sum_Z (g <$> l).
Proof.
  intros Hbody. rewrite <- foldl_add_sum_Z. revert acc.
  induction l as [|a l IH]; intros acc; simpl; [done|].
  by rewrite Hbody, IH.
Qed.

Lemma sum_Z_app l1 l2 : sum_Z (l1 ++ l2) = sum_Z l1 + sum_Z l2.
Proof. unfold sum_Z. induction l1 as [|a l1 IH]; simpl; lia. Qed.

Lemma sum_Z_bind {A B} (f : B → Z) (g : A → list B) l :
  sum_Z (f <$> (l ≫= g)) = sum_Z ((λ a, sum_Z (f <$> g a)) <$> l).
Proof.
  induction l as [|a l IH]; csimpl; [done|].
  rewrite fmap_app, sum_Z_app, IH. done.
Qed.

(** The positions after [i] among the first [n]: the range of the inner loop. *)
Lemma pairs_after_range (i n : nat) :
  (j ← seq 0 n; if bool_decide (i < j)%nat then [(i, j)] else [])
  = (λ j, (i, j)) <$> seq (i + 1) (n - (i + 1)).
Proof.
  induction n as [|n IH]; [done|].
  rewrite seq_S, bind_app, IH. csimpl.
  destruct (decide (i < n)%nat) as [Hlt|Hge].
  - rewrite bool_decide_eq_true_2 by done. csimpl.
    replace (S n - (i + 1))%nat with (S (n - (i + 1))) by lia.
    rewrite seq_S, fmap_app. csimpl. do 3 f_equal. lia.
  - rewrite bool_decide_eq_false_2 by done. csimpl.
    replace (S n - (i + 1))%nat with 0%nat by lia.
    replace (n - (i + 1))%nat with 0%nat by lia. done.
Qed.

(** The double loop computes the sum over all pairs [i < j]. *)
Lemma mann_kendall_S_sum_sign_pairs values :
  ExploratoryAnalyzer.mann_kendall_S values = sum_sign_pairs values.
Proof.
  unfold ExploratoryAnalyzer.mann_kendall_S, sum_sign_pairs, pairs_before.
  set (n := length values).
  set (f := λ i j : nat, ExploratoryAnalyzer.sign (nth j values 0 - nth i values 0)%Q).
  rewrite (sum_Z_bind _ _ (seq 0 n)).
  transitivity (sum_Z ((λ i, sum_Z (f i <$> seq (i + 1) (n - (i + 1)))) <$> seq 0 (n - 1))).
  - rewrite (foldl_step_sum_Z _ (λ i, sum_Z (f i <$> seq (i + 1) (n - (i + 1))))); [done|].
    intros S i. apply foldl_add_sum_Z.
  - transitivity (sum_Z ((λ i, sum_Z (f i <$> seq (i + 1) (n - (i + 1)))) <$> seq 0 n)).
    + destruct n as [|m]; [done|].
      replace (S m - 1)%nat with m by lia.
      rewrite (seq_S m 0), fmap_app, sum_Z_app. csimpl.
      replace (S m - (m + 1))%nat with 0%nat by lia. simpl. lia.
    + f_equal. apply list_fmap_ext. intros _ i _.
      rewrite pairs_after_range, <- list_fmap_compose. done.
Qed.

(** C5: with the Mann-Kendall method, on the series [x] of the non-missing
    values of the variable in date order, of length [n], the analyzer
    returns [S = Σ_{i<j} sign(x_j − x_i)]; with the untied variance
    [n(n-1)(2n+5)/18] it returns [Z = (S-1)/sqrt(Var)] when [S > 0],
    [(S+1)/sqrt(Var)] when [S < 0] and [0] when [S = 0]; the trend is
    ['increasing'] iff [S > 0], ['decreasing'] iff [S < 0], and ['no trend']
    otherwise.  For the values 1, 2, 3, 4, 5 it returns [S = 10] and
    ['increasing']. *)
Theorem mann_kendall_statistic
    (data : DataFrame) (variable : string) (dates : list (option Z)) (y : list (option Q)) :
  columns data !! "date" = Some (Datetime64 dates) →
  columns data !! variable = Some (Float64 y) →
  variable ≠ "time_index"%string →
  (∃ sorted ys results z trend,
     sort_values data ["date"] = Ok sorted
     ∧ (∃ pos, sorted = frame_rows (λ A, take_pos pos) data
               ∧ pos ≡ₚ seq 0 (nrows data)
               ∧ Sorted (λ i j, keys_leb (row_key [cells (Datetime64 dates)] i)
                                         (row_key [cells (Datetime64 dates)] j) = true) pos)
     ∧ columns sorted !! variable = Some (Float64 ys)
     ∧ ExploratoryAnalyzer.trend_analysis data variable "mann_kendall" = Ok results
     ∧ let x := dropna ys in
       let n := inject_Z (Z.of_nat (length x)) in
       let S := sum_sign_pairs x in
       let var_s := (n * (n - 1) * (2 * n + 5) / 18)%Q in
       results !! "S_statistic" = Some (ExploratoryAnalyzer.VFloat (Some (inject_Z S)))
       ∧ results !! "Z_statistic" = Some z
       ∧ (0 < S → z = ExploratoryAnalyzer.VDivSqrt (inject_Z (S - 1)) var_s)
       ∧ (S < 0 → z = ExploratoryAnalyzer.VDivSqrt (inject_Z (S + 1)) var_s)
       ∧ (S = 0 → z = ExploratoryAnalyzer.VFloat (Some 0%Q))
       ∧ results !! "p_value" = Some (ExploratoryAnalyzer.VNormTwoTail z)
       ∧ results !! "trend" = Some (ExploratoryAnalyzer.VStr trend)
       ∧ (trend = "increasing"%string ↔ 0 < S)
       ∧ (trend = "decreasing"%string ↔ S < 0)
       ∧ (trend = "no trend"%string ↔ S = 0))
  ∧ ∃ results,
      ExploratoryAnalyzer.trend_analysis increasing_sample "embalse_porcentaje" "mann_kendall"
      = Ok results
      ∧ results !! "S_statistic" = Some (ExploratoryAnalyzer.VFloat (Some 10%Q))
      ∧ results !! "trend" = Some (ExploratoryAnalyzer.VStr "increasing").
Proof.
  intros Hdate Hvar Hne. split.
  - unfold ExploratoryAnalyzer.trend_analysis.
    rewrite (sort_values_one _ _ _ Hdate). simpl.
    rewrite (getitem_frame_rows _ _ _ _ Hdate). simpl.
    rewrite getitem_setitem_ne by done.
    rewrite (getitem_frame_rows _ _ _ _ Hvar). simpl.
    set (ys := take_pos _ y).
    rewrite mann_kendall_S_sum_sign_pairs.
    set (S := sum_sign_pairs (dropna ys)).
    assert (Hys : columns (frame_rows (λ A, take_pos (argsort (nrows data)
                     [cells (Datetime64 dates)])) data) !! variable = Some (Float64 ys)).
    { simpl. by rewrite lookup_fmap, Hvar. }
    unfold ExploratoryAnalyzer.mann_kendall_Z, ExploratoryAnalyzer.mann_kendall_trend.
    destruct (Z.ltb_spec 0 S) as [Hpos|Hnpos]; [|destruct (Z.ltb_spec S 0) as [Hneg|Hnneg]];
      (eexists _, ys, _, _, _; split; [reflexivity|];
       split; [eexists; split; [reflexivity|];
               split; [apply argsort_Permutation
                      |apply (argsort_Sorted (nrows data) [cells (Datetime64 dates)])]|];
       split; [exact Hys|];
       split; [reflexivity|]; simpl;
       repeat split; try done; try lia).
  - eexists. split; [vm_compute; reflexivity|]. split; vm_compute; reflexivity.
Qed.

Lemma mann_kendall_statistic_witness :
  ∃ results,
    ExploratoryAnalyzer.trend_analysis increasing_sample "embalse_porcentaje" "mann_kendall"
    = Ok results
    ∧ results !! "S_statistic" = Some (ExploratoryAnalyzer.VFloat (Some 10%Q))
    ∧ results !! "trend" = Some (ExploratoryAnalyzer.VStr "increasing").
Proof.
  apply (mann_kendall_statistic increasing_sample "embalse_porcentaje" five_days
           [Some 1%Q; Some 2%Q; Some 3%Q; Some 4%Q; Some 5%Q]).
  - reflexivity.
  - reflexivity.
  - discriminate.
Defined.

(** ** Rounding *)

Lemma rint_proper x y : (x == y)%Q → ReservoirDataCleaner.rint x = ReservoirDataCleaner.rint y.
Proof.
  intros H. unfold ReservoirDataCleaner.rint.
  rewrite (Qfloor_comp _ _ H).
  assert (Hc : (x - inject_Z (Qfloor y) ?= 1 # 2)%Q = (y - inject_Z (Qfloor y) ?= 1 # 2)%Q).
  { apply Qcompare_comp; [by rewrite H | reflexivity]. }
  by rewrite Hc.
Qed.

Lemma rint_inject_Z k : ReservoirDataCleaner.rint (inject_Z k) = k.
Proof.
  unfold ReservoirDataCleaner.rint. rewrite Qfloor_Z.
  assert (Hc : (inject_Z k - inject_Z k ?= 1 # 2)%Q = Lt).
  { unfold Qcompare, Qminus, Qplus, Qopp, inject_Z. simpl.
    apply Z.compare_lt_iff. lia. }
  by rewrite Hc.
Qed.

Lemma round_float_idempotent d x :
  ReservoirDataCleaner.round_float d (ReservoirDataCleaner.round_float d x)
  = ReservoirDataCleaner.round_float d x.
Proof.
  unfold ReservoirDataCleaner.round_float at 1 3.
  set (p := (10 ^ Pos.of_nat d)%positive).
  set (k := ReservoirDataCleaner.rint (x * inject_Z (Z.pos p))).
  f_equal.
  assert (H : (ReservoirDataCleaner.round_float d x * inject_Z (Z.pos p) == inject_Z k)%Q).
  { unfold ReservoirDataCleaner.round_float. fold p. fold k.
    unfold Qeq, Qmult, inject_Z. simpl. rewrite Pos.mul_1_r. lia. }
  rewrite (rint_proper _ _ H). apply rint_inject_Z.
Qed.

Lemma round_series_idempotent d c :
  ReservoirDataCleaner.round_series d (ReservoirDataCleaner.round_series d c)
  = ReservoirDataCleaner.round_series d c.
Proof.
  destruct c as [v|v|v]; simpl; try done. f_equal.
  rewrite <- list_fmap_compose. apply list_fmap_ext. intros _ [q|] _; simpl; [|done].
  by rewrite round_float_idempotent.
Qed.

Section CleaningProperties.
Context (parse_float : string → option Q).

Lemma to_numeric_float c :
  ∃ v, ReservoirDataCleaner.to_numeric parse_float c = Float64 v.
Proof. destruct c; simpl; eauto. Qed.

Lemma clean_series_idempotent col c :
  clean_series parse_float col (clean_series parse_float col c) = clean_series parse_float col c.
Proof.
  unfold clean_series.
  destruct (to_numeric_float c) as [v ->].
  destruct (ReservoirDataCleaner.precision col) as [d|]; simpl; [|done].
  f_equal. rewrite <- list_fmap_compose. apply list_fmap_ext.
  intros _ [q|] _; simpl; [|done]. by rewrite round_float_idempotent.
Qed.

Lemma clean_column_index df col :
  index (ReservoirDataCleaner.clean_column parse_float df col) = index df.
Proof.
  unfold ReservoirDataCleaner.clean_column.
  destruct (columns df !! col); [|done]. simpl.
  rewrite lookup_insert_eq. by destruct (ReservoirDataCleaner.precision col).
Qed.

Lemma clean_column_lookup df col k :
  columns (ReservoirDataCleaner.clean_column parse_float df col) !! k
  = if decide (k = col) then clean_series parse_float col <$> columns df !! col
    else columns df !! k.
Proof.
  unfold ReservoirDataCleaner.clean_column, clean_series.
  destruct (columns df !! col) as [c|] eqn:E; simpl.
  - rewrite lookup_insert_eq.
    destruct (ReservoirDataCleaner.precision col) as [d|]; simpl.
    + rewrite insert_insert_eq, lookup_insert. by repeat case_decide; subst.
    + rewrite lookup_insert. by repeat case_decide; subst.
  - case_decide; by subst.
Qed.

Lemma clean_columns_index l df :
  index (foldl (ReservoirDataCleaner.clean_column parse_float) df l) = index df.
Proof.
  revert df. induction l as [|a l IH]; intros df; simpl; [done|].
  by rewrite IH, clean_column_index.
Qed.

Lemma clean_columns_lookup l df k :
  columns (foldl (ReservoirDataCleaner.clean_column parse_float) df l) !! k
  = if decide (k ∈ l) then clean_series parse_float k <$> columns df !! k else columns df !! k.
Proof.
  revert df. induction l as [|a l IH]; intros df; cbn [foldl].
  - destruct (decide (k ∈ [])) as [H|H]; [by apply elem_of_nil in H | done].
  - rewrite IH, clean_column_lookup.
    destruct (decide (k = a)) as [->|Hne].
    + rewrite (decide_True (P := a ∈ a :: l)) by left.
      destruct (decide (a ∈ l)); [|done].
      destruct (columns df !! a); simpl; [|done]. by rewrite clean_series_idempotent.
    + destruct (decide (k ∈ l)) as [Hin|Hnin].
      * by rewrite (decide_True (P := k ∈ a :: l)) by by right.
      * rewrite (decide_False (P := k ∈ a :: l)); [done|].
        intros H. apply elem_of_cons in H as [?|?]; done.
Qed.


End CleaningProperties.


(** ** Duplicate removal *)

Lemma length_select {A B} (mask : list bool) (l1 : list A) (l2 : list B) :
  length l1 = length l2 → length (select mask l1) = length (select mask l2).
Proof.
  revert l1 l2. induction mask as [|b mask IH]; intros [|x l1] [|y l2] H; simpl in *;
    try done.
  injection H as H. destruct b; simpl; auto.
Qed.

Lemma select_fmap {A B} (f : A → B) mask (l : list A) :
  select mask (f <$> l) = f <$> select mask l.
Proof.
  revert l. induction mask as [|b mask IH]; intros [|x l]; simpl; try done.
  destruct b; simpl; by rewrite IH.
Qed.

Lemma nrows_getitem_mask df mask :
  nrows (getitem_mask df mask) = length (select mask (index_tolist (index df))).
Proof.
  unfold nrows, getitem_mask. simpl.
  destruct (index df); simpl; by rewrite select_fmap.
Qed.

Lemma length_duplicated_from {K} `{EqDecision K} (seen keys : list K) :
  length (ReservoirDataCleaner.duplicated_from seen keys) = length keys.
Proof.
  revert seen. induction keys as [|k keys IH]; intros seen; simpl; [done|].
  by rewrite IH.
Qed.

(** A row is marked as a duplicate exactly when its key was seen before. *)
Lemma duplicated_from_lookup {K} `{EqDecision K} (keys : list K) :
  ∀ seen i k, keys !! i = Some k →
    ∃ b, ReservoirDataCleaner.duplicated_from seen keys !! i = Some b
         ∧ (b = true ↔ k ∈ seen ∨ ∃ j, (j < i)%nat ∧ keys !! j = Some k).
Proof.
  induction keys as [|a keys IH]; intros seen i k Hi; [done|].
  destruct i as [|i]; simpl in *.
  - injection Hi as ->. eexists. split; [done|].
    rewrite bool_decide_eq_true. split; [by left|].
    intros [?|(j & ? & ?)]; [done|lia].
  - destruct (IH (a :: seen) i k Hi) as (b & Hb & Hiff).
    exists b. split; [done|]. rewrite Hiff. split.
    + intros [Hin|(j & Hj & Hk)].
      * apply elem_of_cons in Hin as [->|Hin]; [|by left].
        right. exists 0%nat. split; [lia|done].
      * right. exists (S j). split; [lia|done].
    + intros [Hin|(j & Hj & Hk)].
      * left. by right.
      * destruct j as [|j]; simpl in Hk.
        -- injection Hk as ->. left. by left.
        -- right. exists j. split; [lia|done].
Qed.

(** The keys that survive: each key of the input, once. *)
Lemma select_first_occurrences {K} `{EqDecision K} (keys : list K) :
  ∀ seen,
    let kept := select (negb <$> ReservoirDataCleaner.duplicated_from seen keys) keys in
    NoDup kept
    ∧ (∀ k, k ∈ kept ↔ k ∈ keys ∧ k ∉ seen).
Proof.
  induction keys as [|a keys IH]; intros seen; simpl.
  - split; [constructor|]. intros k. split; [by intros ?%elem_of_nil|].
    by intros [?%elem_of_nil _].
  - destruct (IH (a :: seen)) as [Hnd Hin]. simpl in Hnd, Hin.
    case_bool_decide as Ha; simpl.
    + split; [done|]. intros k. rewrite Hin. split.
      * intros [Hk Hns]. split; [by right|]. intros ?. apply Hns. by right.
      * intros [Hk Hns]. apply elem_of_cons in Hk as [->|Hk]; [done|].
        split; [done|]. intros [->|?]%elem_of_cons; done.
    + split.
      * constructor; [|done]. rewrite Hin. intros [_ Hns]. apply Hns. by left.
      * intros k. rewrite elem_of_cons, Hin. split.
        -- intros [->|[Hk Hns]]; [split; [by left|done]|].
           split; [by right|]. intros ?. apply Hns. by right.
        -- intros [Hk Hns]. apply elem_of_cons in Hk as [->|Hk]; [by left|].
           destruct (decide (k = a)) as [->|Hne]; [by left|].
           right. split; [done|]. intros [->|?]%elem_of_cons; done.
Qed.

Lemma occurrences_cons {K} `{EqDecision K} (k a : K) keys :
  occurrences k (a :: keys)
  = ((if decide (a = k) then 1 else 0) + occurrences k keys)%nat.
Proof.
  unfold occurrences. rewrite filter_cons. by case_decide.
Qed.

Lemma occurrences_pos {K} `{EqDecision K} (k : K) keys :
  k ∈ keys → (1 ≤ occurrences k keys)%nat.
Proof.
  induction keys as [|a keys IH]; intros Hin; [by apply elem_of_nil in Hin|].
  rewrite occurrences_cons. case_decide; [lia|].
  apply elem_of_cons in Hin as [->|Hin]; [done|]. specialize (IH Hin). lia.
Qed.

Lemma sum_indicator_NoDup {K} `{EqDecision K} (a : K) (d : list K) :
  NoDup d →
  sum_nat ((λ k, if decide (a = k) then 1 else 0)%nat <$> d)
  = (if decide (a ∈ d) then 1 else 0)%nat.
Proof.
  induction 1 as [|x d Hx Hnd IH]; csimpl.
  - destruct (decide (a ∈ [])) as [Hin|]; [by apply elem_of_nil in Hin | done].
  - unfold sum_nat in *. cbn [foldr]. rewrite IH.
    destruct (decide (a = x)) as [->|Hne].
    + rewrite (decide_False (P := x ∈ d)) by done.
      by rewrite (decide_True (P := x ∈ x :: d)) by left.
    + destruct (decide (a ∈ d)) as [Hin|Hnin].
      * by rewrite (decide_True (P := a ∈ x :: d)) by by right.
      * rewrite (decide_False (P := a ∈ x :: d)); [done|].
        intros [?|?]%elem_of_cons; done.
Qed.

Lemma sum_nat_add {A} (f g : A → nat) (l : list A) :
  sum_nat ((λ a, f a + g a)%nat <$> l) = (sum_nat (f <$> l) + sum_nat (g <$> l))%nat.
Proof. unfold sum_nat. induction l as [|a l IH]; csimpl; [done|]. rewrite IH. lia. Qed.

(** Summed over the distinct keys, the occurrences count every row once. *)
Lemma sum_occurrences {K} `{EqDecision K} (d keys : list K) :
  NoDup d → (∀ k, k ∈ keys → k ∈ d) →
  sum_nat ((λ k, occurrences k keys) <$> d) = length keys.
Proof.
  intros Hnd. induction keys as [|a keys IH]; intros Hsub.
  - unfold occurrences. simpl. induction d as [|x d IHd]; simpl; [done|].
    apply IHd; [by inversion Hnd|]. by intros k ?%elem_of_nil.
  - erewrite list_fmap_ext; [|intros _ k _; apply (occurrences_cons k a keys)].
    rewrite (sum_nat_add (λ k, if decide (a = k) then 1 else 0)%nat).
    rewrite sum_indicator_NoDup by done.
    rewrite decide_True by (apply Hsub; by left).
    rewrite IH; [done|]. intros k Hk. apply Hsub. by right.
Qed.

Lemma sum_duplicates_beyond_first {K} `{EqDecision K} (d keys : list K) :
  NoDup d → (∀ k, k ∈ d ↔ k ∈ keys) →
  (length d + sum_nat ((λ k, occurrences k keys - 1) <$> d) = length keys)%nat.
Proof.
  intros Hnd Hiff.
  rewrite <- (sum_occurrences d keys Hnd) by (intros k; apply Hiff).
  assert (Hpos : Forall (λ k, 1 ≤ occurrences k keys)%nat d).
  { apply Forall_forall. intros k Hk. by apply occurrences_pos, Hiff. }
  clear Hnd Hiff. unfold sum_nat.
  induction Hpos as [|k d Hk _ IH]; csimpl; [done|]. lia.
Qed.

(** C7: on a dataset with (entity, date) keys, duplicate removal keeps the
    rows selected by a mask, each with its values and in input order; a row
    is kept exactly when no earlier row has its key, so the first occurrence
    of each key stays and all later ones go; the output has every key once,
    and its row count is the input's minus, per key, the occurrences beyond
    the first. *)
Theorem remove_duplicates_keeps_first (df : DataFrame) (date codigo : Column) :
  columns df !! "date" = Some date →
  columns df !! "embalse_codigo" = Some codigo →
  frame_wf df →
  let keys := zip (cells date) (cells codigo) in
  ∃ df' printed mask,
    ReservoirDataCleaner.remove_duplicates df = Ok (df', printed)
    ∧ df' = getitem_mask df mask
    ∧ length mask = nrows df
    ∧ (∀ i k, keys !! i = Some k →
         (mask !! i = Some true ↔ ∀ j, (j < i)%nat → keys !! j ≠ Some k))
    ∧ (∀ i k, keys !! i = Some k →
         (mask !! i = Some false ↔ ∃ j, (j < i)%nat ∧ keys !! j = Some k))
    ∧ let keys' := select mask keys in
      NoDup keys'
      ∧ (∀ k, k ∈ keys' ↔ k ∈ keys)
      ∧ (nrows df' + sum_nat ((λ k, occurrences k keys - 1) <$> keys') = nrows df)%nat.
Proof.
  intros Hdate Hcod Hwf keys.
  unfold ReservoirDataCleaner.remove_duplicates.
  rewrite (getitem_lookup _ _ _ Hdate), (getitem_lookup _ _ _ Hcod). simpl.
  fold keys. unfold ReservoirDataCleaner.duplicated.
  set (mask := negb <$> ReservoirDataCleaner.duplicated_from [] keys).
  assert (Hlk : length keys = nrows df).
  { unfold keys. rewrite length_zip_with.
    pose proof (Hwf _ _ Hdate) as H1. pose proof (Hwf _ _ Hcod) as H2.
    unfold column_length in *. simpl in *. lia. }
  assert (Hlm : length mask = length keys).
  { unfold mask. by rewrite length_fmap, length_duplicated_from. }
  assert (Hlookup : ∀ i k, keys !! i = Some k →
            ∃ b, mask !! i = Some (negb b)
                 ∧ (b = true ↔ ∃ j, (j < i)%nat ∧ keys !! j = Some k)).
  { intros i k Hi.
    destruct (duplicated_from_lookup keys [] i k Hi) as (b & Hb & Hiff).
    exists b. split; [unfold mask; by rewrite list_lookup_fmap, Hb|].
    rewrite Hiff. split; [|by right]. intros [?%elem_of_nil|?]; done. }
  destruct (select_first_occurrences keys []) as [Hnd Hin]. simpl in Hnd, Hin.
  fold mask in Hnd, Hin.
  eexists _, _, mask. split; [reflexivity|]. split; [done|].
  split; [lia|]. split; [|split; [|split; [done|split]]].
  - intros i k Hi. destruct (Hlookup i k Hi) as (b & -> & Hiff). split.
    + intros Hb j Hj Hk. destruct b; [done|].
      assert (false = true); [|done]. apply Hiff. eauto.
    + intros Hno. destruct b; [|done].
      destruct (proj1 Hiff eq_refl) as (j & Hj & Hk). by destruct (Hno j Hj).
  - intros i k Hi. destruct (Hlookup i k Hi) as (b & -> & Hiff). split.
    + intros Hb. apply Hiff. by destruct b.
    + intros Hex. by rewrite (proj2 Hiff Hex).
  - intros k. rewrite Hin. split; [by intros [? _]|].
    intros Hk. split; [done|]. by intros ?%elem_of_nil.
  - rewrite nrows_getitem_mask.
    rewrite (length_select mask _ keys) by (unfold nrows in Hlk; lia).
    rewrite <- Hlk. apply sum_duplicates_beyond_first; [done|].
    intros k. rewrite Hin. split; [by intros [? _]|].
    intros Hk. split; [done|]. by intros ?%elem_of_nil.
Qed.

Lemma remove_duplicates_keeps_first_witness :
  let keys := zip (cells (Datetime64 (replicate 4 (Some (midnight 18262)))))
                  (cells (Object [Some "S19"; Some "S19"; Some "S20"; Some "S19"]%string)) in
  ∃ df' printed mask,
    ReservoirDataCleaner.remove_duplicates duplicate_sample = Ok (df', printed)
    ∧ df' = getitem_mask duplicate_sample mask
    ∧ length mask = nrows duplicate_sample
    ∧ (∀ i k, keys !! i = Some k →
         (mask !! i = Some true ↔ ∀ j, (j < i)%nat → keys !! j ≠ Some k))
    ∧ (∀ i k, keys !! i = Some k →
         (mask !! i = Some false ↔ ∃ j, (j < i)%nat ∧ keys !! j = Some k))
    ∧ let keys' := select mask keys in
      NoDup keys'
      ∧ (∀ k, k ∈ keys' ↔ k ∈ keys)
      ∧ (nrows df' + sum_nat ((λ k, occurrences k keys - 1) <$> keys')
         = nrows duplicate_sample)%nat.
Proof.
  apply (remove_duplicates_keeps_first duplicate_sample).
  - reflexivity.
  - reflexivity.
  - apply (bool_decide_unpack _). vm_compute. reflexivity.
Defined.

(** ** Extreme jumps *)

Lemma last_of_Some k seen pv : last_of k seen = Some pv → (k, pv) ∈ seen.
Proof.
  unfold last_of.
  destruct (list_find _ seen) as [[i [k' v]]|] eqn:E; simpl; [|done].
  intros [= <-]. apply list_find_Some in E as (Hl & Hk & _). simpl in Hk. subst.
  by eapply list_elem_of_lookup_2.
Qed.

(** A difference within a group is defined only on a row that has an earlier
    row of its own group. *)
Lemma group_diff_defined rows :
  ∀ seen i d, group_diff seen rows !! i = Some (Some d) →
    ∃ k v, rows !! i = Some (Some k, v)
           ∧ (k ∈ seen.*1 ∨ ∃ j v', (j < i)%nat ∧ rows !! j = Some (Some k, v')).
Proof.
  induction rows as [|[[k|] v] rows IH]; intros seen i d Hd; [done| |].
  - destruct i as [|i]; simpl in Hd.
    + exists k, v. split; [done|]. left.
      destruct (last_of k seen) as [pv|] eqn:E; [|done].
      apply last_of_Some in E. by apply (list_elem_of_fmap_2 fst) in E.
    + destruct (IH _ _ _ Hd) as (k' & v' & Hi & Hprev).
      exists k', v'. split; [done|].
      destruct Hprev as [Hin|(j & w & Hj & Hk)].
      * simpl in Hin. apply elem_of_cons in Hin as [->|Hin]; [|by left].
        right. exists 0%nat, v. split; [lia|done].
      * right. exists (S j), w. split; [lia|done].
  - destruct i as [|i]; simpl in Hd; [done|].
    destruct (IH _ _ _ Hd) as (k' & v' & Hi & Hprev).
    exists k', v'. split; [done|].
    destruct Hprev as [Hin|(j & w & Hj & Hk)]; [by left|].
    right. exists (S j), w. split; [lia|done].
Qed.

Lemma Qltb_lt x y : Qltb x y = true ↔ (x < y)%Q.
Proof.
  unfold Qltb. rewrite Qlt_alt. by destruct (x ?= y)%Q.
Qed.

Lemma gt_opt_true x c : gt_opt x c = true ↔ ∃ a b, x = Some a ∧ c = Some b ∧ (b < a)%Q.
Proof.
  destruct x as [a|], c as [b|]; simpl; try rewrite Qltb_lt; split;
    try done; try (by intros (? & ? & ? & ? & ?)).
  - intros H. by exists a, b.
  - by intros (? & ? & [= <-] & [= <-] & ?).
Qed.

(** Whatever the check returns, its extreme-jump list holds rows that have an
    earlier row of their entity. *)
Lemma check_reservoir_consistency_flagged (df : DataFrame) (r : gmap string (list Label)) :
  DataValidator.check_reservoir_consistency df = Ok r →
  ∃ df_sorted codigo change mask,
    sort_values df ["embalse_codigo"; "date"] = Ok df_sorted
    ∧ columns df_sorted !! "embalse_codigo" = Some codigo
    ∧ groupby_diff df_sorted "embalse_codigo" "embalse_porcentaje" = Ok change
    ∧ r !! "extreme_percentage_changes" = Some (select mask (index_tolist (index df_sorted)))
    ∧ (∀ i, mask !! i = Some true →
         (∃ d, change !! i = Some (Some d) ∧ (20 < Qabs d)%Q)
         ∧ ∃ j entity, (j < i)%nat
             ∧ cells codigo !! i = Some (Some entity)
             ∧ cells codigo !! j = Some (Some entity))
    ∧ (∀ i entity, cells codigo !! i = Some (Some entity) →
         (∀ j, (j < i)%nat → cells codigo !! j ≠ Some (Some entity)) →
         (∀ d, change !! i ≠ Some (Some d)) ∧ mask !! i ≠ Some true).
Proof.
  unfold DataValidator.check_reservoir_consistency. intros H.
  destruct (getitem df "embalse_porcentaje") as [pct|] eqn:Epct; [|done]. simpl in H.
  destruct (series_lt_scalar pct 0) as [below|] eqn:Eb; [|done]. simpl in H.
  destruct (series_gt_scalar pct 100) as [above|] eqn:Ea; [|done]. simpl in H.
  destruct (sort_values df _) as [df_sorted|] eqn:Es; [|done]. simpl in H.
  destruct (groupby_diff df_sorted _ _) as [change|] eqn:Eg; [|done]. simpl in H.
  rewrite getitem_setitem_eq in H. simpl in H. injection H as <-.
  unfold groupby_diff in Eg.
  destruct (getitem df_sorted "embalse_codigo") as [codigo|] eqn:Ec; [|done]. simpl in Eg.
  destruct (getitem df_sorted "embalse_porcentaje") as [c|] eqn:Ev; [|done]. simpl in Eg.
  destruct (float_values c) as [v|] eqn:Ef; [|done]. simpl in Eg. injection Eg as Eg.
  set (mask := (λ x, gt_opt x (Some 20%Q)) <$> series_abs change).
  assert (Hflag : ∀ i, mask !! i = Some true →
            ∃ d, change !! i = Some (Some d) ∧ (20 < Qabs d)%Q).
  { intros i Hi. unfold mask, series_abs in Hi.
    rewrite !list_lookup_fmap in Hi.
    destruct (change !! i) as [[d|]|] eqn:Ei; simpl in Hi; try done.
    injection Hi as Hi. apply Qltb_lt in Hi. eauto. }
  exists df_sorted, codigo, change, mask.
  split; [done|]. split.
  { unfold getitem in Ec. by destruct (columns df_sorted !! "embalse_codigo"); simplify_eq. }
  split.
  { unfold groupby_diff. rewrite Ec, Ev. simpl. rewrite Ef. simpl. by rewrite Eg. }
  split.
  { rewrite lookup_insert_eq. done. }
  split.
  - intros i Hi. destruct (Hflag i Hi) as (d & Hd & Hlt).
    split; [eauto|].
    rewrite <- Eg in Hd.
    destruct (group_diff_defined _ _ _ _ Hd) as (k & w & Hrow & [Hin|(j & w' & Hj & Hprev)]).
    { by apply elem_of_nil in Hin. }
    exists j, k. split; [done|].
    apply lookup_zip_with_Some in Hrow as (a & b & [= <- <-] & Ha & _).
    apply lookup_zip_with_Some in Hprev as (a' & b' & [= <- <-] & Ha' & _).
    done.
  - intros i entity Hi Hfirst.
    assert (Hnone : ∀ d, change !! i ≠ Some (Some d)).
    { intros d Ei. rewrite <- Eg in Ei.
      destruct (group_diff_defined _ _ _ _ Ei) as (k & w & Hrow & [Hk|(j & w' & Hj & Hprev)]).
      { by apply elem_of_nil in Hk. }
      apply lookup_zip_with_Some in Hrow as (a & b & [= <- <-] & Ha & _).
      apply lookup_zip_with_Some in Hprev as (a' & b' & [= <- <-] & Ha' & _).
      rewrite Hi in Ha. injection Ha as <-. by apply (Hfirst j). }
    split; [done|]. intros Hm. destruct (Hflag i Hm) as (d & Hd & _).
    by apply (Hnone d).
Qed.

Lemma sort_values_two df col1 col2 c1 c2 :
  columns df !! col1 = Some c1 → columns df !! col2 = Some c2 →
  sort_values df [col1; col2]
  = Ok (frame_rows (λ A, take_pos (argsort (nrows df) [cells c1; cells c2])) df).
Proof.
  intros H1 H2. unfold sort_values. simpl.
  by rewrite (getitem_lookup _ _ _ H1), (getitem_lookup _ _ _ H2).
Qed.

(** C10: on every dataset with entity, date and storage-percentage columns
    the check returns, and every row of its extreme-jump list has, in the
    dataset ordered by entity and date, an earlier row of the same entity.
    The flagged rows are those whose day-over-day change exists and exceeds
    20 in absolute value; on the first row of an entity no change exists and
    the row is not flagged. *)
Theorem extreme_jump_has_predecessor
    (df : DataFrame) (pct : list (option Q)) (entity date : Column) :
  columns df !! "embalse_porcentaje" = Some (Float64 pct) →
  columns df !! "embalse_codigo" = Some entity →
  columns df !! "date" = Some date →
  ∃ r df_sorted codigo change mask,
    DataValidator.check_reservoir_consistency df = Ok r
    ∧ sort_values df ["embalse_codigo"; "date"] = Ok df_sorted
    ∧ (∃ pos, df_sorted = frame_rows (λ A, take_pos pos) df
              ∧ pos ≡ₚ seq 0 (nrows df)
              ∧ Sorted (λ i j, keys_leb (row_key [cells entity; cells date] i)
                                        (row_key [cells entity; cells date] j) = true) pos)
    ∧ columns df_sorted !! "embalse_codigo" = Some codigo
    ∧ groupby_diff df_sorted "embalse_codigo" "embalse_porcentaje" = Ok change
    ∧ r !! "extreme_percentage_changes" = Some (select mask (index_tolist (index df_sorted)))
    ∧ (∀ i, mask !! i = Some true →
         (∃ d, change !! i = Some (Some d) ∧ (20 < Qabs d)%Q)
         ∧ ∃ j code, (j < i)%nat
             ∧ cells codigo !! i = Some (Some code)
             ∧ cells codigo !! j = Some (Some code))
    ∧ (∀ i code, cells codigo !! i = Some (Some code) →
         (∀ j, (j < i)%nat → cells codigo !! j ≠ Some (Some code)) →
         (∀ d, change !! i ≠ Some (Some d)) ∧ mask !! i ≠ Some true).
Proof.
  intros Hpct Hcod Hdate.
  assert (∃ r, DataValidator.check_reservoir_consistency df = Ok r) as [r Hr].
  { unfold DataValidator.check_reservoir_consistency.
    rewrite (getitem_lookup _ _ _ Hpct). cbn [bind series_lt_scalar series_gt_scalar float_values].
    rewrite (sort_values_two _ _ _ _ _ Hcod Hdate). cbn [bind].
    unfold groupby_diff.
    rewrite (getitem_frame_rows _ _ _ _ Hcod), (getitem_frame_rows _ _ _ _ Hpct).
    cbn [bind column_rows float_values].
    rewrite getitem_setitem_eq. cbn [bind float_values]. eauto. }
  destruct (check_reservoir_consistency_flagged df r Hr)
    as (s' & c' & ch & m & Hs & H).
  exists r, s', c', ch, m. split; [done|]. split; [done|]. split; [|done].
  rewrite (sort_values_two _ _ _ _ _ Hcod Hdate) in Hs. injection Hs as <-.
  eexists. split; [reflexivity|]. split; [apply argsort_Permutation|apply argsort_Sorted].
Qed.

Lemma extreme_jump_has_predecessor_witness :
  ∃ r df_sorted codigo change mask,
    DataValidator.check_reservoir_consistency jump_sample = Ok r
    ∧ sort_values jump_sample ["embalse_codigo"; "date"] = Ok df_sorted
    ∧ (∃ pos, df_sorted = frame_rows (λ A, take_pos pos) jump_sample
              ∧ pos ≡ₚ seq 0 (nrows jump_sample)
              ∧ Sorted (λ i j,
                   keys_leb
                     (row_key [cells (Object [Some "A"; Some "B"; Some "A"; Some "B"; Some "A"]
                                        %string);
                               cells (Datetime64 five_days)] i)
                     (row_key [cells (Object [Some "A"; Some "B"; Some "A"; Some "B"; Some "A"]
                                        %string);
                               cells (Datetime64 five_days)] j) = true) pos)
    ∧ columns df_sorted !! "embalse_codigo" = Some codigo
    ∧ groupby_diff df_sorted "embalse_codigo" "embalse_porcentaje" = Ok change
    ∧ r !! "extreme_percentage_changes" = Some (select mask (index_tolist (index df_sorted)))
    ∧ (∀ i, mask !! i = Some true →
         (∃ d, change !! i = Some (Some d) ∧ (20 < Qabs d)%Q)
         ∧ ∃ j code, (j < i)%nat
             ∧ cells codigo !! i = Some (Some code)
             ∧ cells codigo !! j = Some (Some code))
    ∧ (∀ i code, cells codigo !! i = Some (Some code) →
         (∀ j, (j < i)%nat → cells codigo !! j ≠ Some (Some code)) →
         (∀ d, change !! i ≠ Some (Some d)) ∧ mask !! i ≠ Some true).
Proof.
  apply (extreme_jump_has_predecessor jump_sample
           [Some 45%Q; Some 50%Q; Some 55%Q; Some 120%Q; Some 60%Q]
           (Object [Some "A"; Some "B"; Some "A"; Some "B"; Some "A"]%string)
           (Datetime64 five_days)).
  - reflexivity.
  - reflexivity.
  - reflexivity.
Defined.

(** ** Sorted series and quantiles *)


Lemma Q_leb_sort_sorted l :
  StronglySorted Qle (Q_leb_sort l).
Proof.
  apply Sorted_StronglySorted; [intros x y z; apply Qle_trans|].
  apply (stable_sort_Sorted Qle_bool).
  - intros x y H. by apply Qle_bool_iff.
  - intros x y H. destruct (Qlt_le_dec y x) as [Hlt|Hle]; [by apply Qlt_le_weak|].
    apply Qle_bool_iff in Hle. congruence.
Qed.

Lemma StronglySorted_nth_le (l : list Q) i j :
  StronglySorted Qle l → (i ≤ j)%nat → (j < length l)%nat →
  (nth i l 0 <= nth j l 0)%Q.
Proof.
  intros Hs. revert i j. induction Hs as [|x l Hs IH Hall]; intros i j Hij Hj; simpl in *.
  - lia.
  - destruct i as [|i], j as [|j]; try lia.
    + apply Qle_refl.
    + rewrite Forall_forall in Hall. apply Hall, list_elem_of_In, nth_In. lia.
    + apply IH; lia.
Qed.

Lemma lerp_between (a b g : Q) :
  (a <= b)%Q → (0 <= g)%Q → (g <= 1)%Q →
  (a <= a + (b - a) * g)%Q ∧ (a + (b - a) * g <= b)%Q.
Proof. intros. split; nra. Qed.

Lemma lerp_monotone (a b g1 g2 : Q) :
  (a <= b)%Q → (g1 <= g2)%Q → (a + (b - a) * g1 <= a + (b - a) * g2)%Q.
Proof. intros. nra. Qed.

(** The quantile of a series does not decrease with the rank asked for. *)
Lemma quantile_monotone v (q1 q2 : Q) :
  (0 <= q1)%Q → (q1 <= q2)%Q → (q2 <= 1)%Q →
  ∃ t1 t2,
    quantile v q1 = Ok t1
    ∧ quantile v q2 = Ok t2
    ∧ ((t1 = None ∧ t2 = None)
       ∨ ∃ a b, t1 = Some a ∧ t2 = Some b ∧ (a <= b)%Q).
Proof.
  intros H0 H12 H1. unfold quantile.
  assert (Hq1 : Qle_bool 0 q1 && Qle_bool q1 1 = true).
  { apply andb_true_iff. split; apply Qle_bool_iff; [done|]. by apply Qle_trans with q2. }
  assert (Hq2 : Qle_bool 0 q2 && Qle_bool q2 1 = true).
  { apply andb_true_iff. split; apply Qle_bool_iff; [|done]. by apply Qle_trans with q1. }
  rewrite Hq1, Hq2. cbn [negb].
  pose proof (Q_leb_sort_sorted (dropna v)) as Hs.
  set (s := Q_leb_sort (dropna v)) in *.
  destruct (Nat.eqb_spec (length s) 0) as [Hn|Hn].
  { eexists _, _. split; [done|]. split; [done|]. by left. }
  eexists _, _. split; [done|]. split; [done|]. right.
  eexists _, _. split; [done|]. split; [done|].
  set (n1 := (length s - 1)%nat).
  set (N := inject_Z (Z.of_nat n1)).
  assert (HN : (0 <= N)%Q).
  { unfold N. rewrite <- (Zle_Qle 0). lia. }
  set (h1 := (q1 * N)%Q). set (h2 := (q2 * N)%Q).
  assert (Hh0 : (0 <= h1)%Q) by (unfold h1; nra).
  assert (Hh12 : (h1 <= h2)%Q) by (unfold h1, h2; nra).
  assert (HhN : (h2 <= N)%Q) by (unfold h2; nra).
  pose proof (Qfloor_resp_le _ _ Hh0) as Hf0. change (Qfloor 0) with 0 in Hf0.
  pose proof (Qfloor_resp_le _ _ Hh12) as Hf12.
  pose proof (Qfloor_resp_le _ _ HhN) as HfN. unfold N in HfN. rewrite Qfloor_Z in HfN.
  pose proof (Qfloor_le h1) as Hl1. pose proof (Qlt_floor h1) as Hu1.
  pose proof (Qfloor_le h2) as Hl2. pose proof (Qlt_floor h2) as Hu2.
  set (f1 := Qfloor h1) in *. set (f2 := Qfloor h2) in *.
  rewrite inject_Z_plus in Hu1, Hu2.
  change (inject_Z 1) with 1%Q in Hu1, Hu2.
  set (lo1 := Z.to_nat f1). set (lo2 := Z.to_nat f2).
  set (hi1 := Nat.min (lo1 + 1) n1). set (hi2 := Nat.min (lo2 + 1) n1).
  assert (Hab1 : (nth lo1 s 0 <= nth hi1 s 0)%Q).
  { apply StronglySorted_nth_le; [done| |]; unfold hi1, lo1, n1; lia. }
  assert (Hab2 : (nth lo2 s 0 <= nth hi2 s 0)%Q).
  { apply StronglySorted_nth_le; [done| |]; unfold hi2, lo2, n1; lia. }
  destruct (decide (f1 = f2)) as [Heq|Hne].
  - subst lo1 lo2 hi1 hi2. clearbody f1 f2 h1 h2. subst f2.
    apply lerp_monotone; [done|]. lra.
  - assert (Hmid : (nth hi1 s 0 <= nth lo2 s 0)%Q).
    { apply StronglySorted_nth_le; [done| |]; unfold hi1, lo1, lo2, n1; lia. }
    clearbody f1 f2 h1 h2 lo1 lo2 hi1 hi2.
    destruct (lerp_between (nth lo1 s 0%Q) (nth hi1 s 0%Q) (h1 - inject_Z f1)%Q) as [_ Hle1];
      [done|lra|lra|].
    destruct (lerp_between (nth lo2 s 0%Q) (nth hi2 s 0%Q) (h2 - inject_Z f2)%Q) as [Hle2 _];
      [done|lra|lra|].
    lra.
Qed.

(** ** Extreme events *)

Lemma length_select_mono {A} (m1 m2 : list bool) (l : list A) :
  Forall2 (λ b2 b1, b2 = true → b1 = true) m2 m1 →
  (length (select m2 l) ≤ length (select m1 l))%nat.
Proof.
  intros H. revert l. induction H as [|b2 b1 m2 m1 Hb _ IH]; intros l.
  - done.
  - destruct l as [|x l]; [done|].
    specialize (IH l). destruct b2, b1; simpl; try lia.
Qed.

Lemma gt_mask_mono (v : list (option Q)) (t1 t2 : option Q) :
  (t1 = None ∧ t2 = None) ∨ (∃ a b, t1 = Some a ∧ t2 = Some b ∧ (a <= b)%Q) →
  Forall2 (λ b2 b1, b2 = true → b1 = true)
    ((λ x, gt_opt x t2) <$> v) ((λ x, gt_opt x t1) <$> v).
Proof.
  intros Ht. induction v as [|x v IH]; csimpl; constructor; [|done].
  rewrite !gt_opt_true. intros (a & b & -> & -> & Hlt).
  destruct Ht as [[_ ?]|(a' & b' & -> & [= <-] & Hle)]; [done|].
  exists a, a'. split; [done|]. split; [done|]. by apply Qle_lt_trans with b.
Qed.

Lemma Qdiv_100_le (a b : Q) : (a <= b)%Q → (a / 100 <= b / 100)%Q.
Proof.
  intros H. unfold Qdiv. apply Qmult_le_compat_r; [done|]. by vm_compute.
Qed.

Lemma extreme_events_analysis_Ok data variable v dates (p : Q) t :
  columns data !! variable = Some (Float64 v) →
  columns data !! "date" = Some (Datetime64 dates) →
  nrows data ≠ 0%nat →
  quantile v (p / 100) = Ok t →
  ∃ r, ExploratoryAnalyzer.extreme_events_analysis data variable p = Ok r
       ∧ ExploratoryAnalyzer.threshold r = t
       ∧ ExploratoryAnalyzer.extreme_events_data r
         = getitem_mask data ((λ x, gt_opt x t) <$> v)
       ∧ ExploratoryAnalyzer.num_extreme_events r
         = nrows (ExploratoryAnalyzer.extreme_events_data r).
Proof.
  intros Hvar Hdate Hn Hq. unfold ExploratoryAnalyzer.extreme_events_analysis.
  rewrite (getitem_lookup _ _ _ Hvar). cbn [bind float_values]. rewrite Hq. cbn [bind].
  apply Nat.eqb_neq in Hn. rewrite Hn. cbn [bind].
  unfold getitem_mask.
  rewrite (getitem_frame_rows _ _ _ _ Hdate). cbn [bind column_rows dt_values].
  rewrite (getitem_frame_rows _ _ _ _ Hvar). cbn [bind column_rows float_values].
  eexists. split; [reflexivity|]. done.
Qed.

(** C8: the analysis keeps as extreme exactly the rows whose value is
    strictly greater than the threshold, the requested percentile of the
    variable, and counts them; for percentiles [p1 <= p2] the count at [p2]
    is at most the count at [p1]. *)
Theorem extreme_events_monotone
    (data : DataFrame) (variable : string) (v : list (option Q)) (dates : list (option Z))
    (p1 p2 : Q) :
  columns data !! variable = Some (Float64 v) →
  columns data !! "date" = Some (Datetime64 dates) →
  nrows data ≠ 0%nat →
  (0 <= p1)%Q → (p1 <= p2)%Q → (p2 <= 100)%Q →
  ∃ r1 r2 mask1 mask2,
    ExploratoryAnalyzer.extreme_events_analysis data variable p1 = Ok r1
    ∧ ExploratoryAnalyzer.extreme_events_analysis data variable p2 = Ok r2
    ∧ quantile v (p1 / 100) = Ok (ExploratoryAnalyzer.threshold r1)
    ∧ quantile v (p2 / 100) = Ok (ExploratoryAnalyzer.threshold r2)
    ∧ ExploratoryAnalyzer.extreme_events_data r1 = getitem_mask data mask1
    ∧ ExploratoryAnalyzer.extreme_events_data r2 = getitem_mask data mask2
    ∧ (∀ i, mask1 !! i = Some true ↔
         ∃ x t, v !! i = Some (Some x)
                ∧ ExploratoryAnalyzer.threshold r1 = Some t ∧ (t < x)%Q)
    ∧ (∀ i, mask2 !! i = Some true ↔
         ∃ x t, v !! i = Some (Some x)
                ∧ ExploratoryAnalyzer.threshold r2 = Some t ∧ (t < x)%Q)
    ∧ ExploratoryAnalyzer.num_extreme_events r1
      = nrows (ExploratoryAnalyzer.extreme_events_data r1)
    ∧ ExploratoryAnalyzer.num_extreme_events r2
      = nrows (ExploratoryAnalyzer.extreme_events_data r2)
    ∧ (ExploratoryAnalyzer.num_extreme_events r2
       ≤ ExploratoryAnalyzer.num_extreme_events r1)%nat.
Proof.
  intros Hvar Hdate Hn H0 H12 H100.
  destruct (quantile_monotone v (p1 / 100) (p2 / 100)) as (t1 & t2 & Hq1 & Hq2 & Hmono).
  { apply Qle_trans with (0 / 100)%Q; [by vm_compute | by apply Qdiv_100_le]. }
  { by apply Qdiv_100_le. }
  { apply Qle_trans with (100 / 100)%Q; [by apply Qdiv_100_le | by vm_compute]. }
  destruct (extreme_events_analysis_Ok _ _ _ _ _ _ Hvar Hdate Hn Hq1)
    as (r1 & Hr1 & Ht1 & Hd1 & Hc1).
  destruct (extreme_events_analysis_Ok _ _ _ _ _ _ Hvar Hdate Hn Hq2)
    as (r2 & Hr2 & Ht2 & Hd2 & Hc2).
  assert (Hmask : ∀ t i, ((λ x, gt_opt x t) <$> v) !! i = Some true ↔
            ∃ x t', v !! i = Some (Some x) ∧ t = Some t' ∧ (t' < x)%Q).
  { intros t i. rewrite list_lookup_fmap. split.
    - destruct (v !! i) as [x|]; simpl; [|done]. intros [= Hg].
      apply gt_opt_true in Hg as (a & b & -> & -> & Hlt). eauto.
    - intros (x & t' & -> & -> & Hlt). simpl. f_equal.
      by apply Qltb_lt. }
  exists r1, r2, ((λ x, gt_opt x t1) <$> v), ((λ x, gt_opt x t2) <$> v).
  rewrite Ht1, Ht2.
  repeat split; try done; try apply Hmask.
  rewrite Hc1, Hc2, Hd1, Hd2, !nrows_getitem_mask.
  by apply length_select_mono, gt_mask_mono.
Qed.

Lemma extreme_events_monotone_witness :
  ∃ r1 r2 mask1 mask2,
    ExploratoryAnalyzer.extreme_events_analysis extreme_sample "embalse_porcentaje" 50 = Ok r1
    ∧ ExploratoryAnalyzer.extreme_events_analysis extreme_sample "embalse_porcentaje" 90 = Ok r2
    ∧ quantile
        [Some 40%Q; Some 42%Q; None; Some 95%Q; Some 41%Q;
         Some 43%Q; Some 97%Q; Some 44%Q; Some 45%Q; Some 46%Q] (50 / 100)
      = Ok (ExploratoryAnalyzer.threshold r1)
    ∧ quantile
        [Some 40%Q; Some 42%Q; None; Some 95%Q; Some 41%Q;
         Some 43%Q; Some 97%Q; Some 44%Q; Some 45%Q; Some 46%Q] (90 / 100)
      = Ok (ExploratoryAnalyzer.threshold r2)
    ∧ ExploratoryAnalyzer.extreme_events_data r1 = getitem_mask extreme_sample mask1
    ∧ ExploratoryAnalyzer.extreme_events_data r2 = getitem_mask extreme_sample mask2
    ∧ (∀ i, mask1 !! i = Some true ↔
         ∃ x t, [Some 40%Q; Some 42%Q; None; Some 95%Q; Some 41%Q;
                 Some 43%Q; Some 97%Q; Some 44%Q; Some 45%Q; Some 46%Q] !! i = Some (Some x)
                ∧ ExploratoryAnalyzer.threshold r1 = Some t ∧ (t < x)%Q)
    ∧ (∀ i, mask2 !! i = Some true ↔
         ∃ x t, [Some 40%Q; Some 42%Q; None; Some 95%Q; Some 41%Q;
                 Some 43%Q; Some 97%Q; Some 44%Q; Some 45%Q; Some 46%Q] !! i = Some (Some x)
                ∧ ExploratoryAnalyzer.threshold r2 = Some t ∧ (t < x)%Q)
    ∧ ExploratoryAnalyzer.num_extreme_events r1
      = nrows (ExploratoryAnalyzer.extreme_events_data r1)
    ∧ ExploratoryAnalyzer.num_extreme_events r2
      = nrows (ExploratoryAnalyzer.extreme_events_data r2)
    ∧ (ExploratoryAnalyzer.num_extreme_events r2
       ≤ ExploratoryAnalyzer.num_extreme_events r1)%nat.
Proof.
  apply (extreme_events_monotone extreme_sample "embalse_porcentaje" _ ten_days 50 90).
  - reflexivity.
  - reflexivity.
  - vm_compute. lia.
  - unfold Qle. simpl. lia.
  - unfold Qle. simpl. lia.
  - unfold Qle. simpl. lia.
Defined.

(** ** Interpolation of missing values *)

(** C2, as stated, fails.  On a dataset indexed by date, the missing storage
    percentage of entity B, which has no value of its own, is filled with 15,
    interpolated between the values 10 and 20 of entity A; and the missing
    last temperature of entity A is filled with 2, the value of entity B.
    Interpolating within each entity leaves both missing.  On the fixture of
    the cleaner tests, whose index is not made of dates, the call raises. *)
Lemma interpolate_within_entity_counterexample :
  ∃ df' filled,
    ReservoirDataCleaner.handle_missing_values mixed_sample "interpolate" = Ok df'
    ∧ columns df' !! "embalse_porcentaje" = Some (Float64 [Some 10%Q; Some filled; Some 20%Q])
    ∧ (filled == 15)%Q
    ∧ columns df' !! "meteo_temp_max" = Some (Float64 [Some 1%Q; Some 2%Q; Some 2%Q])
    ∧ interpolate_within_entity three_stamps (cells mixed_codes) [Some 10%Q; None; Some 20%Q]
      = [Some 10%Q; None; Some 20%Q]
    ∧ interpolate_within_entity three_stamps (cells mixed_codes) [Some 1%Q; Some 2%Q; None]
      = [Some 1%Q; Some 2%Q; None]
    ∧ ReservoirDataCleaner.handle_missing_values cleaner_sample "interpolate" = Err ValueError.
Proof.
  eexists _, _. split; [vm_compute; reflexivity|].
  split; [vm_compute; reflexivity|].
  split; [reflexivity|].
  repeat split; vm_compute; reflexivity.
Qed.

Lemma valid_points_app s1 s2 v1 v2 :
  length s1 = length v1 →
  ReservoirDataCleaner.valid_points (s1 ++ s2) (v1 ++ v2)
  = ReservoirDataCleaner.valid_points s1 v1 ++ ReservoirDataCleaner.valid_points s2 v2.
Proof.
  revert v1. induction s1 as [|t s1 IH]; intros [|[y|] v1] Hl; simpl in *; try done.
  - f_equal. apply IH. lia.
  - apply IH. lia.
Qed.

Lemma valid_points_none s v :
  Forall (λ o, o = None) v → ReservoirDataCleaner.valid_points s v = [].
Proof.
  intros H. revert s. induction H as [|o v -> _ IH]; intros [|t s]; simpl; try done.
Qed.

Lemma valid_points_stamps s v p :
  p ∈ ReservoirDataCleaner.valid_points s v → p.1 ∈ s.
Proof.
  revert v. induction s as [|t s IH]; intros [|[y|] v] Hp; simpl in *;
    try (by apply elem_of_nil in Hp).
  - apply elem_of_cons in Hp as [->|Hp]; [by left|]. right. by eapply IH.
  - right. by eapply IH.
Qed.

Lemma valid_points_sorted s v :
  StronglySorted Z.lt s →
  StronglySorted (λ p q : Z * Q, p.1 < q.1) (ReservoirDataCleaner.valid_points s v).
Proof.
  intros Hs. revert v. induction Hs as [|t s Hs IH Hall]; intros [|[y|] v]; simpl;
    try constructor; try done.
  apply Forall_forall. intros p Hp%valid_points_stamps.
  rewrite Forall_forall in Hall. by apply Hall.
Qed.

Lemma stable_sort_sorted_id {A} (leb : A → A → bool) l :
  Sorted (λ a b, leb a b = true) l → stable_sort leb l = l.
Proof.
  induction 1 as [|x l Hs IH Hhd]; simpl; [done|].
  rewrite IH. destruct Hhd as [|y l' Hxy]; simpl; [done|]. by rewrite Hxy.
Qed.

Lemma sort_valid_points s v :
  StronglySorted Z.lt s →
  stable_sort (λ p q : Z * Q, p.1 <=? q.1) (ReservoirDataCleaner.valid_points s v)
  = ReservoirDataCleaner.valid_points s v.
Proof.
  intros Hs. apply stable_sort_sorted_id.
  pose proof (StronglySorted_Sorted (valid_points_sorted s v Hs)) as H.
  induction H as [|p l _ IH Hhd]; constructor; [done|].
  destruct Hhd; constructor. apply Z.leb_le. lia.
Qed.

(** Between two neighbouring points the interpolation is linear. *)
Lemma np_interp_from_between t p0 pre pa pb post :
  Forall (λ p : Z * Q, p.1 < t) pre → pa.1 < t → t < pb.1 →
  ReservoirDataCleaner.np_interp_from t p0 (pre ++ pa :: pb :: post)
  = ReservoirDataCleaner.lerp pa pb t.
Proof.
  intros Hpre Ha Hb. revert p0. induction Hpre as [|p pre Hp _ IH]; intros p0; simpl.
  - rewrite (proj2 (Z.leb_le _ _)) by lia.
    rewrite (proj2 (Z.leb_gt _ _)) by lia.
    by rewrite (proj2 (Z.eqb_neq _ _)) by lia.
  - rewrite (proj2 (Z.leb_le _ _)) by lia. apply IH.
Qed.

Lemma np_interp_between t pre pa pb post :
  Forall (λ p : Z * Q, p.1 < t) pre → pa.1 < t → t < pb.1 →
  ReservoirDataCleaner.np_interp t (pre ++ pa :: pb :: post)
  = ReservoirDataCleaner.lerp pa pb t.
Proof.
  intros Hpre Ha Hb. destruct pre as [|p0 pre]; simpl.
  - rewrite (proj2 (Z.ltb_ge _ _)) by lia.
    rewrite (proj2 (Z.leb_gt _ _)) by lia.
    by rewrite (proj2 (Z.eqb_neq _ _)) by lia.
  - inversion Hpre as [|? ? Hp0 Hpre']; subst.
    rewrite (proj2 (Z.ltb_ge _ _)) by lia.
    by apply np_interp_from_between.
Qed.

Lemma fill_interp_length points started s v :
  length s = length v →
  length (ReservoirDataCleaner.fill_interp points started s v) = length v.
Proof.
  revert v started. induction s as [|t s IH]; intros [|[y|] v] started Hl; simpl in *;
    try done; f_equal; apply IH; lia.
Qed.

Lemma fill_interp_valid points s v started i y :
  length s = length v → v !! i = Some (Some y) →
  ReservoirDataCleaner.fill_interp points started s v !! i = Some (Some y).
Proof.
  revert v started i. induction s as [|t s IH]; intros [|[x|] v] started [|i] Hl Hi;
    simpl in *; try done; apply IH; try done; lia.
Qed.

Lemma fill_interp_leading points s v i :
  length s = length v → (∀ j, (j ≤ i)%nat → v !! j = Some None) →
  ReservoirDataCleaner.fill_interp points false s v !! i = Some None.
Proof.
  revert v i. induction s as [|t s IH]; intros [|x v] i Hl Hlead; simpl in *.
  - by specialize (Hlead 0%nat (Nat.le_0_l _)).
  - done.
  - by specialize (Hlead 0%nat (Nat.le_0_l _)).
  - pose proof (Hlead 0%nat (Nat.le_0_l _)) as H0. simpl in H0. injection H0 as ->.
    destruct i as [|i]; simpl; [done|]. apply IH; [lia|].
    intros j Hj. apply (Hlead (S j)). lia.
Qed.

Lemma fill_interp_started points s v i t :
  s !! i = Some t → v !! i = Some None →
  ReservoirDataCleaner.fill_interp points true s v !! i
  = Some (Some (ReservoirDataCleaner.np_interp t points)).
Proof.
  revert v i. induction s as [|t0 s IH]; intros [|[x|] v] [|i] Hs Hv; simpl in *;
    try done.
  - by apply IH.
  - by injection Hs as ->.
  - by apply IH.
Qed.

Lemma fill_interp_after points s v started a i t y :
  (a < i)%nat → v !! a = Some (Some y) → s !! i = Some t → v !! i = Some None →
  ReservoirDataCleaner.fill_interp points started s v !! i
  = Some (Some (ReservoirDataCleaner.np_interp t points)).
Proof.
  revert v started a i. induction s as [|t0 s IH]; intros [|x v] started a [|i] Ha Hva Hs Hv;
    simpl in *; try done; try lia.
  destruct x as [x|].
  - simpl. by apply fill_interp_started.
  - simpl. destruct a as [|a]; [done|]. simpl in Hva.
    apply (IH v started a i); [lia|done..].
Qed.

Lemma StronglySorted_lookup_lt (l : list Z) i j x y :
  StronglySorted Z.lt l → (i < j)%nat → l !! i = Some x → l !! j = Some y → x < y.
Proof.
  intros Hs. revert i j. induction Hs as [|z l _ IH Hall]; intros i j Hij Hi Hj; [done|].
  destruct j as [|j]; [lia|]. destruct i as [|i]; simpl in *.
  - injection Hi as ->. rewrite Forall_forall in Hall.
    apply Hall. by eapply list_elem_of_lookup_2.
  - apply (IH i j); [lia|done..].
Qed.

Lemma split_three {A} (l : list A) a b x y :
  (a < b)%nat → l !! a = Some x → l !! b = Some y →
  l = take a l ++ x :: take (b - a - 1) (drop (S a) l) ++ y :: drop (S b) l.
Proof.
  intros Hab Ha Hb.
  rewrite <- (take_drop_middle l a x Ha) at 1. do 2 f_equal.
  assert (Hb' : drop (S a) l !! (b - a - 1)%nat = Some y).
  { rewrite lookup_drop. rewrite <- Hb. f_equal. lia. }
  rewrite <- (take_drop_middle _ _ _ Hb') at 1. do 2 f_equal.
  rewrite drop_drop. f_equal. lia.
Qed.

(** The valid rows on each side of a gap are neighbouring points. *)
Lemma valid_points_gap stamps v a b ta tb ya yb :
  length stamps = length v → (a < b)%nat →
  stamps !! a = Some ta → stamps !! b = Some tb →
  v !! a = Some (Some ya) → v !! b = Some (Some yb) →
  (∀ j, (a < j < b)%nat → v !! j = Some None) →
  ∃ pre post,
    ReservoirDataCleaner.valid_points stamps v = pre ++ (ta, ya) :: (tb, yb) :: post
    ∧ ∀ p, p ∈ pre → ∃ j, (j < a)%nat ∧ stamps !! j = Some p.1.
Proof.
  intros Hl Hab Hsa Hsb Hva Hvb Hgap.
  pose proof (split_three stamps a b ta tb Hab Hsa Hsb) as Hs.
  pose proof (split_three v a b (Some ya) (Some yb) Hab Hva Hvb) as Hv.
  pose proof (lookup_lt_Some _ _ _ Hsb) as Hblt.
  exists (ReservoirDataCleaner.valid_points (take a stamps) (take a v)),
         (ReservoirDataCleaner.valid_points (drop (S b) stamps) (drop (S b) v)).
  split.
  - rewrite Hs, Hv at 1.
    rewrite valid_points_app by (rewrite !length_take; lia). f_equal. simpl. f_equal.
    rewrite valid_points_app by (rewrite !length_take, !length_drop; lia).
    rewrite valid_points_none; [done|].
    apply Forall_forall. intros o Ho.
    apply list_elem_of_lookup in Ho as [j Hj].
    pose proof (lookup_lt_Some _ _ _ Hj) as Hjlt.
    rewrite length_take, length_drop in Hjlt.
    rewrite lookup_take_lt in Hj by lia. rewrite lookup_drop in Hj.
    rewrite Hgap in Hj by lia. by injection Hj.
  - intros p Hp%valid_points_stamps.
    apply list_elem_of_lookup in Hp as [j Hj].
    pose proof (lookup_lt_Some _ _ _ Hj) as Hjlt. rewrite length_take in Hjlt.
    exists j. split; [lia|]. by rewrite lookup_take_lt in Hj by lia.
Qed.

(** On an index in increasing order, a gap of a series between two valid
    rows is filled along the segment that joins them. *)
Lemma interpolate_time_gap stamps v a i b ta ti tb ya yb :
  StronglySorted Z.lt stamps → length stamps = length v →
  (a < i)%nat → (i < b)%nat →
  stamps !! a = Some ta → stamps !! i = Some ti → stamps !! b = Some tb →
  v !! a = Some (Some ya) → v !! b = Some (Some yb) →
  (∀ j, (a < j < b)%nat → v !! j = Some None) →
  ∃ v', ReservoirDataCleaner.interpolate_time (DatetimeIndex stamps) v = Ok v'
        ∧ v' !! i = Some (Some (ReservoirDataCleaner.lerp (ta, ya) (tb, yb) ti)).
Proof.
  intros Hsort Hl Hai Hib Hsa Hsi Hsb Hva Hvb Hgap.
  assert (Hvi : v !! i = Some None) by (apply Hgap; lia).
  unfold ReservoirDataCleaner.interpolate_time.
  case_bool_decide as Hnil; [by subst|].
  destruct (forallb _ v) eqn:E1.
  { rewrite forallb_forall in E1.
    apply list_elem_of_lookup_2, list_elem_of_In, E1 in Hva. by case_bool_decide. }
  destruct (forallb (λ o, bool_decide (is_Some o)) v) eqn:E2.
  { rewrite forallb_forall in E2.
    apply list_elem_of_lookup_2, list_elem_of_In, E2 in Hvi.
    case_bool_decide as H; [|done]. by destruct H. }
  simpl. rewrite sort_valid_points by done.
  eexists. split; [reflexivity|].
  rewrite (fill_interp_after _ _ _ _ a i ti ya) by done. do 2 f_equal.
  destruct (valid_points_gap stamps v a b ta tb ya yb) as (pre & post & -> & Hpre);
    try done; [lia|].
  apply np_interp_between; simpl.
  - apply Forall_forall. intros p Hp. destruct (Hpre p Hp) as (j & Hj & Hsj).
    apply (StronglySorted_lookup_lt stamps j i); [done|lia|done..].
  - by apply (StronglySorted_lookup_lt stamps a i).
  - by apply (StronglySorted_lookup_lt stamps i b).
Qed.

Lemma interpolate_time_properties stamps v :
  length stamps = length v →
  ∃ v', ReservoirDataCleaner.interpolate_time (DatetimeIndex stamps) v = Ok v'
        ∧ length v' = length v
        ∧ (∀ i y, v !! i = Some (Some y) → v' !! i = Some (Some y))
        ∧ (∀ i, (∀ j, (j ≤ i)%nat → v !! j = Some None) → v' !! i = Some None).
Proof.
  intros Hl. unfold ReservoirDataCleaner.interpolate_time.
  case_bool_decide as Hnil.
  { subst. exists []. repeat split; try done. intros i Hlead. by apply (Hlead i). }
  destruct (_ || _).
  { exists v. repeat split; try done. intros i Hlead. by apply (Hlead i). }
  eexists. split; [reflexivity|]. split; [by apply fill_interp_length|]. split.
  - intros i y Hi. by apply fill_interp_valid.
  - intros i Hlead. by apply fill_interp_leading.
Qed.

(** The loop of the ['interpolate'] strategy over distinct numeric columns. *)
Lemma interpolate_loop stamps (l : list string) :
  NoDup l → ∀ df,
  index df = DatetimeIndex stamps →
  (∀ k, k ∈ l → ∃ v, columns df !! k = Some (Float64 v)) →
  ∃ df',
    foldR (λ df_filled col,
             let* v := bind (getitem df_filled col) float_values in
             let* v' := ReservoirDataCleaner.interpolate_time (index df_filled) v in
             Ok (setitem df_filled col (Float64 v'))) l df = Ok df'
    ∧ index df' = index df
    ∧ ∀ k, columns df' !! k
           = if decide (k ∈ l)
             then interpolate_column (index df) <$> columns df !! k
             else columns df !! k.
Proof.
  induction 1 as [|a l Ha Hnd IH]; intros df Hidx Hnum; cbn [foldR].
  - exists df. by repeat split.
  - destruct (Hnum a) as [v Hv]; [by left|].
    rewrite (getitem_lookup _ _ _ Hv). cbn [bind float_values]. rewrite Hidx.
    assert (∃ v', ReservoirDataCleaner.interpolate_time (DatetimeIndex stamps) v = Ok v')
      as [v' Hv'].
    { unfold ReservoirDataCleaner.interpolate_time.
      case_bool_decide; [eauto|]. destruct (_ || _); eauto. }
    rewrite Hv'. cbn [bind].
    destruct (IH (setitem df a (Float64 v'))) as (df' & Hloop & Hidx' & Hcols).
    { done. }
    { intros k Hk. destruct (Hnum k) as [w Hw]; [by right|].
      exists w. simpl. rewrite lookup_insert_ne; [done|]. by intros ->. }
    simpl in Hidx', Hcols. rewrite Hidx in Hidx', Hcols.
    exists df'. split; [exact Hloop|]. split; [done|].
    intros k. rewrite Hcols.
    destruct (decide (k = a)) as [->|Hne].
    + rewrite (decide_False (P := a ∈ l)) by done.
      rewrite (decide_True (P := a ∈ a :: l)) by left.
      rewrite lookup_insert_eq, Hv. simpl. by rewrite Hv'.
    + rewrite lookup_insert_ne by done.
      destruct (decide (k ∈ l)) as [Hin|Hnin].
      * by rewrite (decide_True (P := k ∈ a :: l)) by by right.
      * rewrite (decide_False (P := k ∈ a :: l)); [done|].
        intros H. apply elem_of_cons in H as [?|?]; done.
Qed.

Lemma select_dtypes_number_spec df :
  NoDup (ReservoirDataCleaner.select_dtypes_number df)
  ∧ ∀ k, k ∈ ReservoirDataCleaner.select_dtypes_number df
         ↔ ∃ v, columns df !! k = Some (Float64 v).
Proof.
  unfold ReservoirDataCleaner.select_dtypes_number. split.
  - apply NoDup_fst_map_to_list.
  - intros k. rewrite list_elem_of_fmap. split.
    + intros ([k' c] & -> & Hin). apply elem_of_map_to_list in Hin.
      apply map_lookup_filter_Some in Hin as [Hc Hnum]. simpl in *.
      destruct c; try done. eauto.
    + intros [v Hv]. exists (k, Float64 v). split; [done|].
      apply elem_of_map_to_list, map_lookup_filter_Some. done.
Qed.

Lemma handle_missing_values_interpolate df stamps :
  index df = DatetimeIndex stamps →
  ReservoirDataCleaner.handle_missing_values df "interpolate"
  = Ok (mkDataFrame (index df) (interpolate_column (index df) <$> columns df)).
Proof.
  intros Hidx. unfold ReservoirDataCleaner.handle_missing_values.
  rewrite bool_decide_eq_true_2 by done.
  destruct (select_dtypes_number_spec df) as [Hnd Hin].
  destruct (interpolate_loop stamps _ Hnd df Hidx) as (df' & -> & Hidx' & Hcols).
  { intros k Hk. by apply Hin. }
  f_equal. destruct df' as [idx' cols']. simpl in *. f_equal; [done|].
  apply map_eq. intros k. rewrite Hcols, lookup_fmap.
  case_decide as Hk; [done|].
  destruct (columns df !! k) as [c|] eqn:Ec; [|done]. simpl. f_equal.
  destruct c as [v| |]; try done. exfalso. apply Hk, Hin. eauto.
Qed.

Lemma np_interp_from_last t p0 pre pa :
  Forall (λ p : Z * Q, p.1 < t) pre → pa.1 < t →
  ReservoirDataCleaner.np_interp_from t p0 (pre ++ [pa]) = pa.2.
Proof.
  intros Hpre Ha. revert p0. induction Hpre as [|p pre Hp _ IH]; intros p0; simpl.
  - by rewrite (proj2 (Z.leb_le _ _)) by lia.
  - rewrite (proj2 (Z.leb_le _ _)) by lia. apply IH.
Qed.

Lemma np_interp_last t pre pa :
  Forall (λ p : Z * Q, p.1 < t) pre → pa.1 < t →
  ReservoirDataCleaner.np_interp t (pre ++ [pa]) = pa.2.
Proof.
  intros Hpre Ha. destruct pre as [|p0 pre]; simpl.
  - by rewrite (proj2 (Z.ltb_ge _ _)) by lia.
  - inversion Hpre as [|? ? Hp0 Hpre']; subst.
    rewrite (proj2 (Z.ltb_ge _ _)) by lia.
    by apply np_interp_from_last.
Qed.

(** On an index in increasing order, the rows after the last valid row of a
    series are filled with its value. *)
Lemma interpolate_time_tail stamps v a i ta ti ya :
  StronglySorted Z.lt stamps → length stamps = length v →
  (a < i)%nat → stamps !! a = Some ta → stamps !! i = Some ti →
  v !! a = Some (Some ya) →
  (∀ j, (a < j < length v)%nat → v !! j = Some None) →
  ∃ v', ReservoirDataCleaner.interpolate_time (DatetimeIndex stamps) v = Ok v'
        ∧ v' !! i = Some (Some ya).
Proof.
  intros Hsort Hl Hai Hsa Hsi Hva Htail.
  pose proof (lookup_lt_Some _ _ _ Hsi) as Hilt.
  assert (Hvi : v !! i = Some None) by (apply Htail; lia).
  unfold ReservoirDataCleaner.interpolate_time.
  case_bool_decide as Hnil; [by subst|].
  destruct (forallb _ v) eqn:E1.
  { rewrite forallb_forall in E1.
    apply list_elem_of_lookup_2, list_elem_of_In, E1 in Hva. by case_bool_decide. }
  destruct (forallb (λ o, bool_decide (is_Some o)) v) eqn:E2.
  { rewrite forallb_forall in E2.
    apply list_elem_of_lookup_2, list_elem_of_In, E2 in Hvi.
    case_bool_decide as H; [|done]. by destruct H. }
  simpl. rewrite sort_valid_points by done.
  eexists. split; [reflexivity|].
  rewrite (fill_interp_after _ _ _ _ a i ti ya) by done. do 2 f_equal.
  assert (Hpts : ReservoirDataCleaner.valid_points stamps v
                 = ReservoirDataCleaner.valid_points (take a stamps) (take a v) ++ [(ta, ya)]).
  { rewrite <- (take_drop_middle stamps a ta Hsa) at 1.
    rewrite <- (take_drop_middle v a (Some ya) Hva) at 1.
    rewrite valid_points_app by (rewrite !length_take; lia). f_equal. simpl. f_equal.
    apply valid_points_none, Forall_forall. intros o Ho.
    apply list_elem_of_lookup in Ho as [j Hj].
    pose proof (lookup_lt_Some _ _ _ Hj) as Hjlt. rewrite length_drop in Hjlt.
    rewrite lookup_drop in Hj. rewrite Htail in Hj by lia. by injection Hj. }
  rewrite Hpts. apply (np_interp_last ti _ (ta, ya)); simpl.
  - apply Forall_forall. intros p Hp%valid_points_stamps.
    apply list_elem_of_lookup in Hp as [j Hj].
    pose proof (lookup_lt_Some _ _ _ Hj) as Hjlt. rewrite length_take in Hjlt.
    rewrite lookup_take_lt in Hj by lia.
    apply (StronglySorted_lookup_lt stamps j i); [done|lia|done..].
  - by apply (StronglySorted_lookup_lt stamps a i).
Qed.

(** C2 (amended): with the ['interpolate'] strategy, on a dataset indexed by
    timestamps, every numeric column is filled as one series along the
    index of the whole dataset, whatever the entity of its rows; the other
    columns are unchanged.  Values present are kept and the missing values
    before the first value of the column stay missing.  When the index is
    in increasing order, a gap between two values of the column is filled by
    the time-weighted linear interpolation between them, and the missing
    values after the last value of the column are filled with it. *)
Theorem interpolate_along_index (df : DataFrame) (stamps : list Z) :
  index df = DatetimeIndex stamps →
  frame_wf df →
  ∃ df',
    ReservoirDataCleaner.handle_missing_values df "interpolate" = Ok df'
    ∧ index df' = index df
    ∧ (∀ col c, columns df !! col = Some c → ReservoirDataCleaner.is_numeric c = false →
         columns df' !! col = Some c)
    ∧ ∀ col v, columns df !! col = Some (Float64 v) →
        ∃ v', columns df' !! col = Some (Float64 v')
          ∧ ReservoirDataCleaner.interpolate_time (DatetimeIndex stamps) v = Ok v'
          ∧ length v' = length v
          ∧ (∀ i y, v !! i = Some (Some y) → v' !! i = Some (Some y))
          ∧ (∀ i, (∀ j, (j ≤ i)%nat → v !! j = Some None) → v' !! i = Some None)
          ∧ (StronglySorted Z.lt stamps →
             ∀ a i ta ti ya, (a < i)%nat →
               stamps !! a = Some ta → stamps !! i = Some ti → v !! a = Some (Some ya) →
               (∀ b tb yb, (i < b)%nat → stamps !! b = Some tb → v !! b = Some (Some yb) →
                  (∀ j, (a < j < b)%nat → v !! j = Some None) →
                  v' !! i = Some (Some ((yb - ya) / inject_Z (tb - ta)
                                        * inject_Z (ti - ta) + ya)%Q))
               ∧ ((∀ j, (a < j < length v)%nat → v !! j = Some None) →
                  v' !! i = Some (Some ya))).
Proof.
  intros Hidx Hwf. rewrite (handle_missing_values_interpolate df stamps Hidx).
  eexists. split; [reflexivity|]. split; [done|]. simpl. split.
  - intros col c Hc Hnum. rewrite lookup_fmap, Hc. simpl. by destruct c.
  - intros col v Hv.
    assert (Hl : length stamps = length v).
    { pose proof (Hwf _ _ Hv) as H. unfold column_length, nrows in H.
      rewrite Hidx in H. simpl in H. by rewrite !length_fmap in H. }
    destruct (interpolate_time_properties stamps v Hl) as (v' & Hv' & Hlen & Hkeep & Hlead).
    exists v'. rewrite lookup_fmap, Hv, Hidx. simpl. rewrite Hv'.
    split; [done|]. split; [done|]. split; [done|]. split; [done|]. split; [done|].
    intros Hsort a i ta ti ya Hai Hsa Hsi Hva. split.
    + intros b tb yb Hib Hsb Hvb Hgap.
      destruct (interpolate_time_gap stamps v a i b ta ti tb ya yb) as (w & Hw & Hwi);
        try done.
      rewrite Hv' in Hw. by injection Hw as <-.
    + intros Htail.
      destruct (interpolate_time_tail stamps v a i ta ti ya) as (w & Hw & Hwi); try done.
      rewrite Hv' in Hw. by injection Hw as <-.
Qed.

Lemma interpolate_along_index_witness :
  ∃ df',
    ReservoirDataCleaner.handle_missing_values mixed_sample "interpolate" = Ok df'
    ∧ index df' = index mixed_sample
    ∧ (∀ col c, columns mixed_sample !! col = Some c →
         ReservoirDataCleaner.is_numeric c = false → columns df' !! col = Some c)
    ∧ ∀ col v, columns mixed_sample !! col = Some (Float64 v) →
        ∃ v', columns df' !! col = Some (Float64 v')
          ∧ ReservoirDataCleaner.interpolate_time (DatetimeIndex three_stamps) v = Ok v'
          ∧ length v' = length v
          ∧ (∀ i y, v !! i = Some (Some y) → v' !! i = Some (Some y))
          ∧ (∀ i, (∀ j, (j ≤ i)%nat → v !! j = Some None) → v' !! i = Some None)
          ∧ (StronglySorted Z.lt three_stamps →
             ∀ a i ta ti ya, (a < i)%nat →
               three_stamps !! a = Some ta → three_stamps !! i = Some ti →
               v !! a = Some (Some ya) →
               (∀ b tb yb, (i < b)%nat → three_stamps !! b = Some tb →
                  v !! b = Some (Some yb) →
                  (∀ j, (a < j < b)%nat → v !! j = Some None) →
                  v' !! i = Some (Some ((yb - ya) / inject_Z (tb - ta)
                                        * inject_Z (ti - ta) + ya)%Q))
               ∧ ((∀ j, (a < j < length v)%nat → v !! j = Some None) →
                  v' !! i = Some (Some ya))).
Proof.
  apply (interpolate_along_index mixed_sample three_stamps).
  - reflexivity.
  - apply (bool_decide_unpack _). vm_compute. reflexivity.
Defined.

(** * Further properties of the cleaner *)

(** ** Forward fill *)

Lemma length_ffill_from {A} (last : option A) v :
  length (ReservoirDataCleaner.ffill_from last v) = length v.
Proof.
  revert last. induction v as [|[x|] v IH]; intros last; simpl; by rewrite ?IH.
Qed.

Lemma ffill_from_valid {A} (last : option A) v i y :
  v !! i = Some (Some y) → ReservoirDataCleaner.ffill_from last v !! i = Some (Some y).
Proof.
  revert last i. induction v as [|[x|] v IH]; intros last [|i] Hi; simpl in *;
    try done; by apply IH.
Qed.

Lemma ffill_from_leading {A} (last : option A) v i :
  (∀ j, (j ≤ i)%nat → v !! j = Some None) →
  ReservoirDataCleaner.ffill_from last v !! i = Some last.
Proof.
  revert i. induction v as [|x v IH]; intros i Hlead.
  - by specialize (Hlead 0%nat (Nat.le_0_l _)).
  - pose proof (Hlead 0%nat (Nat.le_0_l _)) as H0. simpl in H0. injection H0 as ->.
    destruct i as [|i]; simpl; [done|]. apply IH.
    intros j Hj. apply (Hlead (S j)). lia.
Qed.

Lemma ffill_from_gap {A} (last : option A) v a i y :
  (a < i)%nat → v !! a = Some (Some y) →
  (∀ j, (a < j ≤ i)%nat → v !! j = Some None) →
  ReservoirDataCleaner.ffill_from last v !! i = Some (Some y).
Proof.
  revert last a i. induction v as [|x v IH]; intros last a i Hai Ha Hgap; [done|].
  destruct i as [|i]; [lia|]. destruct a as [|a]; simpl in Ha.
  - injection Ha as ->. simpl. apply ffill_from_leading.
    intros j Hj. apply (Hgap (S j)). lia.
  - assert (ReservoirDataCleaner.ffill_from (match x with Some _ => x | None => last end)
              v !! i = Some (Some y)) as H.
    { apply (IH _ a i); [lia|done|]. intros j Hj. apply (Hgap (S j)). lia. }
    by destruct x.
Qed.

Lemma ffill_from_idempotent {A} (last : option A) v :
  ReservoirDataCleaner.ffill_from last (ReservoirDataCleaner.ffill_from last v)
  = ReservoirDataCleaner.ffill_from last v.
Proof.
  revert last. induction v as [|[x|] v IH]; intros last; simpl; [done| |].
  - by rewrite IH.
  - destruct last as [z|]; simpl; by rewrite IH.
Qed.

(** The ['forward_fill'] strategy never fails.  It keeps the index, the
    columns that are not numeric and every value present; a missing value
    of a numeric column becomes the latest value above it in the column, and
    stays missing when there is none. *)
Theorem forward_fill_propagates_last_value (df : DataFrame) :
  ∃ df',
    ReservoirDataCleaner.handle_missing_values df "forward_fill" = Ok df'
    ∧ index df' = index df
    ∧ (∀ col c, columns df !! col = Some c → ReservoirDataCleaner.is_numeric c = false →
         columns df' !! col = Some c)
    ∧ ∀ col v, columns df !! col = Some (Float64 v) →
        ∃ v', columns df' !! col = Some (Float64 v')
          ∧ length v' = length v
          ∧ (∀ i y, v !! i = Some (Some y) → v' !! i = Some (Some y))
          ∧ (∀ a i y, (a < i)%nat → v !! a = Some (Some y) →
               (∀ j, (a < j ≤ i)%nat → v !! j = Some None) → v' !! i = Some (Some y))
          ∧ (∀ i, (∀ j, (j ≤ i)%nat → v !! j = Some None) → v' !! i = Some None).
Proof.
  eexists. split; [reflexivity|]. split; [done|]. simpl. split.
  - intros col c Hc Hnum. rewrite lookup_fmap, Hc. simpl. by destruct c.
  - intros col v Hv. eexists. rewrite lookup_fmap, Hv. simpl. split; [done|].
    split; [apply length_ffill_from|]. split; [|split].
    + intros i y. apply ffill_from_valid.
    + intros a i y. apply ffill_from_gap.
    + intros i. apply ffill_from_leading.
Qed.

(** Forward filling a dataset that was forward filled changes nothing. *)
Theorem forward_fill_idempotent (df : DataFrame) :
  bind (ReservoirDataCleaner.handle_missing_values df "forward_fill")
       (λ df', ReservoirDataCleaner.handle_missing_values df' "forward_fill")
  = ReservoirDataCleaner.handle_missing_values df "forward_fill".
Proof.
  unfold ReservoirDataCleaner.handle_missing_values. simpl. do 2 f_equal.
  apply map_eq. intros k. rewrite !lookup_fmap.
  destruct (columns df !! k) as [[v|v|v]|]; simpl; try done.
  by rewrite ffill_from_idempotent.
Qed.

(** ** Dropping incomplete rows *)

Lemma cells_column_rows_select mask c :
  cells (column_rows (λ A, select mask) c) = select mask (cells c).
Proof. destruct c; simpl; by rewrite select_fmap. Qed.

Lemma Forall_select {A} (P : A → Prop) mask (l : list A) :
  (∀ i x, mask !! i = Some true → l !! i = Some x → P x) →
  Forall P (select mask l).
Proof.
  revert l. induction mask as [|b mask IH]; intros [|x l] H; simpl; try constructor.
  assert (Forall P (select mask l)) as Hrest.
  { apply IH. intros i y Hm Hl. by apply (H (S i) y). }
  destruct b; [|done]. constructor; [|done]. by apply (H 0%nat x).
Qed.

Lemma lookup_zip_with_andb_true (a b : list bool) i :
  zip_with andb a b !! i = Some true ↔ a !! i = Some true ∧ b !! i = Some true.
Proof.
  rewrite lookup_zip_with_Some. split.
  - intros (x & y & Hxy & Ha & Hb). symmetry in Hxy.
    apply andb_true_iff in Hxy as [-> ->]. done.
  - intros [Ha Hb]. by exists true, true.
Qed.

Lemma lookup_notna_true {A} (v : list (option A)) i :
  notna v !! i = Some true ↔ ∃ x, v !! i = Some (Some x).
Proof.
  unfold notna. rewrite list_lookup_fmap. split.
  - destruct (v !! i) as [[x|]|]; simpl; intros H; [eauto|done..].
  - by intros [x ->].
Qed.

(** The mask of the complete rows: true exactly on the rows where every
    column has a value. *)
Lemma complete_rows_spec df :
  frame_wf df →
  length (ReservoirDataCleaner.complete_rows df) = nrows df
  ∧ ∀ i, ReservoirDataCleaner.complete_rows df !! i = Some true
         ↔ (i < nrows df)%nat
           ∧ ∀ col c, columns df !! col = Some c → ∃ x, cells c !! i = Some (Some x).
Proof.
  unfold frame_wf, ReservoirDataCleaner.complete_rows.
  generalize (nrows df) as n. intros n.
  apply (map_fold_weak_ind (λ mask (m : gmap string Column),
           map_Forall (λ _ c, column_length c = n) m →
           length mask = n
           ∧ ∀ i, mask !! i = Some true
                  ↔ (i < n)%nat
                    ∧ ∀ col c, m !! col = Some c → ∃ x, cells c !! i = Some (Some x))).
  - intros _. split; [apply length_replicate|]. intros i. split.
    + intros Hi. apply lookup_replicate in Hi as [_ Hi]. split; [done|].
      intros col c Hc. by rewrite lookup_empty in Hc.
    + intros [Hi _]. by apply lookup_replicate.
  - intros col c m mask Hfresh IH Hwf.
    apply map_Forall_insert in Hwf as [Hc Hwf]; [|done].
    destruct (IH Hwf) as [Hlen Hmask]. split.
    + rewrite length_zip_with. unfold ReservoirDataCleaner.column_notna, notna.
      rewrite length_fmap. unfold column_length in Hc. lia.
    + intros i. rewrite lookup_zip_with_andb_true, Hmask.
      unfold ReservoirDataCleaner.column_notna. rewrite lookup_notna_true. split.
      * intros [Hx [Hi Hall]]. split; [done|]. intros col' c' Hc'.
        apply lookup_insert_Some in Hc' as [[<- <-]|[_ Hc']]; [done|]. by eapply Hall.
      * intros [Hi Hall]. split; [|split; [done|]].
        -- apply (Hall col). apply lookup_insert_eq.
        -- intros col' c' Hc'. apply (Hall col').
           rewrite lookup_insert_ne; [done|]. intros ->. congruence.
Qed.

(** The ['drop'] strategy keeps exactly the rows in which every column has a
    value, with their values and in their order; no missing value is left
    in any column of the result. *)
Theorem drop_keeps_complete_rows (df : DataFrame) :
  frame_wf df →
  ∃ df' mask,
    ReservoirDataCleaner.handle_missing_values df "drop" = Ok df'
    ∧ df' = getitem_mask df mask
    ∧ length mask = nrows df
    ∧ (∀ i, mask !! i = Some true
            ↔ (i < nrows df)%nat
              ∧ ∀ col c, columns df !! col = Some c → ∃ x, cells c !! i = Some (Some x))
    ∧ (∀ col c', columns df' !! col = Some c' → Forall is_Some (cells c'))
    ∧ (nrows df' ≤ nrows df)%nat.
Proof.
  intros Hwf. destruct (complete_rows_spec df Hwf) as [Hlen Hmask].
  exists (ReservoirDataCleaner.frame_dropna df), (ReservoirDataCleaner.complete_rows df).
  split; [reflexivity|]. split; [reflexivity|]. split; [done|]. split; [done|]. split.
  - intros col c' Hc'. unfold ReservoirDataCleaner.frame_dropna, getitem_mask in Hc'.
    simpl in Hc'. rewrite lookup_fmap in Hc'.
    destruct (columns df !! col) as [c|] eqn:Ec; [|done]. injection Hc' as <-.
    rewrite cells_column_rows_select. apply Forall_select.
    intros i x Hi Hx. apply Hmask in Hi as [_ Hall].
    destruct (Hall col c Ec) as [y Hy]. rewrite Hy in Hx. injection Hx as <-. eauto.
  - unfold ReservoirDataCleaner.frame_dropna. rewrite nrows_getitem_mask.
    unfold nrows. generalize (index_tolist (index df)).
    generalize (ReservoirDataCleaner.complete_rows df). clear.
    induction l as [|b m IH]; intros [|x l]; simpl; try lia.
    specialize (IH l). destruct b; simpl; lia.
Qed.

Lemma drop_keeps_complete_rows_witness :
  ∃ df' mask,
    ReservoirDataCleaner.handle_missing_values cleaner_sample "drop" = Ok df'
    ∧ df' = getitem_mask cleaner_sample mask
    ∧ length mask = nrows cleaner_sample
    ∧ (∀ i, mask !! i = Some true
            ↔ (i < nrows cleaner_sample)%nat
              ∧ ∀ col c, columns cleaner_sample !! col = Some c →
                  ∃ x, cells c !! i = Some (Some x))
    ∧ (∀ col c', columns df' !! col = Some c' → Forall is_Some (cells c'))
    ∧ (nrows df' ≤ nrows cleaner_sample)%nat.
Proof.
  apply (drop_keeps_complete_rows cleaner_sample).
  apply (bool_decide_unpack _). vm_compute. reflexivity.
Defined.

(** ** Removing duplicates twice *)

Lemma select_zip {A B} mask (a : list A) (b : list B) :
  select mask (zip a b) = zip (select mask a) (select mask b).
Proof.
  revert a b. induction mask as [|m mask IH]; intros [|x a] [|y b]; simpl; try done.
  - destruct m; [done|]. by destruct (select mask a).
  - destruct m; simpl; by rewrite IH.
Qed.

Lemma select_all {A} n (l : list A) :
  (length l ≤ n)%nat → select (replicate n true) l = l.
Proof.
  revert l. induction n as [|n IH]; intros [|x l] Hl; simpl in *; try done; [lia|].
  f_equal. apply IH. lia.
Qed.

Lemma duplicated_from_NoDup {K} `{EqDecision K} (seen keys : list K) :
  NoDup keys → (∀ k, k ∈ keys → k ∉ seen) →
  ReservoirDataCleaner.duplicated_from seen keys = replicate (length keys) false.
Proof.
  intros Hnd. revert seen. induction Hnd as [|k keys Hk Hnd IH]; intros seen Hdisj;
    simpl; [done|].
  rewrite bool_decide_eq_false_2 by (apply Hdisj; by left). f_equal.
  apply IH. intros k' Hk' [->|Hin]%elem_of_cons; [done|].
  by apply (Hdisj k'); [right|].
Qed.

Lemma getitem_getitem_mask df mask col c :
  columns df !! col = Some c →
  getitem (getitem_mask df mask) col = Ok (column_rows (λ A, select mask) c).
Proof. apply getitem_frame_rows. Qed.

Lemma column_length_select mask c :
  column_length (column_rows (λ A, select mask) c) = length (select mask (cells c)).
Proof. unfold column_length. by rewrite cells_column_rows_select. Qed.

(** Removing the duplicates of a dataset that has none gives the dataset
    back and prints nothing: the operation is idempotent. *)
Theorem remove_duplicates_idempotent
    (df df' : DataFrame) (printed : option nat) :
  frame_wf df →
  ReservoirDataCleaner.remove_duplicates df = Ok (df', printed) →
  ReservoirDataCleaner.remove_duplicates df' = Ok (df', None)
  ∧ frame_wf df'
  ∧ (printed = None ↔ nrows df' = nrows df).
Proof.
  intros Hwf. unfold ReservoirDataCleaner.remove_duplicates at 1.
  destruct (getitem df "date") as [date|] eqn:Ed; [|done]. cbn [bind].
  destruct (getitem df "embalse_codigo") as [codigo|] eqn:Ec; [|done]. cbn [bind].
  set (keys := zip (cells date) (cells codigo)).
  set (mask := negb <$> ReservoirDataCleaner.duplicated keys).
  intros [= <- <-].
  assert (Hd : columns df !! "date" = Some date).
  { unfold getitem in Ed. by destruct (columns df !! "date"); simplify_eq. }
  assert (Hc : columns df !! "embalse_codigo" = Some codigo).
  { unfold getitem in Ec. by destruct (columns df !! "embalse_codigo"); simplify_eq. }
  assert (Hlk : length keys = nrows df).
  { unfold keys. rewrite length_zip_with.
    pose proof (Hwf _ _ Hd) as H1. pose proof (Hwf _ _ Hc) as H2.
    unfold column_length in *. lia. }
  set (n' := length (select mask keys)).
  assert (Hrows : nrows (getitem_mask df mask) = n').
  { rewrite nrows_getitem_mask. apply length_select. unfold nrows in Hlk. lia. }
  assert (Hwf' : frame_wf (getitem_mask df mask)).
  { intros col c' Hc'. cbn in Hc'. rewrite lookup_fmap in Hc'.
    destruct (columns df !! col) as [c|] eqn:E; [|done]. injection Hc' as <-.
    rewrite column_length_select, Hrows. apply length_select.
    pose proof (Hwf _ _ E) as H. unfold column_length in H. lia. }
  destruct (select_first_occurrences keys []) as [Hnd _]. simpl in Hnd.
  split; [|split; [done|]].
  - unfold ReservoirDataCleaner.remove_duplicates.
    rewrite (getitem_getitem_mask _ _ _ _ Hd), (getitem_getitem_mask _ _ _ _ Hc).
    cbn [bind].
    rewrite !cells_column_rows_select, <- select_zip. fold keys.
    unfold ReservoirDataCleaner.duplicated.
    rewrite duplicated_from_NoDup; [|exact Hnd|by intros k _ ?%elem_of_nil].
    fold n'. rewrite fmap_replicate. simpl.
    assert (Hid : getitem_mask (getitem_mask df mask) (replicate n' true)
                  = getitem_mask df mask).
    { unfold getitem_mask at 1. unfold frame_rows.
      set (d := getitem_mask df mask) in *. destruct d as [idx cols] eqn:Edf.
      simpl. f_equal.
      - unfold nrows in Hrows. simpl in Hrows.
        destruct idx as [l|l]; simpl in *; rewrite length_fmap in Hrows;
          f_equal; apply select_all; lia.
      - apply map_eq. intros col. rewrite lookup_fmap.
        destruct (cols !! col) as [c|] eqn:E; simpl; [|done]. f_equal.
        pose proof (Hwf' col c E) as Hlen. rewrite Hrows in Hlen.
        unfold column_length in Hlen.
        destruct c as [v|v|v]; simpl in *; rewrite length_fmap in Hlen;
          f_equal; apply select_all; lia. }
    rewrite Hid. by rewrite Nat.sub_diag.
  - rewrite Hrows. pose proof (length_select_mono (replicate (length keys) true) mask keys).
    assert (n' ≤ nrows df)%nat as Hle.
    { rewrite <- Hlk. unfold n'. clear. generalize mask.
      induction keys as [|k keys IH]; intros [|b m]; simpl; try lia.
      specialize (IH m). destruct b; simpl; lia. }
    destruct (0 <? nrows df - n')%nat eqn:E.
    + apply Nat.ltb_lt in E. split; [done|lia].
    + apply Nat.ltb_ge in E. split; [lia|done].
Qed.

Lemma remove_duplicates_idempotent_witness :
  ReservoirDataCleaner.remove_duplicates
    (getitem_mask duplicate_sample [true; false; true; false])
  = Ok (getitem_mask duplicate_sample [true; false; true; false], None)
  ∧ frame_wf (getitem_mask duplicate_sample [true; false; true; false])
  ∧ (Some 2%nat = None
     ↔ nrows (getitem_mask duplicate_sample [true; false; true; false])
       = nrows duplicate_sample).
Proof.
  apply (remove_duplicates_idempotent duplicate_sample).
  - apply (bool_decide_unpack _). vm_compute. reflexivity.
  - vm_compute. reflexivity.
Defined.

(** ** Accuracy and monotonicity of rounding *)

Lemma rint_cases x :
  let f := Qfloor x in
  (ReservoirDataCleaner.rint x = f
   ∧ ((x - inject_Z f < 1 # 2)%Q ∨ ((x - inject_Z f == 1 # 2)%Q ∧ Z.even f = true)))
  ∨ (ReservoirDataCleaner.rint x = f + 1
     ∧ ((1 # 2 < x - inject_Z f)%Q ∨ ((x - inject_Z f == 1 # 2)%Q ∧ Z.even f = false))).
Proof.
  intros f. unfold ReservoirDataCleaner.rint. fold f.
  destruct (x - inject_Z f ?= 1 # 2)%Q eqn:E.
  - apply Qeq_alt in E. destruct (Z.even f) eqn:Ev; [left|right]; auto.
  - apply Qlt_alt in E. left. auto.
  - apply Qgt_alt in E. right. auto.
Qed.


Lemma rint_monotone x y : (x <= y)%Q → ReservoirDataCleaner.rint x ≤ ReservoirDataCleaner.rint y.
Proof.
  intros Hxy. pose proof (Qfloor_resp_le _ _ Hxy) as Hf.
  destruct (rint_cases x) as [[-> Hx]|[-> Hx]], (rint_cases y) as [[-> Hy]|[-> Hy]];
    try lia.
  destruct (decide (Qfloor x = Qfloor y)) as [Heq|Hne]; [|lia].
  exfalso. rewrite Heq in Hx.
  destruct Hx as [Hx|[Hx Hex]], Hy as [Hy|[Hy Hey]]; try lra. congruence.
Qed.

Lemma round_float_monotone d x y :
  (x <= y)%Q → (ReservoirDataCleaner.round_float d x <= ReservoirDataCleaner.round_float d y)%Q.
Proof.
  intros Hxy. unfold ReservoirDataCleaner.round_float, Qle. simpl.
  apply Z.mul_le_mono_nonneg_r; [lia|]. apply rint_monotone.
  apply Qmult_le_compat_r; [done|]. unfold Qle. simpl. lia.
Qed.



(** * Cleaning followed by validation *)

Lemma select_sublist {A} (m1 m2 : list bool) (l : list A) :
  Forall2 (λ b2 b1, b2 = true → b1 = true) m2 m1 →
  select m2 l `sublist_of` select m1 l.
Proof.
  intros H. revert l. induction H as [|b2 b1 m2 m1 Hb _ IH]; intros l.
  - apply sublist_nil_l.
  - destruct l as [|x l]; [done|].
    specialize (IH l). destruct b2, b1; simpl.
    + by apply sublist_skip.
    + by discriminate Hb.
    + by apply sublist_cons.
    + done.
Qed.

Lemma mask_or_mono (a1 a2 b1 b2 : list bool) :
  Forall2 (λ b2 b1, b2 = true → b1 = true) a2 a1 →
  Forall2 (λ b2 b1, b2 = true → b1 = true) b2 b1 →
  Forall2 (λ b2 b1, b2 = true → b1 = true) (mask_or a2 b2) (mask_or a1 b1).
Proof.
  intros Ha. revert b1 b2. induction Ha as [|x2 x1 a2 a1 Hx _ IH]; intros b1 b2 Hb.
  - destruct Hb; constructor.
  - destruct Hb as [|y2 y1 b2 b1 Hy Hb]; [constructor|].
    unfold mask_or. simpl. constructor; [|by apply IH].
    destruct x2, x1, y2, y1; simpl; auto.
Qed.

Lemma cell_gt_num (x y : option Q) :
  cell_gt ((λ q, CNum (Qred q)) <$> x) ((λ q, CNum (Qred q)) <$> y) = gt_opt x y.
Proof.
  destruct x as [x|], y as [y|]; simpl; try done.
  unfold Qltb.
  assert (H : (Qred x ?= Qred y)%Q = (x ?= y)%Q)
    by (apply Qcompare_comp; apply Qred_correct).
  rewrite H, <- (Qcompare_antisym x y).
  by destruct (x ?= y)%Q.
Qed.

Lemma series_gt_float (a b : list (option Q)) :
  series_gt (Float64 a) (Float64 b) = Ok (zip_with gt_opt a b).
Proof.
  unfold series_gt, cells. f_equal.
  revert b. induction a as [|x a IH]; intros [|y b]; csimpl; try done.
  by rewrite cell_gt_num, IH.
Qed.

(** Rounding both sides of a comparison to the same number of decimals never
    turns "not greater" into "greater". *)
Lemma gt_round_mono d (a b : list (option Q)) :
  Forall2 (λ b2 b1, b2 = true → b1 = true)
    (zip_with gt_opt (fmap (M := option) (ReservoirDataCleaner.round_float d) <$> a)
                     (fmap (M := option) (ReservoirDataCleaner.round_float d) <$> b))
    (zip_with gt_opt a b).
Proof.
  revert b. induction a as [|x a IH]; intros [|y b]; csimpl; try constructor; [|done].
  rewrite !gt_opt_true. intros (x' & y' & Hx & Hy & Hlt).
  destruct x as [x|], y as [y|]; simplify_eq/=.
  exists x, y. split; [done|]. split; [done|].
  apply Qnot_le_lt. intros Hle.
  apply (Qlt_not_le _ _ Hlt). by apply round_float_monotone.
Qed.

Lemma flags_fewer_insert name l' l acc' acc :
  l' `sublist_of` l → flags_fewer acc' acc →
  flags_fewer (<[name := l']> acc') (<[name := l]> acc).
Proof.
  intros Hl Hacc rule. rewrite !lookup_insert.
  destruct (decide (name = rule)); [done | apply Hacc].
Qed.

Lemma rounded_in_clean parse_float df k d :
  k ∈ ReservoirDataCleaner.numeric_columns →
  ReservoirDataCleaner.precision k = Some d →
  (∀ c, columns df !! k = Some c → ReservoirDataCleaner.is_numeric c = true) →
  rounded_in d df (ReservoirDataCleaner.clean_numeric_columns parse_float df) k.
Proof.
  intros Hk Hd Hnum. unfold rounded_in, ReservoirDataCleaner.clean_numeric_columns.
  rewrite clean_columns_lookup, decide_True by done.
  destruct (columns df !! k) as [c|]; [|done].
  specialize (Hnum c eq_refl). destruct c; try done.
  simpl. unfold clean_series. by rewrite Hd.
Qed.

(** One three-field rule of [validate_weather_consistency] on a frame and on
    its rounded counterpart. *)
Lemma triad_rule d df df' a b c name acc acc' :
  index df' = index df →
  rounded_in d df df' a → rounded_in d df df' b → rounded_in d df df' c →
  flags_fewer acc' acc →
  ∃ r r',
    (if has_columns df [a; b; c] then
       let* tmin := getitem df a in
       let* tmed := getitem df b in
       let* tmax := getitem df c in
       let* m1 := series_gt tmin tmed in
       let* m2 := series_gt tmed tmax in
       Ok (<[name := index_where df (mask_or m1 m2)]> acc)
     else Ok acc) = Ok r
    ∧ (if has_columns df' [a; b; c] then
         let* tmin := getitem df' a in
         let* tmed := getitem df' b in
         let* tmax := getitem df' c in
         let* m1 := series_gt tmin tmed in
         let* m2 := series_gt tmed tmax in
         Ok (<[name := index_where df' (mask_or m1 m2)]> acc')
       else Ok acc') = Ok r'
    ∧ flags_fewer r' r.
Proof.
  unfold rounded_in, has_columns, getitem. intros Hidx Ha Hb Hc Hacc. cbn [forallb].
  destruct (columns df !! a) as [[va| |]|]; try done;
    destruct (columns df !! b) as [[vb| |]|]; try done;
    destruct (columns df !! c) as [[vc| |]|]; try done;
    rewrite Ha, Hb, Hc; cbn [bool_decide decide_rel andb bind];
    try (by eexists _, _).
  rewrite !bool_decide_true by (by eexists).
  cbn [andb]. rewrite !series_gt_float. cbn [bind].
  eexists _, _. split; [done|]. split; [done|].
  apply flags_fewer_insert; [|done].
  unfold index_where. rewrite Hidx.
  apply select_sublist, mask_or_mono; apply gt_round_mono.
Qed.

(** The two-field rule. *)
Lemma pair_rule d df df' a b name acc acc' :
  index df' = index df →
  rounded_in d df df' a → rounded_in d df df' b →
  flags_fewer acc' acc →
  ∃ r r',
    (if has_columns df [a; b] then
       let* w := getitem df a in
       let* wmax := getitem df b in
       let* m := series_gt w wmax in
       Ok (<[name := index_where df m]> acc)
     else Ok acc) = Ok r
    ∧ (if has_columns df' [a; b] then
         let* w := getitem df' a in
         let* wmax := getitem df' b in
         let* m := series_gt w wmax in
         Ok (<[name := index_where df' m]> acc')
       else Ok acc') = Ok r'
    ∧ flags_fewer r' r.
Proof.
  unfold rounded_in, has_columns, getitem. intros Hidx Ha Hb Hacc. cbn [forallb].
  destruct (columns df !! a) as [[va| |]|]; try done;
    destruct (columns df !! b) as [[vb| |]|]; try done;
    rewrite Ha, Hb; cbn [bool_decide decide_rel andb bind];
    try (by eexists _, _).
  rewrite !bool_decide_true by (by eexists).
  cbn [andb]. rewrite !series_gt_float. cbn [bind].
  eexists _, _. split; [done|]. split; [done|].
  apply flags_fewer_insert; [|done].
  unfold index_where. rewrite Hidx.
  apply select_sublist, gt_round_mono.
Qed.

(** When the weather fields that are present hold numbers, the weather check
    succeeds before and after cleaning, reports the same rules, and under
    each rule the rows flagged after cleaning are among the rows flagged
    before it: the fields a rule compares are rounded to the same number of
    decimals, so rounding creates no inconsistency. *)
Theorem cleaning_adds_no_weather_inconsistency
    (parse_float : string → option Q) (df : DataFrame) :
  Forall (λ col, ∀ c, columns df !! col = Some c →
                      ReservoirDataCleaner.is_numeric c = true)
    ["meteo_temp_min"; "meteo_temp_media"; "meteo_temp_max";
     "meteo_humedad_min"; "meteo_humedad_media"; "meteo_humedad_max";
     "meteo_vel_viento"; "meteo_vel_viento_max"] →
  ∃ r r',
    DataValidator.validate_weather_consistency df = Ok r
    ∧ DataValidator.validate_weather_consistency
        (ReservoirDataCleaner.clean_numeric_columns parse_float df) = Ok r'
    ∧ flags_fewer r' r.
Proof.
  intros H.
  set (df' := ReservoirDataCleaner.clean_numeric_columns parse_float df).
  assert (Hidx : index df' = index df) by apply clean_columns_index.
  rewrite !Forall_cons in H.
  destruct H as (H1 & H2 & H3 & H4 & H5 & H6 & H7 & H8 & _).
  assert (Hin : ∀ k, bool_decide (k ∈ ReservoirDataCleaner.numeric_columns) = true →
                    k ∈ ReservoirDataCleaner.numeric_columns)
    by (intros k; apply bool_decide_eq_true_1).
  apply (rounded_in_clean parse_float df "meteo_temp_min" 2 (Hin "meteo_temp_min" eq_refl) eq_refl) in H1.
  apply (rounded_in_clean parse_float df "meteo_temp_media" 2 (Hin "meteo_temp_media" eq_refl) eq_refl) in H2.
  apply (rounded_in_clean parse_float df "meteo_temp_max" 2 (Hin "meteo_temp_max" eq_refl) eq_refl) in H3.
  apply (rounded_in_clean parse_float df "meteo_humedad_min" 1 (Hin "meteo_humedad_min" eq_refl) eq_refl) in H4.
  apply (rounded_in_clean parse_float df "meteo_humedad_media" 1 (Hin "meteo_humedad_media" eq_refl) eq_refl) in H5.
  apply (rounded_in_clean parse_float df "meteo_humedad_max" 1 (Hin "meteo_humedad_max" eq_refl) eq_refl) in H6.
  apply (rounded_in_clean parse_float df "meteo_vel_viento" 2 (Hin "meteo_vel_viento" eq_refl) eq_refl) in H7.
  apply (rounded_in_clean parse_float df "meteo_vel_viento_max" 2 (Hin "meteo_vel_viento_max" eq_refl) eq_refl) in H8.
  fold df' in H1, H2, H3, H4, H5, H6, H7, H8. clearbody df'.
  unfold DataValidator.validate_weather_consistency. cbv zeta.
  destruct (triad_rule 2 df df' "meteo_temp_min" "meteo_temp_media" "meteo_temp_max"
              "temperature_order" ∅ ∅ Hidx H1 H2 H3) as (r1 & r1' & E1 & E1' & F1);
    [by intros rule; rewrite lookup_empty|].
  rewrite E1, E1'. cbn [bind].
  destruct (triad_rule 1 df df' "meteo_humedad_min" "meteo_humedad_media"
              "meteo_humedad_max" "humidity_order" r1 r1' Hidx H4 H5 H6 F1)
    as (r2 & r2' & E2 & E2' & F2).
  rewrite E2, E2'. cbn [bind].
  destruct (pair_rule 2 df df' "meteo_vel_viento" "meteo_vel_viento_max"
              "wind_speed_order" r2 r2' Hidx H7 H8 F2) as (r3 & r3' & E3 & E3' & F3).
  rewrite E3, E3'. cbn [bind].
  by exists r3, r3'.
Qed.

Lemma cleaning_adds_no_weather_inconsistency_witness :
  ∃ r r',
    DataValidator.validate_weather_consistency validator_sample = Ok r
    ∧ DataValidator.validate_weather_consistency
        (ReservoirDataCleaner.clean_numeric_columns (λ _, None) validator_sample) = Ok r'
    ∧ flags_fewer r' r.
Proof.
  apply (cleaning_adds_no_weather_inconsistency (λ _, None) validator_sample).
  repeat constructor; vm_compute; intros c [= <-]; reflexivity.
Defined.

(** * Further properties of the validator *)

(** ** Completeness percentages *)

Lemma count_notna_le {A} (v : list (option A)) :
  (length (filter (λ b, b = true) (notna v)) ≤ length v)%nat.
Proof.
  unfold notna. etransitivity; [apply length_filter|]. by rewrite length_fmap.
Qed.

Lemma count_notna_all {A} (v : list (option A)) :
  length (filter (λ b, b = true) (notna v)) = length v ↔ Forall is_Some v.
Proof.
  induction v as [|x v IH]; [by split|].
  pose proof (count_notna_le v) as Hle.
  unfold notna in *. rewrite fmap_cons, Forall_cons.
  destruct x as [x|].
  - rewrite filter_cons_True by done. cbn [length]. split.
    + intros [= H]. split; [by eexists | by apply IH].
    + intros [_ H]. f_equal. by apply IH.
  - rewrite filter_cons_False by done. cbn [length]. split.
    + intros H. lia.
    + by intros [[? [=]] _].
Qed.

Lemma percentage_bounds (k n : nat) :
  (0 < n)%nat → (k ≤ n)%nat →
  let p := (inject_Z (Z.of_nat k) / inject_Z (Z.of_nat n) * 100)%Q in
  (0 <= p)%Q ∧ (p <= 100)%Q ∧ ((p == 100)%Q ↔ k = n).
Proof.
  intros Hn Hk. cbv zeta.
  assert (Hn' : (0 < inject_Z (Z.of_nat n))%Q) by (unfold Qlt; simpl; lia).
  assert (H0 : (0 <= inject_Z (Z.of_nat k) / inject_Z (Z.of_nat n))%Q).
  { apply Qle_shift_div_l; [done|]. unfold Qle. simpl. lia. }
  assert (H1 : (inject_Z (Z.of_nat k) / inject_Z (Z.of_nat n) <= 1)%Q).
  { apply Qle_shift_div_r; [done|]. unfold Qle. simpl. lia. }
  assert (Hx : (inject_Z (Z.of_nat k) / inject_Z (Z.of_nat n) * inject_Z (Z.of_nat n)
                == inject_Z (Z.of_nat k))%Q).
  { rewrite Qmult_comm. apply Qmult_div_r. intros Hz. rewrite Hz in Hn'.
    by apply Qlt_irrefl in Hn'. }
  assert (He : (inject_Z (Z.of_nat k) / inject_Z (Z.of_nat n) == 1)%Q ↔ k = n).
  { rewrite <- Nat2Z.inj_iff, <- inject_Z_injective.
    generalize dependent (inject_Z (Z.of_nat k) / inject_Z (Z.of_nat n))%Q.
    intros x _ _ Hx. split; intros H.
    - rewrite <- Hx. rewrite H. ring.
    - apply (Qmult_inj_r x 1 (inject_Z (Z.of_nat n))).
      + intros Hz. rewrite Hz in Hn'. by apply Qlt_irrefl in Hn'.
      + rewrite Hx, H. ring. }
  generalize dependent (inject_Z (Z.of_nat k) / inject_Z (Z.of_nat n))%Q.
  intros x H0 H1 _ He. split; [lra|]. split; [lra|]. rewrite <- He. split; intros H; lra.
Qed.

(** The completeness report has one entry per column.  On a well-formed
    frame with at least one row every entry is a percentage between 0 and
    100, and it is 100 exactly when the column has no missing value; on a
    frame without rows every entry is nan. *)
Theorem check_data_completeness_bounds (df : DataFrame) :
  frame_wf df →
  (∀ col, DataValidator.check_data_completeness df !! col = None
          ↔ columns df !! col = None)
  ∧ ∀ col c, columns df !! col = Some c →
      if (nrows df =? 0)%nat
      then DataValidator.check_data_completeness df !! col = Some None
      else ∃ p, DataValidator.check_data_completeness df !! col = Some (Some p)
             ∧ (0 <= p)%Q ∧ (p <= 100)%Q
             ∧ ((p == 100)%Q ↔ Forall is_Some (cells c)).
Proof.
  intros Hwf. unfold DataValidator.check_data_completeness. split.
  - intros col. rewrite lookup_fmap. by destruct (columns df !! col).
  - intros col c Hc. rewrite lookup_fmap, Hc. simpl.
    destruct (nrows df =? 0)%nat eqn:En; [done|].
    apply Nat.eqb_neq in En.
    specialize (Hwf col c Hc). simpl in Hwf. unfold column_length in Hwf.
    pose proof (count_notna_le (cells c)) as Hle.
    pose proof (count_notna_all (cells c)) as Hall.
    rewrite Hwf in Hle, Hall.
    destruct (percentage_bounds _ (nrows df) ltac:(lia) Hle) as (H0 & H1 & He).
    eexists. split; [done|]. split; [done|]. split; [done|].
    by rewrite He.
Qed.

Lemma check_data_completeness_bounds_witness :
  (∀ col, DataValidator.check_data_completeness cleaner_sample !! col = None
          ↔ columns cleaner_sample !! col = None)
  ∧ ∀ col c, columns cleaner_sample !! col = Some c →
      if (nrows cleaner_sample =? 0)%nat
      then DataValidator.check_data_completeness cleaner_sample !! col = Some None
      else ∃ p, DataValidator.check_data_completeness cleaner_sample !! col = Some (Some p)
             ∧ (0 <= p)%Q ∧ (p <= 100)%Q
             ∧ ((p == 100)%Q ↔ Forall is_Some (cells c)).
Proof.
  apply (check_data_completeness_bounds cleaner_sample).
  apply (bool_decide_unpack _). vm_compute. reflexivity.
Defined.

(** ** Storage percentages out of bounds *)

Lemma lookup_mask_or_true (m1 m2 : list bool) i :
  mask_or m1 m2 !! i = Some true
  ↔ ∃ b1 b2, m1 !! i = Some b1 ∧ m2 !! i = Some b2 ∧ (b1 = true ∨ b2 = true).
Proof.
  unfold mask_or. rewrite lookup_zip_with_Some. split.
  - intros (b1 & b2 & Hb & H1 & H2). exists b1, b2.
    split; [done|]. split; [done|]. destruct b1, b2; auto.
  - intros (b1 & b2 & H1 & H2 & Hb). exists b1, b2.
    split; [|done]. destruct Hb as [-> | ->]; [done|]. by destruct b1.
Qed.

(** On a dataset with storage-percentage, entity and date columns the
    reservoir check returns exactly two lists.  The out-of-bounds list holds,
    in the order of the dataset itself, the labels of the rows whose
    percentage is present and below 0 or above 100; a row without a
    percentage is never in it. *)
Theorem percentage_out_of_bounds_flagged
    (df : DataFrame) (pct : list (option Q)) (entity date : Column) :
  columns df !! "embalse_porcentaje" = Some (Float64 pct) →
  columns df !! "embalse_codigo" = Some entity →
  columns df !! "date" = Some date →
  ∃ r mask,
    DataValidator.check_reservoir_consistency df = Ok r
    ∧ (∀ k, is_Some (r !! k)
            ↔ k = "percentage_out_of_bounds" ∨ k = "extreme_percentage_changes")
    ∧ r !! "percentage_out_of_bounds" = Some (select mask (index_tolist (index df)))
    ∧ length mask = length pct
    ∧ ∀ i, mask !! i = Some true
           ↔ ∃ x, pct !! i = Some (Some x) ∧ ((x < 0)%Q ∨ (100 < x)%Q).
Proof.
  intros Hpct Hcod Hdate.
  unfold DataValidator.check_reservoir_consistency.
  rewrite (getitem_lookup _ _ _ Hpct). cbn [bind series_lt_scalar series_gt_scalar float_values].
  rewrite (sort_values_two _ _ _ _ _ Hcod Hdate). cbn [bind].
  unfold groupby_diff.
  rewrite (getitem_frame_rows _ _ _ _ Hcod), (getitem_frame_rows _ _ _ _ Hpct).
  cbn [bind column_rows float_values].
  rewrite getitem_setitem_eq. cbn [bind float_values].
  eexists _, _. split; [reflexivity|]. split; [|split; [|split]].
  - intros k. rewrite !lookup_insert.
    destruct (decide ("extreme_percentage_changes" = k)) as [<-|Hne1].
    { split; [auto | by eexists]. }
    destruct (decide ("percentage_out_of_bounds" = k)) as [<-|Hne2].
    { split; [auto | by eexists]. }
    rewrite lookup_empty. split; [by intros [? ?] | by intros [-> | ->]].
  - rewrite lookup_insert_ne by done. rewrite lookup_insert_eq. reflexivity.
  - unfold mask_or. rewrite length_zip_with, !length_fmap. lia.
  - intros i. rewrite lookup_mask_or_true, !list_lookup_fmap. split.
    + intros (b1 & b2 & H1 & H2 & Hb).
      destruct (pct !! i) as [[x|]|]; simplify_eq/=.
      * exists x. split; [done|]. unfold lt_opt in Hb. simpl in Hb.
        rewrite !Qltb_lt in Hb. done.
      * by destruct Hb.
    + intros (x & -> & Hx). simpl. eexists _, _. split; [done|]. split; [done|].
      unfold lt_opt. simpl. by rewrite !Qltb_lt.
Qed.

Lemma percentage_out_of_bounds_flagged_witness :
  ∃ r mask,
    DataValidator.check_reservoir_consistency jump_sample = Ok r
    ∧ (∀ k, is_Some (r !! k)
            ↔ k = "percentage_out_of_bounds" ∨ k = "extreme_percentage_changes")
    ∧ r !! "percentage_out_of_bounds" = Some (select mask (index_tolist (index jump_sample)))
    ∧ length mask = length [Some 45%Q; Some 50%Q; Some 55%Q; Some 120%Q; Some 60%Q]
    ∧ ∀ i, mask !! i = Some true
           ↔ ∃ x, [Some 45%Q; Some 50%Q; Some 55%Q; Some 120%Q; Some 60%Q] !! i = Some (Some x)
                  ∧ ((x < 0)%Q ∨ (100 < x)%Q).
Proof.
  apply (percentage_out_of_bounds_flagged jump_sample
           [Some 45%Q; Some 50%Q; Some 55%Q; Some 120%Q; Some 60%Q]
           (Object [Some "A"; Some "B"; Some "A"; Some "B"; Some "A"]%string)
           (Datetime64 five_days)).
  - reflexivity.
  - reflexivity.
  - reflexivity.
Defined.

(** ** Gaps between consecutive dates *)

Lemma take_pos_in_range {A} (pos : list nat) (v : list (option A)) :
  Forall (λ i, (i < length v)%nat) pos →
  take_pos pos v = (λ i, mjoin (v !! i)) <$> pos.
Proof.
  unfold take_pos. induction 1 as [|i pos Hi _ IH]; [done|].
  destruct (lookup_lt_is_Some_2 v i Hi) as [x Hx].
  csimpl. rewrite Hx. csimpl. by rewrite IH.
Qed.

Lemma sorted_dates (v : list (option Z)) :
  Sorted stamp_le (take_pos (argsort (length v) [cells (Datetime64 v)]) v).
Proof.
  rewrite take_pos_in_range.
  - eapply Sorted_fmap; [|apply argsort_Sorted].
    intros i j. unfold keys_leb, row_key. cbn [fmap list_fmap cells keys_compare].
    rewrite !list_lookup_fmap.
    destruct (v !! i) as [[x|]|], (v !! j) as [[y|]|]; simpl; try done.
    destruct (Z.compare_spec x y); simpl; try done; lia.
  - rewrite (argsort_Permutation (length v) [cells (Datetime64 v)]).
    apply Forall_forall. intros i Hi. apply elem_of_seq in Hi. lia.
Qed.

Lemma diff_from_sorted (prev : option Z) (l : list (option Z)) :
  Sorted stamp_le l →
  (∀ p x, prev = Some p → head l = Some (Some x) → p ≤ x) →
  Forall (λ d, ∀ x, d = Some x → 0 ≤ x) (diff_from prev l).
Proof.
  intros Hs. revert prev. induction Hs as [|a l Hs IH Hhd]; intros prev Hprev.
  - constructor.
  - cbn [diff_from]. constructor.
    + intros x Hx. destruct a as [y|], prev as [p|]; simplify_eq/=.
      specialize (Hprev p y eq_refl eq_refl). lia.
    + apply IH. intros p x -> Hx. destruct l as [|b l]; simplify_eq/=.
      by apply HdRel_inv in Hhd.
Qed.

Lemma dt_days_nonneg (l : list (option Z)) :
  Forall (λ d, ∀ x, d = Some x → 0 ≤ x) l →
  Forall (λ d, ∀ x, d = Some x → 0 ≤ x) (dt_days l).
Proof.
  unfold dt_days. induction 1 as [|d l Hd _ IH]; [constructor|].
  rewrite fmap_cons. constructor; [|done].
  intros x Hx. destruct d as [y|]; simplify_eq/=.
  apply Z.div_pos; [by apply Hd | by vm_compute].
Qed.

Lemma dropna_nonneg (l : list (option Z)) :
  Forall (λ d, ∀ x, d = Some x → 0 ≤ x) l → Forall (λ x, 0 ≤ x) (dropna l).
Proof.
  rewrite !Forall_forall. intros H x Hx. apply elem_of_dropna in Hx. by eapply H.
Qed.

Lemma series_max_nonneg (l : list (option Z)) g :
  Forall (λ d, ∀ x, d = Some x → 0 ≤ x) l → series_max l = Some g → 0 ≤ g.
Proof.
  intros H%dropna_nonneg. unfold series_max, list_max.
  destruct (dropna l) as [|x l']; [done|]. intros [= <-].
  apply Forall_cons in H as [Hx Hl]. rewrite Forall_forall in Hl.
  destruct (foldl_max_elem l' x) as [-> | Hin]; [done | by apply Hl].
Qed.

Lemma median_nonneg (l : list (option Z)) m :
  Forall (λ d, ∀ x, d = Some x → 0 ≤ x) l → median l = Some m → (0 <= m)%Q.
Proof.
  intros H%dropna_nonneg. unfold median.
  assert (Hs : Forall (λ x, 0 ≤ x) (Z_leb_sort (dropna l))).
  { unfold Z_leb_sort. by rewrite stable_sort_Permutation. }
  set (s := Z_leb_sort (dropna l)) in *. clearbody s.
  rewrite Forall_forall in Hs.
  assert (Hnn : ∀ k a, s !! k = Some a → (0 <= inject_Z a)%Q).
  { intros k a Hk. rewrite <- (Zle_Qle 0). by eapply Hs, list_elem_of_lookup_2. }
  destruct (length s =? 0)%nat; [done|].
  destruct (Nat.odd (length s)).
  - destruct (s !! (length s / 2)%nat) as [a|] eqn:Ea; [|done].
    intros [= <-]. by eapply Hnn.
  - destruct (s !! (length s / 2 - 1)%nat) as [a|] eqn:Ea; [|done].
    destruct (s !! (length s / 2)%nat) as [b|] eqn:Eb; [|done].
    simpl. intros [= <-].
    pose proof (Hnn _ _ Ea). pose proof (Hnn _ _ Eb).
    apply Qle_shift_div_l; [by vm_compute|]. lra.
Qed.

Lemma series_min_le_max (v : list (option Z)) a b :
  series_min v = Some a → series_max v = Some b → a ≤ b.
Proof.
  unfold series_min, series_max, list_min, list_max.
  destruct (dropna v) as [|x l]; [done|]. intros [= <-] [= <-].
  pose proof (foldl_min_le l x) as [? _]. pose proof (foldl_max_ge l x) as [? _]. lia.
Qed.

Lemma nunique_le_length (v : list (option Z)) : (nunique v ≤ length v)%nat.
Proof.
  unfold nunique. etransitivity; [|apply length_dropna_le].
  apply submseteq_length, NoDup_submseteq; [apply NoDup_remove_dups|].
  intros x. by rewrite elem_of_remove_dups.
Qed.

(** On a well-formed dataset with a column of dates the temporal check
    succeeds, and because the dates are sorted before they are differenced
    no gap is negative: neither the largest nor the median gap.  The time
    span is not negative either, the number of unique dates is at most the
    number of rows, so the number of duplicates is not negative, and the
    count of missing days is always zero. *)
Theorem check_temporal_consistency_gaps (df : DataFrame) (v : list (option Z)) :
  frame_wf df →
  columns df !! "date" = Some (Datetime64 v) →
  ∃ r, DataValidator.check_temporal_consistency df = Ok r
    ∧ DataValidator.missing_days r = 0
    ∧ (∀ g, DataValidator.max_gap_days r = Some g → 0 ≤ g)
    ∧ (∀ m, DataValidator.median_gap_days r = Some m → (0 <= m)%Q)
    ∧ (∀ d, DataValidator.total_days r = Some d → 0 ≤ d)
    ∧ (DataValidator.unique_dates r ≤ nrows df)%nat
    ∧ 0 ≤ DataValidator.duplicate_dates r.
Proof.
  intros Hwf Hdate.
  assert (Hlen : length v = nrows df).
  { specialize (Hwf _ _ Hdate). simpl in Hwf. unfold column_length in Hwf.
    simpl in Hwf. by rewrite length_fmap in Hwf. }
  unfold DataValidator.check_temporal_consistency.
  rewrite (sort_values_one _ _ _ Hdate). cbn [bind].
  rewrite (getitem_frame_rows _ _ _ _ Hdate). cbn [bind column_rows datetime_values].
  rewrite (getitem_lookup _ _ _ Hdate). cbn [bind datetime_values].
  eexists. split; [reflexivity|].
  cbn [DataValidator.missing_days DataValidator.max_gap_days
       DataValidator.median_gap_days DataValidator.total_days
       DataValidator.unique_dates DataValidator.duplicate_dates].
  assert (Hgaps : Forall (λ d, ∀ x, d = Some x → 0 ≤ x)
            (dt_days (diff (take_pos (argsort (nrows df) [cells (Datetime64 v)]) v)))).
  { apply dt_days_nonneg, diff_from_sorted; [|done].
    rewrite <- Hlen. apply sorted_dates. }
  pose proof (nunique_le_length v) as Hu.
  split; [done|]. split; [|split; [|split; [|split]]].
  - intros g. by apply series_max_nonneg.
  - intros m. by apply median_nonneg.
  - intros d.
    destruct (series_max v) as [b|] eqn:Eb; [|done].
    destruct (series_min v) as [a|] eqn:Ea; [|done].
    simpl. intros [= <-]. apply Z.div_pos; [|by vm_compute].
    pose proof (series_min_le_max _ _ _ Ea Eb). lia.
  - lia.
  - lia.
Qed.

Lemma check_temporal_consistency_gaps_witness :
  ∃ r, DataValidator.check_temporal_consistency validator_sample = Ok r
    ∧ DataValidator.missing_days r = 0
    ∧ (∀ g, DataValidator.max_gap_days r = Some g → 0 ≤ g)
    ∧ (∀ m, DataValidator.median_gap_days r = Some m → (0 <= m)%Q)
    ∧ (∀ d, DataValidator.total_days r = Some d → 0 ≤ d)
    ∧ (DataValidator.unique_dates r ≤ nrows validator_sample)%nat
    ∧ 0 ≤ DataValidator.duplicate_dates r.
Proof.
  apply (check_temporal_consistency_gaps validator_sample five_days).
  - apply (bool_decide_unpack _). vm_compute. reflexivity.
  - reflexivity.
Defined.

(** ** Outlier counts *)

Lemma length_filter_mono {A} (P1 P2 : A → Prop)
    `{∀ x, Decision (P1 x)} `{∀ x, Decision (P2 x)} (l : list A) :
  (∀ x, P2 x → P1 x) →
  (length (filter P2 l) ≤ length (filter P1 l))%nat.
Proof.
  intros Himp. induction l as [|x l IH]; [done|].
  destruct (decide (P2 x)) as [H2|H2].
  - rewrite (filter_cons_True P2) by done.
    rewrite (filter_cons_True P1) by auto. simpl. lia.
  - rewrite (filter_cons_False P2) by done.
    destruct (decide (P1 x)).
    + rewrite (filter_cons_True P1) by done. simpl. lia.
    + by rewrite (filter_cons_False P1).
Qed.

(** The two quartiles exist whatever the column holds, so counting the
    outliers of a column never fails; the count is at most the number of
    rows and does not grow with the threshold. *)
Lemma outlier_count_monotone (t1 t2 : Q) (v : list (option Q)) :
  (t1 <= t2)%Q →
  ∃ n1 n2,
    DataValidator.outlier_count t1 v = Ok n1
    ∧ DataValidator.outlier_count t2 v = Ok n2
    ∧ (n2 ≤ n1)%nat ∧ (n1 ≤ length v)%nat.
Proof.
  intros Ht. unfold DataValidator.outlier_count.
  destruct (quantile_monotone v (25 # 100) (75 # 100)) as (Q1 & Q3 & -> & -> & HQ);
    [by vm_compute..|].
  cbn [bind]. eexists _, _. split; [done|]. split; [done|]. split.
  - apply length_filter_mono. intros x Hx.
    apply orb_true_iff in Hx. apply orb_true_iff.
    destruct HQ as [[-> ->]|(a & b & -> & -> & Hab)].
    { destruct Hx as [Hx|Hx]; [left|right]; by destruct x. }
    destruct x as [x|]; [|by destruct Hx].
    unfold lt_opt in *. simpl in *. rewrite !Qltb_lt in *.
    destruct Hx as [Hx|Hx]; [left|right].
    + eapply Qlt_le_trans; [done|]. nra.
    + eapply Qle_lt_trans; [|done]. nra.
  - apply length_filter.
Qed.

Lemma detect_outliers_spec (df : DataFrame) (t : Q) :
  ∃ o, DataValidator._detect_outliers df t = Ok o
    ∧ ∀ col, match columns df !! col with
             | Some (Float64 v) =>
                 ∃ n, DataValidator.outlier_count t v = Ok n ∧ o !! col = Some n
             | _ => o !! col = None
             end.
Proof.
  unfold DataValidator._detect_outliers.
  apply (map_fold_weak_ind (λ acc (m : gmap string Column),
           ∃ o, acc = Ok o
             ∧ ∀ col, match m !! col with
                      | Some (Float64 v) =>
                          ∃ n, DataValidator.outlier_count t v = Ok n ∧ o !! col = Some n
                      | _ => o !! col = None
                      end)).
  - exists ∅. split; [done|]. intros col. by rewrite !lookup_empty.
  - intros col c m acc Hfresh (o & -> & Ho). cbn [bind].
    assert (Hocol : o !! col = None).
    { specialize (Ho col). by rewrite Hfresh in Ho. }
    destruct c as [v| |].
    + destruct (outlier_count_monotone t t v) as (n & _ & Hn & _); [apply Qle_refl|].
      rewrite Hn. cbn [bind]. eexists. split; [done|].
      intros col'. rewrite !lookup_insert.
      destruct (decide (col = col')) as [<-|Hne]; [eauto | apply Ho].
    + eexists. split; [done|]. intros col'. rewrite lookup_insert.
      destruct (decide (col = col')) as [<-|Hne]; [done | apply Ho].
    + eexists. split; [done|]. intros col'. rewrite lookup_insert.
      destruct (decide (col = col')) as [<-|Hne]; [done | apply Ho].
Qed.

(** Outlier detection never fails.  Its report has one count for each column
    of numbers and none for the other columns; a count is at most the length
    of its column, and raising the threshold never raises a count. *)
Theorem detect_outliers_monotone (df : DataFrame) (t1 t2 : Q) :
  (t1 <= t2)%Q →
  ∃ o1 o2,
    DataValidator._detect_outliers df t1 = Ok o1
    ∧ DataValidator._detect_outliers df t2 = Ok o2
    ∧ (∀ col, is_Some (o1 !! col) ↔ ∃ v, columns df !! col = Some (Float64 v))
    ∧ ∀ col v, columns df !! col = Some (Float64 v) →
        ∃ n1 n2, o1 !! col = Some n1 ∧ o2 !! col = Some n2
          ∧ (n2 ≤ n1)%nat ∧ (n1 ≤ length v)%nat.
Proof.
  intros Ht.
  destruct (detect_outliers_spec df t1) as (o1 & E1 & H1).
  destruct (detect_outliers_spec df t2) as (o2 & E2 & H2).
  exists o1, o2. split; [done|]. split; [done|]. split.
  - intros col. specialize (H1 col).
    destruct (columns df !! col) as [[v| |]|].
    + destruct H1 as (n & _ & ->). split; [eauto|by eexists].
    + rewrite H1. split; [by intros ?%is_Some_None | by intros [? ?]].
    + rewrite H1. split; [by intros ?%is_Some_None | by intros [? ?]].
    + rewrite H1. split; [by intros ?%is_Some_None | by intros [? ?]].
  - intros col v Hv. specialize (H1 col). specialize (H2 col). rewrite Hv in H1, H2.
    destruct H1 as (n1 & Hn1 & ->), H2 as (n2 & Hn2 & ->).
    destruct (outlier_count_monotone t1 t2 v Ht) as (m1 & m2 & Hm1 & Hm2 & Hle & Hlen).
    exists n1, n2. split; [done|]. split; [done|]. rewrite Hn1 in Hm1. rewrite Hn2 in Hm2.
    simplify_eq. by split.
Qed.

Lemma detect_outliers_monotone_witness :
  ∃ o1 o2,
    DataValidator._detect_outliers validator_sample (15 # 10) = Ok o1
    ∧ DataValidator._detect_outliers validator_sample 3 = Ok o2
    ∧ (∀ col, is_Some (o1 !! col)
              ↔ ∃ v, columns validator_sample !! col = Some (Float64 v))
    ∧ ∀ col v, columns validator_sample !! col = Some (Float64 v) →
        ∃ n1 n2, o1 !! col = Some n1 ∧ o2 !! col = Some n2
          ∧ (n2 ≤ n1)%nat ∧ (n1 ≤ length v)%nat.
Proof.
  apply (detect_outliers_monotone validator_sample (15 # 10) 3).
  vm_compute. discriminate.
Defined.

(** * Further properties of the analyzer *)

(** ** The Mann-Kendall statistic *)

Lemma sign_compare (x y : Q) :
  ExploratoryAnalyzer.sign (y - x)
  = match (x ?= y)%Q with Lt => 1 | Eq => 0 | Gt => -1 end.
Proof.
  unfold ExploratoryAnalyzer.sign, Qcompare. simpl.
  destruct (Z.compare_spec (Qnum x * Z.pos (Qden y)) (Qnum y * Z.pos (Qden x)))
    as [H|H|H].
  - apply Z.sgn_null_iff. lia.
  - apply Z.sgn_pos_iff. lia.
  - apply Z.sgn_neg_iff. lia.
Qed.

Lemma sign_opp (x y : Q) :
  ExploratoryAnalyzer.sign (x - y) = - ExploratoryAnalyzer.sign (y - x).
Proof.
  unfold ExploratoryAnalyzer.sign. rewrite <- Z.sgn_opp. f_equal. simpl. lia.
Qed.

Lemma sign_bounds (q : Q) : -1 ≤ ExploratoryAnalyzer.sign q ≤ 1.
Proof.
  unfold ExploratoryAnalyzer.sign. destruct (Z.sgn_spec (Qnum q)) as [[_ ->]|[[_ ->]|[_ ->]]]; lia.
Qed.

Lemma sum_Z_cons (a : Z) (l : list Z) : sum_Z (a :: l) = a + sum_Z l.
Proof. reflexivity. Qed.

Lemma nth_seq_fmap (l : list Q) : (λ j, nth j l 0%Q) <$> seq 0 (length l) = l.
Proof.
  induction l as [|x l IH]; [done|].
  cbn [length seq]. rewrite fmap_cons, <- fmap_S_seq, <- list_fmap_compose.
  cbn [nth]. by rewrite <- IH at 2.
Qed.

Lemma pairs_before_after (n : nat) :
  pairs_before n = seq 0 n ≫= (λ i, (λ j, (i, j)) <$> seq (i + 1) (n - (i + 1))).
Proof.
  unfold pairs_before. apply list_bind_ext; [|done]. intros i. apply pairs_after_range.
Qed.

Lemma pairs_before_S (m : nat) :
  pairs_before (S m)
  = ((λ j, (0%nat, S j)) <$> seq 0 m) ++ ((λ p, (S p.1, S p.2)) <$> pairs_before m).
Proof.
  rewrite !pairs_before_after. cbn [seq]. rewrite bind_cons. f_equal.
  - cbn [Nat.add]. replace (S m - 1)%nat with m by lia.
    by rewrite <- fmap_S_seq, <- list_fmap_compose.
  - rewrite <- fmap_S_seq, list_fmap_bind.
    induction (seq 0 m) as [|i l IH]; [done|].
    rewrite !bind_cons, fmap_app, IH. f_equal.
    cbn [compose]. replace (S m - (S i + 1))%nat with (m - (i + 1))%nat by lia.
    replace (S i + 1)%nat with (S (i + 1)) by lia.
    by rewrite <- fmap_S_seq, <- !list_fmap_compose.
Qed.

(** The statistic of a series is the statistic of its tail plus the signs
    of the differences between the head and each later value. *)
Lemma mann_kendall_S_cons (x : Q) (l : list Q) :
  ExploratoryAnalyzer.mann_kendall_S (x :: l)
  = sum_Z ((λ y, ExploratoryAnalyzer.sign (y - x)) <$> l)
    + ExploratoryAnalyzer.mann_kendall_S l.
Proof.
  rewrite !mann_kendall_S_sum_sign_pairs. unfold sum_sign_pairs.
  cbn [length]. rewrite pairs_before_S, fmap_app, sum_Z_app. f_equal.
  - rewrite <- list_fmap_compose.
    rewrite <- (nth_seq_fmap l) at 2. by rewrite <- list_fmap_compose.
  - by rewrite <- list_fmap_compose.
Qed.

Lemma mann_kendall_S_snoc (l : list Q) (x : Q) :
  ExploratoryAnalyzer.mann_kendall_S (l ++ [x])
  = ExploratoryAnalyzer.mann_kendall_S l
    + sum_Z ((λ y, ExploratoryAnalyzer.sign (x - y)) <$> l).
Proof.
  induction l as [|a l IH].
  - reflexivity.
  - rewrite <- app_comm_cons, !mann_kendall_S_cons, IH, !fmap_app, sum_Z_app.
    rewrite !fmap_cons, !sum_Z_cons, fmap_nil. change (sum_Z []) with 0. lia.
Qed.

Lemma sum_Z_reverse (l : list Z) : sum_Z (reverse l) = sum_Z l.
Proof.
  induction l as [|a l IH]; [done|].
  rewrite reverse_cons, sum_Z_app, IH, !sum_Z_cons. change (sum_Z []) with 0. lia.
Qed.

Lemma sum_Z_sign_bounds (f : Q → Q) (l : list Q) :
  - Z.of_nat (length l) ≤ sum_Z ((λ y, ExploratoryAnalyzer.sign (f y)) <$> l)
                        ≤ Z.of_nat (length l).
Proof.
  induction l as [|a l IH]; [done|].
  rewrite fmap_cons, sum_Z_cons. cbn [length].
  pose proof (sign_bounds (f a)). lia.
Qed.

Lemma mann_kendall_S_bounds (values : list Q) :
  - (Z.of_nat (length values) * (Z.of_nat (length values) - 1))
  ≤ 2 * ExploratoryAnalyzer.mann_kendall_S values
  ≤ Z.of_nat (length values) * (Z.of_nat (length values) - 1).
Proof.
  induction values as [|x l IH]; [done|].
  rewrite mann_kendall_S_cons. cbn [length].
  pose proof (sum_Z_sign_bounds (λ y, y - x)%Q l) as Hb. cbv beta in Hb.
  rewrite Nat2Z.inj_succ. nia.
Qed.

(** The statistic lies between [-n(n-1)/2] and [n(n-1)/2], and it changes
    sign when the series is read backwards: so does the direction of the
    trend reported. *)
Theorem mann_kendall_S_bounds_reverse (values : list Q) :
  let n := Z.of_nat (length values) in
  let S := ExploratoryAnalyzer.mann_kendall_S values in
  - (n * (n - 1)) ≤ 2 * S ≤ n * (n - 1)
  ∧ ExploratoryAnalyzer.mann_kendall_S (reverse values) = - S
  ∧ (ExploratoryAnalyzer.mann_kendall_trend S = "increasing"
     ↔ ExploratoryAnalyzer.mann_kendall_trend
         (ExploratoryAnalyzer.mann_kendall_S (reverse values)) = "decreasing").
Proof.
  cbv zeta.
  assert (Hrev : ExploratoryAnalyzer.mann_kendall_S (reverse values)
                 = - ExploratoryAnalyzer.mann_kendall_S values).
  { induction values as [|x l IH]; [done|].
    rewrite reverse_cons, mann_kendall_S_snoc, mann_kendall_S_cons, IH.
    rewrite fmap_reverse, sum_Z_reverse.
    assert (H : sum_Z ((λ y, ExploratoryAnalyzer.sign (x - y)) <$> l)
                = - sum_Z ((λ y, ExploratoryAnalyzer.sign (y - x)) <$> l)).
    { clear IH. induction l as [|a l IHl]; [done|].
      rewrite !fmap_cons, !sum_Z_cons, IHl, (sign_opp x a). lia. }
    lia. }
  split; [|split; [done|]].
  - apply mann_kendall_S_bounds.
  - rewrite Hrev. unfold ExploratoryAnalyzer.mann_kendall_trend.
    destruct (Z.ltb_spec 0 (ExploratoryAnalyzer.mann_kendall_S values)) as [Hp|Hp].
    + rewrite (proj2 (Z.ltb_ge 0 _)) by lia.
      rewrite (proj2 (Z.ltb_lt _ 0)) by lia. done.
    + split; [by destruct (_ <? 0)|].
      destruct (Z.ltb_spec 0 (- ExploratoryAnalyzer.mann_kendall_S values)); [done|].
      destruct (Z.ltb_spec (- ExploratoryAnalyzer.mann_kendall_S values) 0); [lia|done].
Qed.

Lemma sum_Z_sign_max (x : Q) (l : list Q) :
  sum_Z ((λ y, ExploratoryAnalyzer.sign (y - x)) <$> l) = Z.of_nat (length l)
  ↔ Forall (Qlt x) l.
Proof.
  induction l as [|a l IH]; [by split|].
  rewrite fmap_cons, sum_Z_cons, Forall_cons. cbn [length]. rewrite Nat2Z.inj_succ.
  pose proof (sum_Z_sign_bounds (λ y, y - x)%Q l) as Hb. cbv beta in Hb.
  pose proof (sign_bounds (a - x)) as Ha.
  assert (Hs : ExploratoryAnalyzer.sign (a - x) = 1 ↔ (x < a)%Q).
  { rewrite sign_compare, Qlt_alt. by destruct (x ?= a)%Q. }
  split.
  - intros H. split; [apply Hs; lia | apply IH; lia].
  - intros [Hlt Hall]. apply Hs in Hlt. apply IH in Hall. lia.
Qed.

(** The statistic reaches its largest value [n(n-1)/2] exactly on the
    series that increase strictly. *)
Theorem mann_kendall_S_maximal (values : list Q) :
  let n := Z.of_nat (length values) in
  2 * ExploratoryAnalyzer.mann_kendall_S values = n * (n - 1)
  ↔ StronglySorted Qlt values.
Proof.
  cbv zeta. induction values as [|x l IH].
  - split; [constructor | done].
  - rewrite mann_kendall_S_cons. cbn [length]. rewrite Nat2Z.inj_succ.
    pose proof (sum_Z_sign_bounds (λ y, y - x)%Q l) as Hb. cbv beta in Hb.
    pose proof (mann_kendall_S_bounds l) as Hl.
    split.
    + intros H. constructor.
      * apply IH. nia.
      * apply sum_Z_sign_max. nia.
    + intros H. apply StronglySorted_inv in H as [Hs Hall].
      apply IH in Hs. apply sum_Z_sign_max in Hall. nia.
Qed.

(** The statistic depends only on the order of the values: a change of
    scale that preserves every comparison leaves it unchanged. *)
Theorem mann_kendall_S_order_only (f : Q → Q) (values : list Q) :
  (∀ x y, (f x ?= f y)%Q = (x ?= y)%Q) →
  ExploratoryAnalyzer.mann_kendall_S (f <$> values)
  = ExploratoryAnalyzer.mann_kendall_S values.
Proof.
  intros Hf. induction values as [|x l IH]; [done|].
  rewrite fmap_cons, !mann_kendall_S_cons, IH. f_equal.
  rewrite <- list_fmap_compose. f_equal. apply list_fmap_ext.
  intros _ y _. cbn [compose]. by rewrite !sign_compare, Hf.
Qed.

Lemma mann_kendall_S_order_only_witness :
  ExploratoryAnalyzer.mann_kendall_S ((λ x, 2 * x + 1)%Q <$> [3; 1; 2]%Q)
  = ExploratoryAnalyzer.mann_kendall_S [3; 1; 2]%Q.
Proof.
  apply (mann_kendall_S_order_only (λ x, 2 * x + 1)%Q [3; 1; 2]%Q).
  intros x y.
  destruct (Qcompare_spec x y), (Qcompare_spec (2 * x + 1) (2 * y + 1));
    try reflexivity; exfalso; lra.
Defined.

(** ** Extreme events: failures and the top percentile *)

(** The order in which the analysis fails: an unknown variable first, then a
    percentile outside [0, 100], then a dataset without rows, then a missing
    date column. *)
Theorem extreme_events_errors (data : DataFrame) (variable : string) (p : Q) :
  (columns data !! variable = None →
   ExploratoryAnalyzer.extreme_events_analysis data variable p = Err (KeyError variable))
  ∧ ∀ v, columns data !! variable = Some (Float64 v) →
      ((p < 0)%Q ∨ (100 < p)%Q →
       ExploratoryAnalyzer.extreme_events_analysis data variable p = Err ValueError)
      ∧ ((0 <= p)%Q → (p <= 100)%Q →
         (nrows data = 0%nat →
          ExploratoryAnalyzer.extreme_events_analysis data variable p
          = Err ZeroDivisionError)
         ∧ (nrows data ≠ 0%nat → columns data !! "date" = None →
            ExploratoryAnalyzer.extreme_events_analysis data variable p
            = Err (KeyError "date"))).
Proof.
  unfold ExploratoryAnalyzer.extreme_events_analysis. split.
  - intros H. by rewrite (getitem_missing _ _ H).
  - intros v Hv. rewrite (getitem_lookup _ _ _ Hv). cbn [bind float_values]. split.
    + intros Hp. unfold quantile.
      assert (Hg : Qle_bool 0 (p / 100) && Qle_bool (p / 100) 1 = false).
      { apply andb_false_iff. destruct Hp as [Hp|Hp]; [left|right].
        - apply not_true_is_false. rewrite Qle_bool_iff. intros H.
          assert (H1 : (p / 100 < 0 / 100)%Q).
          { unfold Qdiv. apply Qmult_lt_compat_r; [by vm_compute | done]. }
          apply (Qlt_irrefl 0). eapply Qle_lt_trans; [exact H|].
          eapply Qlt_le_trans; [exact H1 | by vm_compute].
        - apply not_true_is_false. rewrite Qle_bool_iff. intros H.
          assert (H1 : (100 / 100 < p / 100)%Q).
          { unfold Qdiv. apply Qmult_lt_compat_r; [by vm_compute | done]. }
          apply (Qlt_irrefl 1). eapply Qle_lt_trans; [|eapply Qlt_le_trans; [exact H1|exact H]].
          by vm_compute. }
      by rewrite Hg.
    + intros H0 H100.
      destruct (quantile_monotone v (p / 100) (p / 100)) as (t & _ & -> & _).
      { apply Qle_trans with (0 / 100)%Q; [by vm_compute | by apply Qdiv_100_le]. }
      { apply Qle_refl. }
      { apply Qle_trans with (100 / 100)%Q; [by apply Qdiv_100_le | by vm_compute]. }
      cbn [bind]. split.
      * intros ->. done.
      * intros Hn Hdate. apply Nat.eqb_neq in Hn. rewrite Hn. cbn [bind].
        unfold getitem_mask, getitem, frame_rows. cbn [columns].
        by rewrite lookup_fmap, Hdate.
Qed.

Lemma quantile_top (v : list (option Q)) :
  ∃ t, quantile v (100 / 100) = Ok t
       ∧ ∀ x, Some x ∈ v → ∃ t', t = Some t' ∧ (x <= t')%Q.
Proof.
  unfold quantile.
  change (Qle_bool 0 (100 / 100) && Qle_bool (100 / 100) 1) with true. cbn [negb].
  pose proof (Q_leb_sort_sorted (dropna v)) as Hs.
  assert (Hperm : Q_leb_sort (dropna v) ≡ₚ dropna v) by apply stable_sort_Permutation.
  set (s := Q_leb_sort (dropna v)) in *.
  destruct (Nat.eqb_spec (length s) 0) as [Hn|Hn].
  { eexists. split; [done|]. intros x Hx.
    apply elem_of_dropna in Hx. rewrite <- Hperm in Hx.
    destruct s; [by apply elem_of_nil in Hx | done]. }
  eexists. split; [done|]. intros x Hx. eexists. split; [done|].
  apply elem_of_dropna in Hx. rewrite <- Hperm in Hx.
  apply list_elem_of_lookup in Hx as [i Hi].
  pose proof (lookup_lt_Some _ _ _ Hi) as Hlt.
  set (N := inject_Z (Z.of_nat (length s - 1))).
  assert (Hh : (100 / 100 * N == N)%Q) by (change (100 / 100)%Q with (100 # 100)%Q; lra).
  assert (Hf : Qfloor (100 / 100 * N) = Z.of_nat (length s - 1)).
  { rewrite (Qfloor_comp _ _ Hh). apply Qfloor_Z. }
  rewrite Hf, Nat2Z.id.
  replace (Nat.min (length s - 1 + 1) (length s - 1)) with (length s - 1)%nat by lia.
  assert (Hx : (x <= nth (length s - 1) s 0)%Q).
  { rewrite <- (nth_lookup_Some _ _ 0%Q _ Hi).
    apply StronglySorted_nth_le; [done|lia|lia]. }
  clearbody N. generalize dependent (nth (length s - 1) s 0%Q).
  intros m Hm. rewrite Hh. lra.
Qed.

(** At the 100th percentile the threshold is the largest value, so no row is
    extreme: the count and the percentage are zero and the statistics of the
    extreme events are left out of the result. *)
Theorem extreme_events_top_percentile
    (data : DataFrame) (variable : string) (v : list (option Q)) (dates : list (option Z)) :
  columns data !! variable = Some (Float64 v) →
  columns data !! "date" = Some (Datetime64 dates) →
  nrows data ≠ 0%nat →
  ∃ r, ExploratoryAnalyzer.extreme_events_analysis data variable 100 = Ok r
    ∧ (∀ x, Some x ∈ v →
         ∃ t, ExploratoryAnalyzer.threshold r = Some t ∧ (x <= t)%Q)
    ∧ ExploratoryAnalyzer.num_extreme_events r = 0%nat
    ∧ (ExploratoryAnalyzer.extreme_percentage r == 0)%Q
    ∧ ExploratoryAnalyzer.extreme_mean r = None
    ∧ ExploratoryAnalyzer.extreme_max r = None
    ∧ ExploratoryAnalyzer.extreme_std r = None.
Proof.
  intros Hvar Hdate Hn.
  destruct (quantile_top v) as (t & Hq & Ht).
  assert (Hmask : (λ x, gt_opt x t) <$> v = replicate (length v) false).
  { clear Hq Hvar. induction v as [|o v IH]; [done|].
    rewrite fmap_cons. cbn [length replicate]. f_equal.
    - apply not_true_is_false. rewrite gt_opt_true.
      intros (a & b & -> & -> & Hlt).
      destruct (Ht a) as (t' & [= <-] & Hle); [left|]. lra.
    - apply IH. intros x Hx. apply Ht. by right. }
  assert (Hnone : ∀ A (l : list A) n, select (replicate n false) l = []).
  { intros A l n. revert l. induction n as [|n IH]; intros [|a l]; simpl; auto. }
  assert (H0 : nrows (getitem_mask data ((λ x, gt_opt x t) <$> v)) = 0%nat).
  { by rewrite nrows_getitem_mask, Hmask, Hnone. }
  unfold ExploratoryAnalyzer.extreme_events_analysis.
  rewrite (getitem_lookup _ _ _ Hvar). cbn [bind float_values]. rewrite Hq. cbn [bind].
  apply Nat.eqb_neq in Hn. rewrite Hn. cbn [bind].
  rewrite H0.
  unfold getitem_mask.
  rewrite (getitem_frame_rows _ _ _ _ Hdate). cbn [bind column_rows dt_values].
  rewrite (getitem_frame_rows _ _ _ _ Hvar). cbn [bind column_rows float_values].
  eexists. split; [reflexivity|].
  cbn [ExploratoryAnalyzer.threshold
    ExploratoryAnalyzer.num_extreme_events ExploratoryAnalyzer.extreme_percentage
    ExploratoryAnalyzer.extreme_mean ExploratoryAnalyzer.extreme_max
    ExploratoryAnalyzer.extreme_std].
  split; [done|]. split; [done|]. split; [|done].
  change (inject_Z (Z.of_nat 0)) with 0%Q. unfold Qdiv. ring.
Qed.

Lemma extreme_events_top_percentile_witness :
  ∃ r, ExploratoryAnalyzer.extreme_events_analysis extreme_sample "embalse_porcentaje" 100
       = Ok r
    ∧ (∀ x, Some x ∈ [Some 40%Q; Some 42%Q; None; Some 95%Q; Some 41%Q;
                      Some 43%Q; Some 97%Q; Some 44%Q; Some 45%Q; Some 46%Q] →
         ∃ t, ExploratoryAnalyzer.threshold r = Some t ∧ (x <= t)%Q)
    ∧ ExploratoryAnalyzer.num_extreme_events r = 0%nat
    ∧ (ExploratoryAnalyzer.extreme_percentage r == 0)%Q
    ∧ ExploratoryAnalyzer.extreme_mean r = None
    ∧ ExploratoryAnalyzer.extreme_max r = None
    ∧ ExploratoryAnalyzer.extreme_std r = None.
Proof.
  apply (extreme_events_top_percentile extreme_sample "embalse_porcentaje" _ ten_days).
  - reflexivity.
  - reflexivity.
  - vm_compute. lia.
Defined.

(** * Range validation *)

Lemma range_mask (min_val max_val : Z) (v : list (option Q)) :
  mask_or ((λ x, lt_opt x (Some (inject_Z min_val))) <$> v)
          ((λ x, gt_opt x (Some (inject_Z max_val))) <$> v)
  = outside min_val max_val <$> v.
Proof.
  unfold mask_or. induction v as [|o v IH]; [done|].
  rewrite !fmap_cons. cbn [zip_with]. rewrite IH. f_equal. by destruct o.
Qed.

Lemma mask_sum_fmap {A} (f : A → bool) (l : list A) :
  ReservoirDataCleaner.mask_sum (f <$> l) = length (filter (λ x, f x = true) l).
Proof.
  unfold ReservoirDataCleaner.mask_sum. induction l as [|x l IH]; [done|].
  rewrite fmap_cons. destruct (f x) eqn:E.
  - rewrite !filter_cons_True by done. cbn [length]. by rewrite IH.
  - rewrite !filter_cons_False by (by rewrite ?E). done.
Qed.

Lemma mask_any_sum (mask : list bool) :
  ReservoirDataCleaner.mask_any mask = (0 <? ReservoirDataCleaner.mask_sum mask)%nat.
Proof.
  unfold ReservoirDataCleaner.mask_any, ReservoirDataCleaner.mask_sum.
  induction mask as [|b m IH]; [done|]. destruct b.
  - rewrite filter_cons_True by done. done.
  - rewrite filter_cons_False by done. done.
Qed.

(** One iteration of the loop on a column of numbers, on a missing column and
    on a column that does not hold numbers. *)
Lemma validate_range_float df printed col min_val max_val v :
  columns df !! col = Some (Float64 v) →
  ReservoirDataCleaner.validate_range df printed (col, (min_val, max_val))
  = Ok (printed ++ if (0 <? out_of_range min_val max_val v)%nat
                   then [ReservoirDataCleaner.mkWarning
                           (out_of_range min_val max_val v) col min_val max_val]
                   else []).
Proof.
  intros Hc. unfold ReservoirDataCleaner.validate_range. rewrite Hc.
  cbn [series_lt_scalar series_gt_scalar float_values bind].
  rewrite range_mask, mask_any_sum, mask_sum_fmap. fold (out_of_range min_val max_val v).
  destruct (0 <? out_of_range min_val max_val v)%nat; [done|]. by rewrite app_nil_r.
Qed.

Lemma validate_range_missing df printed col r :
  columns df !! col = None →
  ReservoirDataCleaner.validate_range df printed (col, r) = Ok printed.
Proof.
  intros Hc. destruct r. unfold ReservoirDataCleaner.validate_range. by rewrite Hc.
Qed.

Lemma validate_range_not_numeric df printed col r c :
  columns df !! col = Some c → ReservoirDataCleaner.is_numeric c = false →
  ReservoirDataCleaner.validate_range df printed (col, r) = Err TypeError.
Proof.
  intros Hc Hn. destruct r. unfold ReservoirDataCleaner.validate_range. rewrite Hc.
  by destruct c.
Qed.

(** What the loop prints for one entry of the mapping. *)
Lemma validate_ranges_loop df (rs : list (string * (Z * Z))) printed :
  Forall (λ item, ∀ c, columns df !! item.1 = Some c →
                       ReservoirDataCleaner.is_numeric c = true) rs →
  foldR (ReservoirDataCleaner.validate_range df) rs printed
  = Ok (printed ++
        (rs ≫= λ item,
           match columns df !! item.1 with
           | Some (Float64 v) =>
               if (0 <? out_of_range item.2.1 item.2.2 v)%nat
               then [ReservoirDataCleaner.mkWarning
                       (out_of_range item.2.1 item.2.2 v) item.1 item.2.1 item.2.2]
               else []
           | _ => []
           end)).
Proof.
  intros H. revert printed. induction H as [|[col [lo hi]] rs Hc _ IH]; intros printed.
  - by rewrite app_nil_r.
  - cbn [foldR]. rewrite bind_cons. cbn [fst snd] in *.
    destruct (columns df !! col) as [c|] eqn:Ec.
    + specialize (Hc c eq_refl). destruct c as [v| |]; try done.
      rewrite (validate_range_float _ _ _ _ _ _ Ec). cbn [bind].
      by rewrite IH, app_assoc.
    + rewrite (validate_range_missing _ _ _ _ Ec). cbn [bind]. by rewrite IH.
Qed.

Lemma validate_ranges_loop_error df (rs : list (string * (Z * Z))) printed :
  Exists (λ item, ∃ c, columns df !! item.1 = Some c
                       ∧ ReservoirDataCleaner.is_numeric c = false) rs →
  foldR (ReservoirDataCleaner.validate_range df) rs printed = Err TypeError.
Proof.
  intros H. revert printed. induction rs as [|[col r] rs IH]; intros printed.
  - by apply Exists_nil in H.
  - cbn [foldR].
    destruct (columns df !! col) as [c|] eqn:Ec.
    + destruct (ReservoirDataCleaner.is_numeric c) eqn:En.
      * destruct c as [v| |]; try done. destruct r as [lo hi].
        rewrite (validate_range_float _ _ _ _ _ _ Ec). cbn [bind].
        apply IH. apply Exists_cons in H as [(c' & Hc' & Hn')|H]; [|done].
        cbn [fst] in Hc'. by simplify_eq.
      * by rewrite (validate_range_not_numeric _ _ _ _ _ Ec En).
    + rewrite (validate_range_missing _ _ _ _ Ec). cbn [bind].
      apply IH. apply Exists_cons in H as [(c' & Hc' & Hn')|H]; [|done].
      cbn [fst] in Hc'. by simplify_eq.
Qed.

(** When the ranged fields that are present hold numbers, range validation
    returns the dataset unchanged and prints one line for each ranged field
    that has a value outside its range, in the order of the mapping; the
    line gives the number of present values below the minimum or above the
    maximum.  Missing values are never counted and nothing is removed. *)
Theorem validate_ranges_warnings (df : DataFrame) :
  Forall (λ item, ∀ c, columns df !! item.1 = Some c →
                       ReservoirDataCleaner.is_numeric c = true)
    ReservoirDataCleaner.ranges →
  ∃ printed,
    ReservoirDataCleaner.validate_ranges df = Ok (df, printed)
    ∧ (ReservoirDataCleaner.column <$> printed)
        `sublist_of` ReservoirDataCleaner.ranges.*1
    ∧ ∀ w, w ∈ printed
        ↔ (ReservoirDataCleaner.column w,
           (ReservoirDataCleaner.range_min w, ReservoirDataCleaner.range_max w))
            ∈ ReservoirDataCleaner.ranges
          ∧ ∃ v, columns df !! ReservoirDataCleaner.column w = Some (Float64 v)
               ∧ ReservoirDataCleaner.count w
                 = out_of_range (ReservoirDataCleaner.range_min w)
                                (ReservoirDataCleaner.range_max w) v
               ∧ (0 < ReservoirDataCleaner.count w)%nat.
Proof.
  intros H. unfold ReservoirDataCleaner.validate_ranges.
  rewrite (validate_ranges_loop _ _ _ H). cbn [bind app].
  eexists. split; [reflexivity|].
  generalize ReservoirDataCleaner.ranges. intros rs. split.
  - induction rs as [|[col [lo hi]] rs IH]; [done|].
    rewrite bind_cons, fmap_app, fmap_cons. cbn [fst snd].
    destruct (columns df !! col) as [[v| |]|]; cbn [app fmap list_fmap];
      try (by apply sublist_cons).
    destruct (0 <? out_of_range lo hi v)%nat; cbn [app fmap list_fmap].
    + by apply sublist_skip.
    + by apply sublist_cons.
  - intros w. rewrite list_elem_of_bind. split.
    + intros ([col [lo hi]] & Hw & Hin). cbn [fst snd] in Hw.
      destruct (columns df !! col) as [[v| |]|] eqn:Ec;
        try (by apply elem_of_nil in Hw).
      destruct (Nat.ltb_spec 0 (out_of_range lo hi v)) as [Hpos|Hpos];
        [|by apply elem_of_nil in Hw].
      apply list_elem_of_singleton in Hw as ->. cbn. split; [done|]. eauto.
    + intros (Hin & v & Hv & Hn & Hpos). eexists. split; [|exact Hin].
      cbn [fst snd]. rewrite Hv, <- Hn.
      apply Nat.ltb_lt in Hpos. rewrite Hpos.
      apply list_elem_of_singleton. by destruct w; simplify_eq/=.
Qed.

Lemma validate_ranges_warnings_witness :
  ∃ printed,
    ReservoirDataCleaner.validate_ranges validator_sample = Ok (validator_sample, printed)
    ∧ (ReservoirDataCleaner.column <$> printed)
        `sublist_of` ReservoirDataCleaner.ranges.*1
    ∧ ∀ w, w ∈ printed
        ↔ (ReservoirDataCleaner.column w,
           (ReservoirDataCleaner.range_min w, ReservoirDataCleaner.range_max w))
            ∈ ReservoirDataCleaner.ranges
          ∧ ∃ v, columns validator_sample !! ReservoirDataCleaner.column w = Some (Float64 v)
               ∧ ReservoirDataCleaner.count w
                 = out_of_range (ReservoirDataCleaner.range_min w)
                                (ReservoirDataCleaner.range_max w) v
               ∧ (0 < ReservoirDataCleaner.count w)%nat.
Proof.
  apply (validate_ranges_warnings validator_sample).
  repeat constructor; vm_compute; intros c [= <-]; reflexivity.
Defined.

(** Range validation fails exactly when a ranged field that is present does
    not hold numbers; it then fails on the comparison, whatever else the
    dataset holds, and never because a field is absent. *)
Theorem validate_ranges_type_error (df : DataFrame) :
  (ReservoirDataCleaner.validate_ranges df = Err TypeError
   ↔ Exists (λ item, ∃ c, columns df !! item.1 = Some c
                          ∧ ReservoirDataCleaner.is_numeric c = false)
        ReservoirDataCleaner.ranges)
  ∧ ∀ e, ReservoirDataCleaner.validate_ranges df = Err e → e = TypeError.
Proof.
  assert (Hdec : Exists (λ item, ∃ c, columns df !! item.1 = Some c
                          ∧ ReservoirDataCleaner.is_numeric c = false)
                   ReservoirDataCleaner.ranges
                 ∨ Forall (λ item, ∀ c, columns df !! item.1 = Some c →
                       ReservoirDataCleaner.is_numeric c = true)
                     ReservoirDataCleaner.ranges).
  { generalize ReservoirDataCleaner.ranges. intros rs.
    induction rs as [|[col r] rs [IH|IH]].
    - right. constructor.
    - left. by right.
    - cbn [fst]. destruct (columns df !! col) as [c|] eqn:Ec.
      + destruct (ReservoirDataCleaner.is_numeric c) eqn:En.
        * right. constructor; [|done]. cbn [fst]. intros c'. rewrite Ec. by intros [= <-].
        * left. left. cbn [fst]. eauto.
      + right. constructor; [|done]. cbn [fst]. intros c'. by rewrite Ec. }
  unfold ReservoirDataCleaner.validate_ranges.
  destruct Hdec as [Hex|Hall].
  - rewrite (validate_ranges_loop_error _ _ _ Hex). cbn [bind].
    split; [done|]. by intros e [= <-].
  - rewrite (validate_ranges_loop _ _ _ Hall). cbn [bind]. split; [|done].
    split; [done|]. intros Hex. exfalso.
    rewrite Forall_forall in Hall. apply Exists_exists in Hex as (item & Hin & c & Hc & Hn).
    specialize (Hall item Hin c Hc). congruence.
Qed.

(** After the numeric columns have been cleaned, range validation cannot
    fail: every ranged field is one of the fields that cleaning converts to
    numbers. *)
Theorem validate_ranges_after_cleaning (parse_float : string → option Q) (df : DataFrame) :
  ∃ printed,
    ReservoirDataCleaner.validate_ranges
      (ReservoirDataCleaner.clean_numeric_columns parse_float df)
    = Ok (ReservoirDataCleaner.clean_numeric_columns parse_float df, printed).
Proof.
  set (df' := ReservoirDataCleaner.clean_numeric_columns parse_float df).
  assert (H : Forall (λ item, ∀ c, columns df' !! item.1 = Some c →
                       ReservoirDataCleaner.is_numeric c = true)
                ReservoirDataCleaner.ranges).
  { assert (Hsub : Forall (λ item : string * (Z * Z),
                             item.1 ∈ ReservoirDataCleaner.numeric_columns)
                     ReservoirDataCleaner.ranges).
    { repeat constructor; apply (bool_decide_unpack _); vm_compute; reflexivity. }
    eapply Forall_impl; [exact Hsub|]. intros [col r] Hin c. cbn [fst] in *.
    unfold df', ReservoirDataCleaner.clean_numeric_columns.
    rewrite clean_columns_lookup, decide_True by done.
    destruct (columns df !! col) as [c0|]; [|done]. simpl. intros [= <-].
    unfold clean_series. destruct (to_numeric_float parse_float c0) as [v ->].
    by destruct (ReservoirDataCleaner.precision col). }
  clearbody df'. unfold ReservoirDataCleaner.validate_ranges.
  rewrite (validate_ranges_loop _ _ _ H). cbn [bind]. eauto.
Qed.

Lemma length_select_mask_sum {A} (mask : list bool) (l : list A) :
  length mask = length l →
  length (select mask l) = ReservoirDataCleaner.mask_sum mask.
Proof.
  unfold ReservoirDataCleaner.mask_sum. revert l.
  induction mask as [|b m IH]; intros [|x l] Hlen; simplify_eq/=; [done|].
  destruct b.
  - rewrite filter_cons_True by done. cbn [length]. by rewrite IH.
  - rewrite filter_cons_False by done. by apply IH.
Qed.

(** The cleaner and the validator agree on the storage percentage: on a
    well-formed dataset the number of rows that the reservoir check lists as
    out of bounds is the number that range validation prints for that field,
    and range validation prints a line for it exactly when the list is not
    empty. *)
Theorem range_warning_matches_validator
    (df : DataFrame) (pct : list (option Q)) (entity date : Column) :
  frame_wf df →
  columns df !! "embalse_porcentaje" = Some (Float64 pct) →
  columns df !! "embalse_codigo" = Some entity →
  columns df !! "date" = Some date →
  Forall (λ item, ∀ c, columns df !! item.1 = Some c →
                       ReservoirDataCleaner.is_numeric c = true)
    ReservoirDataCleaner.ranges →
  ∃ r flagged printed,
    DataValidator.check_reservoir_consistency df = Ok r
    ∧ r !! "percentage_out_of_bounds" = Some flagged
    ∧ ReservoirDataCleaner.validate_ranges df = Ok (df, printed)
    ∧ length flagged = out_of_range 0 100 pct
    ∧ (∀ w, w ∈ printed → ReservoirDataCleaner.column w = "embalse_porcentaje" →
            ReservoirDataCleaner.count w = length flagged)
    ∧ ((∃ w, w ∈ printed ∧ ReservoirDataCleaner.column w = "embalse_porcentaje")
       ↔ flagged ≠ []).
Proof.
  intros Hwf Hpct Hcod Hdate Hnum.
  assert (Hlen : length pct = nrows df).
  { specialize (Hwf _ _ Hpct). simpl in Hwf. unfold column_length in Hwf.
    simpl in Hwf. by rewrite length_fmap in Hwf. }
  unfold DataValidator.check_reservoir_consistency.
  rewrite (getitem_lookup _ _ _ Hpct). cbn [bind series_lt_scalar series_gt_scalar float_values].
  rewrite (sort_values_two _ _ _ _ _ Hcod Hdate). cbn [bind].
  unfold groupby_diff.
  rewrite (getitem_frame_rows _ _ _ _ Hcod), (getitem_frame_rows _ _ _ _ Hpct).
  cbn [bind column_rows float_values].
  rewrite getitem_setitem_eq. cbn [bind float_values].
  unfold ReservoirDataCleaner.validate_ranges.
  rewrite (validate_ranges_loop _ _ _ Hnum). cbn [bind app].
  eexists _, _, _. split; [reflexivity|]. split.
  { rewrite lookup_insert_ne by done. rewrite lookup_insert_eq. reflexivity. }
  split; [reflexivity|].
  assert (Hflag : length (index_where df
            (mask_or ((λ x, lt_opt x (Some 0%Q)) <$> pct)
                     ((λ x, gt_opt x (Some 100%Q)) <$> pct)))
          = out_of_range 0 100 pct).
  { change 0%Q with (inject_Z 0). change 100%Q with (inject_Z 100).
    rewrite range_mask. unfold index_where.
    rewrite length_select_mask_sum by (by rewrite length_fmap).
    apply mask_sum_fmap. }
  split; [done|]. rewrite Hflag.
  assert (Hw : ∀ w, w ∈ (ReservoirDataCleaner.ranges ≫= λ item,
           match columns df !! item.1 with
           | Some (Float64 v) =>
               if (0 <? out_of_range item.2.1 item.2.2 v)%nat
               then [ReservoirDataCleaner.mkWarning
                       (out_of_range item.2.1 item.2.2 v) item.1 item.2.1 item.2.2]
               else []
           | _ => []
           end)
           ∧ ReservoirDataCleaner.column w = "embalse_porcentaje"
         ↔ w = ReservoirDataCleaner.mkWarning (out_of_range 0 100 pct) "embalse_porcentaje" 0 100
           ∧ (0 < out_of_range 0 100 pct)%nat).
  { intros w. rewrite list_elem_of_bind. split.
    - intros [([col [lo hi]] & Hin & Hitem) Hcol]. cbn [fst snd] in Hin.
      destruct (columns df !! col) as [[v| |]|] eqn:Ec;
        try (by apply elem_of_nil in Hin).
      destruct (Nat.ltb_spec 0 (out_of_range lo hi v)) as [Hpos|Hpos];
        [|by apply elem_of_nil in Hin].
      apply list_elem_of_singleton in Hin as ->. cbn in Hcol. subst col.
      rewrite Hpct in Ec. injection Ec as <-.
      assert (lo = 0 ∧ hi = 100) as [-> ->]; [|done].
      unfold ReservoirDataCleaner.ranges in Hitem.
      repeat (apply elem_of_cons in Hitem as [Hitem|Hitem]; [by simplify_eq|]).
      by apply elem_of_nil in Hitem.
    - intros [-> Hpos]. split; [|done].
      exists ("embalse_porcentaje", (0, 100)). split; [|by left].
      cbn [fst snd]. rewrite Hpct. apply Nat.ltb_lt in Hpos. rewrite Hpos. by left. }
  split.
  - intros w Hin Hcol. destruct (proj1 (Hw w) (conj Hin Hcol)) as [-> _]. done.
  - split.
    + intros (w & Hin & Hcol). destruct (proj1 (Hw w) (conj Hin Hcol)) as [_ Hpos].
      intros Hnil. rewrite <- Hflag, Hnil in Hpos. simpl in Hpos. lia.
    + intros Hne. eexists. apply Hw. split; [done|].
      rewrite <- Hflag. destruct (index_where _ _); [done | simpl; lia].
Qed.

Lemma range_warning_matches_validator_witness :
  ∃ r flagged printed,
    DataValidator.check_reservoir_consistency jump_sample = Ok r
    ∧ r !! "percentage_out_of_bounds" = Some flagged
    ∧ ReservoirDataCleaner.validate_ranges jump_sample = Ok (jump_sample, printed)
    ∧ length flagged
      = out_of_range 0 100 [Some 45%Q; Some 50%Q; Some 55%Q; Some 120%Q; Some 60%Q]
    ∧ (∀ w, w ∈ printed → ReservoirDataCleaner.column w = "embalse_porcentaje" →
            ReservoirDataCleaner.count w = length flagged)
    ∧ ((∃ w, w ∈ printed ∧ ReservoirDataCleaner.column w = "embalse_porcentaje")
       ↔ flagged ≠ []).
Proof.
  apply (range_warning_matches_validator jump_sample
           [Some 45%Q; Some 50%Q; Some 55%Q; Some 120%Q; Some 60%Q]
           (Object [Some "A"; Some "B"; Some "A"; Some "B"; Some "A"]%string)
           (Datetime64 five_days)).
  - apply (bool_decide_unpack _). vm_compute. reflexivity.
  - reflexivity.
  - reflexivity.
  - reflexivity.
  - repeat constructor; vm_compute; intros c [= <-]; reflexivity.
Defined.

(** * The quality report *)

Lemma triad_rule_numeric df a b c name (acc : gmap string (list Label)) :
  (∀ x, columns df !! a = Some x → ReservoirDataCleaner.is_numeric x = true) →
  (∀ x, columns df !! b = Some x → ReservoirDataCleaner.is_numeric x = true) →
  (∀ x, columns df !! c = Some x → ReservoirDataCleaner.is_numeric x = true) →
  ∃ r,
    (if has_columns df [a; b; c] then
       let* tmin := getitem df a in
       let* tmed := getitem df b in
       let* tmax := getitem df c in
       let* m1 := series_gt tmin tmed in
       let* m2 := series_gt tmed tmax in
       Ok (<[name := index_where df (mask_or m1 m2)]> acc)
     else Ok acc) = Ok r.
Proof.
  unfold has_columns, getitem. intros Ha Hb Hc. cbn [forallb].
  destruct (columns df !! a) as [xa|]; [|by eexists].
  destruct (columns df !! b) as [xb|]; [|by eexists].
  destruct (columns df !! c) as [xc|]; [|by eexists].
  specialize (Ha _ eq_refl). specialize (Hb _ eq_refl). specialize (Hc _ eq_refl).
  destruct xa, xb, xc; try done.
  rewrite !bool_decide_true by (by eexists).
  cbn [andb bind]. rewrite !series_gt_float. cbn [bind]. by eexists.
Qed.

Lemma pair_rule_numeric df a b name (acc : gmap string (list Label)) :
  (∀ x, columns df !! a = Some x → ReservoirDataCleaner.is_numeric x = true) →
  (∀ x, columns df !! b = Some x → ReservoirDataCleaner.is_numeric x = true) →
  ∃ r,
    (if has_columns df [a; b] then
       let* w := getitem df a in
       let* wmax := getitem df b in
       let* m := series_gt w wmax in
       Ok (<[name := index_where df m]> acc)
     else Ok acc) = Ok r.
Proof.
  unfold has_columns, getitem. intros Ha Hb. cbn [forallb].
  destruct (columns df !! a) as [xa|]; [|by eexists].
  destruct (columns df !! b) as [xb|]; [|by eexists].
  specialize (Ha _ eq_refl). specialize (Hb _ eq_refl).
  destruct xa, xb; try done.
  rewrite !bool_decide_true by (by eexists).
  cbn [andb bind]. rewrite !series_gt_float. cbn [bind]. by eexists.
Qed.

Lemma validate_weather_consistency_numeric df :
  Forall (λ col, ∀ c, columns df !! col = Some c →
                      ReservoirDataCleaner.is_numeric c = true)
    ["meteo_temp_min"; "meteo_temp_media"; "meteo_temp_max";
     "meteo_humedad_min"; "meteo_humedad_media"; "meteo_humedad_max";
     "meteo_vel_viento"; "meteo_vel_viento_max"] →
  ∃ r, DataValidator.validate_weather_consistency df = Ok r.
Proof.
  intros H. rewrite !Forall_cons in H.
  destruct H as (H1 & H2 & H3 & H4 & H5 & H6 & H7 & H8 & _).
  unfold DataValidator.validate_weather_consistency. cbv zeta.
  destruct (triad_rule_numeric df "meteo_temp_min" "meteo_temp_media" "meteo_temp_max"
              "temperature_order" ∅ H1 H2 H3) as [r1 E1].
  rewrite E1. cbn [bind].
  destruct (triad_rule_numeric df "meteo_humedad_min" "meteo_humedad_media"
              "meteo_humedad_max" "humidity_order" r1 H4 H5 H6) as [r2 E2].
  rewrite E2. cbn [bind].
  destruct (pair_rule_numeric df "meteo_vel_viento" "meteo_vel_viento_max"
              "wind_speed_order" r2 H7 H8) as [r3 E3].
  rewrite E3. cbn [bind]. by eexists.
Qed.

Lemma check_temporal_consistency_Ok df dates :
  columns df !! "date" = Some (Datetime64 dates) →
  ∃ r, DataValidator.check_temporal_consistency df = Ok r.
Proof.
  intros Hdate. unfold DataValidator.check_temporal_consistency.
  rewrite (sort_values_one _ _ _ Hdate). cbn [bind].
  rewrite (getitem_frame_rows _ _ _ _ Hdate). cbn [bind column_rows datetime_values].
  rewrite (getitem_lookup _ _ _ Hdate). cbn [bind datetime_values]. by eexists.
Qed.

Lemma check_reservoir_consistency_Ok df pct entity date :
  columns df !! "embalse_porcentaje" = Some (Float64 pct) →
  columns df !! "embalse_codigo" = Some entity →
  columns df !! "date" = Some date →
  ∃ r, DataValidator.check_reservoir_consistency df = Ok r.
Proof.
  intros Hpct Hcod Hdate. unfold DataValidator.check_reservoir_consistency.
  rewrite (getitem_lookup _ _ _ Hpct). cbn [bind series_lt_scalar series_gt_scalar float_values].
  rewrite (sort_values_two _ _ _ _ _ Hcod Hdate). cbn [bind].
  unfold groupby_diff.
  rewrite (getitem_frame_rows _ _ _ _ Hcod), (getitem_frame_rows _ _ _ _ Hpct).
  cbn [bind column_rows float_values].
  rewrite getitem_setitem_eq. cbn [bind float_values]. by eexists.
Qed.

Lemma check_reservoir_consistency_no_entity df pct :
  columns df !! "embalse_porcentaje" = Some (Float64 pct) →
  columns df !! "embalse_codigo" = None →
  DataValidator.check_reservoir_consistency df = Err (KeyError "embalse_codigo").
Proof.
  intros Hpct Hcod. unfold DataValidator.check_reservoir_consistency.
  rewrite (getitem_lookup _ _ _ Hpct). cbn [bind series_lt_scalar series_gt_scalar float_values].
  unfold sort_values. cbn [mapR]. by rewrite (getitem_missing _ _ Hcod).
Qed.

(** On a dataset whose dates are timestamps, whose storage percentage holds
    numbers, which has an entity column and whose weather fields hold
    numbers, the quality report is produced: it counts the rows and the
    columns and holds the result of each of the five checks. *)
Theorem generate_quality_report_succeeds
    (memory_usage : DataFrame → Z) (df : DataFrame)
    (dates : list (option Z)) (pct : list (option Q)) (entity : Column) :
  columns df !! "date" = Some (Datetime64 dates) →
  columns df !! "embalse_porcentaje" = Some (Float64 pct) →
  columns df !! "embalse_codigo" = Some entity →
  Forall (λ col, ∀ c, columns df !! col = Some c →
                      ReservoirDataCleaner.is_numeric c = true)
    ["meteo_temp_min"; "meteo_temp_media"; "meteo_temp_max";
     "meteo_humedad_min"; "meteo_humedad_media"; "meteo_humedad_max";
     "meteo_vel_viento"; "meteo_vel_viento_max"] →
  ∃ report,
    DataValidator.generate_quality_report memory_usage df = Ok report
    ∧ DataValidator.total_records (DataValidator.basic_stats report) = nrows df
    ∧ DataValidator.total_columns (DataValidator.basic_stats report) = size (columns df)
    ∧ DataValidator.completeness report = DataValidator.check_data_completeness df
    ∧ DataValidator.check_temporal_consistency df
      = Ok (DataValidator.temporal_consistency report)
    ∧ DataValidator.validate_weather_consistency df
      = Ok (DataValidator.weather_inconsistencies report)
    ∧ DataValidator.check_reservoir_consistency df
      = Ok (DataValidator.reservoir_inconsistencies report)
    ∧ DataValidator._detect_outliers df (15 # 10) = Ok (DataValidator.outliers report).
Proof.
  intros Hdate Hpct Hcod Hnum.
  destruct (check_temporal_consistency_Ok _ _ Hdate) as [t Et].
  destruct (validate_weather_consistency_numeric _ Hnum) as [w Ew].
  destruct (check_reservoir_consistency_Ok _ _ _ _ Hpct Hcod Hdate) as [r Er].
  destruct (detect_outliers_spec df (15 # 10)) as (o & Eo & _).
  unfold DataValidator.generate_quality_report.
  rewrite Et, Ew, Er, Eo. cbn [bind]. eexists. split; [reflexivity|]. done.
Qed.

Lemma generate_quality_report_succeeds_witness :
  ∃ report,
    DataValidator.generate_quality_report (λ _, 0) jump_sample = Ok report
    ∧ DataValidator.total_records (DataValidator.basic_stats report) = nrows jump_sample
    ∧ DataValidator.total_columns (DataValidator.basic_stats report)
      = size (columns jump_sample)
    ∧ DataValidator.completeness report = DataValidator.check_data_completeness jump_sample
    ∧ DataValidator.check_temporal_consistency jump_sample
      = Ok (DataValidator.temporal_consistency report)
    ∧ DataValidator.validate_weather_consistency jump_sample
      = Ok (DataValidator.weather_inconsistencies report)
    ∧ DataValidator.check_reservoir_consistency jump_sample
      = Ok (DataValidator.reservoir_inconsistencies report)
    ∧ DataValidator._detect_outliers jump_sample (15 # 10)
      = Ok (DataValidator.outliers report).
Proof.
  apply (generate_quality_report_succeeds (λ _, 0) jump_sample five_days
           [Some 45%Q; Some 50%Q; Some 55%Q; Some 120%Q; Some 60%Q]
           (Object [Some "A"; Some "B"; Some "A"; Some "B"; Some "A"]%string)).
  - reflexivity.
  - reflexivity.
  - reflexivity.
  - repeat constructor; vm_compute; intros c [= <-]; reflexivity.
Defined.

(** The report fails with the exception of the first check that fails, in
    the order temporal, weather, reservoir: a dataset without dates raises
    the key error of the date column whatever else it lacks; with dates and
    numeric weather fields, a dataset without the storage percentage raises
    the key error of that column, and one with the percentage but without
    the entity column raises the key error of the entity column.  Outlier
    detection and the completeness check never make the report fail. *)
Theorem generate_quality_report_errors (memory_usage : DataFrame → Z) (df : DataFrame) :
  (columns df !! "date" = None →
   DataValidator.generate_quality_report memory_usage df = Err (KeyError "date"))
  ∧ (∀ dates,
       columns df !! "date" = Some (Datetime64 dates) →
       Forall (λ col, ∀ c, columns df !! col = Some c →
                           ReservoirDataCleaner.is_numeric c = true)
         ["meteo_temp_min"; "meteo_temp_media"; "meteo_temp_max";
          "meteo_humedad_min"; "meteo_humedad_media"; "meteo_humedad_max";
          "meteo_vel_viento"; "meteo_vel_viento_max"] →
       (columns df !! "embalse_porcentaje" = None →
        DataValidator.generate_quality_report memory_usage df
        = Err (KeyError "embalse_porcentaje"))
       ∧ (∀ pct, columns df !! "embalse_porcentaje" = Some (Float64 pct) →
            columns df !! "embalse_codigo" = None →
            DataValidator.generate_quality_report memory_usage df
            = Err (KeyError "embalse_codigo")))
  ∧ ∀ e, DataValidator.generate_quality_report memory_usage df = Err e →
      DataValidator.check_temporal_consistency df = Err e
      ∨ DataValidator.validate_weather_consistency df = Err e
      ∨ DataValidator.check_reservoir_consistency df = Err e.
Proof.
  unfold DataValidator.generate_quality_report. split; [|split].
  - intros Hdate. by rewrite (check_temporal_consistency_no_date _ Hdate).
  - intros dates Hdate Hnum.
    destruct (check_temporal_consistency_Ok _ _ Hdate) as [t ->].
    destruct (validate_weather_consistency_numeric _ Hnum) as [w ->].
    cbn [bind]. split.
    + intros Hpct. by rewrite (check_reservoir_consistency_no_percentage _ Hpct).
    + intros pct Hpct Hcod. by rewrite (check_reservoir_consistency_no_entity _ _ Hpct Hcod).
  - intros e.
    destruct (DataValidator.check_temporal_consistency df) as [t|e1]; cbn [bind];
      [|intros [= <-]; by left].
    destruct (DataValidator.validate_weather_consistency df) as [w|e2]; cbn [bind];
      [|intros [= <-]; right; by left].
    destruct (DataValidator.check_reservoir_consistency df) as [r|e3]; cbn [bind];
      [|intros [= <-]; right; by right].
    destruct (detect_outliers_spec df (15 # 10)) as (o & -> & _). done.
Qed.

(** ** Extreme events per month and per year *)

Lemma total_count_insert (m : gmap Z nat) k n :
  m !! k = None → total_count (<[k := n]> m) = (n + total_count m)%nat.
Proof.
  intros H. unfold total_count. apply (map_fold_insert_L (λ _ n s, (n + s)%nat)); [|done].
  intros. lia.
Qed.

Lemma total_count_update (m : gmap Z nat) k n n' :
  m !! k = Some n → (total_count (<[k := n']> m) + n = n' + total_count m)%nat.
Proof.
  intros H.
  rewrite <- (insert_delete_eq m k n').
  rewrite <- (insert_delete_id m k n H) at 2.
  rewrite !total_count_insert by apply lookup_delete_eq. lia.
Qed.

Lemma total_count_group_sizes (keys : list (option Z)) :
  total_count (ExploratoryAnalyzer.group_sizes keys) = length (dropna keys).
Proof.
  unfold ExploratoryAnalyzer.group_sizes.
  induction (dropna keys) as [|k ks IH]; [done|].
  cbn [foldr length].
  destruct (foldr _ ∅ ks !! k) as [n|] eqn:E.
  - pose proof (total_count_update _ k n (S n) E) as H.
    change (default 0%nat (Some n)) with n. lia.
  - rewrite total_count_insert by done. change (default 0%nat None) with 0%nat. lia.
Qed.

Lemma group_sizes_lookup (keys : list (option Z)) k n :
  ExploratoryAnalyzer.group_sizes keys !! k = Some n → (0 < n)%nat ∧ Some k ∈ keys.
Proof.
  unfold ExploratoryAnalyzer.group_sizes. rewrite <- elem_of_dropna.
  induction (dropna keys) as [|k' ks IH]; [cbn [foldr]; by rewrite lookup_empty|].
  cbn [foldr]. rewrite lookup_insert.
  destruct (decide (k' = k)) as [->|Hne].
  - intros [= <-]. split; [lia | by left].
  - intros H. destruct (IH H) as [? ?]. split; [done | by right].
Qed.

(** The month of a civil date lies between 1 and 12, whatever the day. *)
Lemma dt_month_bounds (t : Z) : 1 ≤ ExploratoryAnalyzer.dt_month t ≤ 12.
Proof.
  unfold ExploratoryAnalyzer.dt_month, ExploratoryAnalyzer.civil_from_days.
  cbv zeta. cbn [fst snd]. generalize (days t). intros d.
  set (doe := d + 719468 - (d + 719468) / 146097 * 146097).
  assert (Hdoe : 0 ≤ doe < 146097) by (unfold doe; Z.div_mod_to_equations; lia).
  clearbody doe.
  set (yoe := (doe - doe / 1460 + doe / 36524 - doe / 146096) / 365).
  set (doy := doe - (365 * yoe + yoe / 4 - yoe / 100)).
  assert (Hdoy : 0 ≤ doy ≤ 365) by (unfold doy, yoe; Z.div_mod_to_equations; lia).
  clearbody doy. clear Hdoe.
  set (mp := (5 * doy + 2) / 153).
  assert (Hmp : 0 ≤ mp ≤ 11) by (unfold mp; Z.div_mod_to_equations; lia).
  clearbody mp.
  destruct (Z.ltb_spec mp 10); lia.
Qed.

(** The analysis counts its extreme events per month and per year.  Every
    month of the monthly table lies between 1 and 12, no count of either
    table is zero, and each table adds up to the number of extreme events
    that have a date. *)
Theorem extreme_events_calendar_counts
    (data : DataFrame) (variable : string) (v : list (option Q)) (dates : list (option Z))
    (p : Q) :
  columns data !! variable = Some (Float64 v) →
  columns data !! "date" = Some (Datetime64 dates) →
  nrows data ≠ 0%nat →
  (0 <= p)%Q → (p <= 100)%Q →
  ∃ r extreme_dates,
    ExploratoryAnalyzer.extreme_events_analysis data variable p = Ok r
    ∧ columns (ExploratoryAnalyzer.extreme_events_data r) !! "date"
      = Some (Datetime64 extreme_dates)
    ∧ (∀ m n, ExploratoryAnalyzer.monthly_extreme_counts r !! m = Some n →
              1 ≤ m ≤ 12 ∧ (0 < n)%nat)
    ∧ (∀ y n, ExploratoryAnalyzer.yearly_extreme_counts r !! y = Some n → (0 < n)%nat)
    ∧ total_count (ExploratoryAnalyzer.monthly_extreme_counts r)
      = length (dropna extreme_dates)
    ∧ total_count (ExploratoryAnalyzer.yearly_extreme_counts r)
      = length (dropna extreme_dates).
Proof.
  intros Hvar Hdate Hn H0 H100.
  destruct (quantile_monotone v (p / 100) (p / 100)) as (t & _ & Hq & _).
  { apply Qle_trans with (0 / 100)%Q; [by vm_compute | by apply Qdiv_100_le]. }
  { apply Qle_refl. }
  { apply Qle_trans with (100 / 100)%Q; [by apply Qdiv_100_le | by vm_compute]. }
  unfold ExploratoryAnalyzer.extreme_events_analysis.
  rewrite (getitem_lookup _ _ _ Hvar). cbn [bind float_values]. rewrite Hq. cbn [bind].
  apply Nat.eqb_neq in Hn. rewrite Hn. cbn [bind].
  set (mask := (λ x, gt_opt x t) <$> v).
  assert (Hd : columns (getitem_mask data mask) !! "date"
               = Some (Datetime64 (select mask dates))).
  { unfold getitem_mask, frame_rows. cbn [columns]. by rewrite lookup_fmap, Hdate. }
  assert (Hv : columns (getitem_mask data mask) !! variable
               = Some (Float64 (select mask v))).
  { unfold getitem_mask, frame_rows. cbn [columns]. by rewrite lookup_fmap, Hvar. }
  rewrite (getitem_lookup _ _ _ Hd). cbn [bind dt_values].
  rewrite (getitem_lookup _ _ _ Hv). cbn [bind float_values].
  eexists _, _. split; [reflexivity|].
  cbn [ExploratoryAnalyzer.extreme_events_data ExploratoryAnalyzer.monthly_extreme_counts
       ExploratoryAnalyzer.yearly_extreme_counts].
  split; [exact Hd|].
  assert (Hlen : ∀ f : Z → Z, length (dropna (fmap (M := option) f <$> select mask dates))
                              = length (dropna (select mask dates))).
  { intros f. generalize (select mask dates). intros l.
    induction l as [|[x|] l IH]; csimpl; [done| |done]. by rewrite IH. }
  split; [|split; [|split]].
  - intros m n Hm. apply group_sizes_lookup in Hm as [Hpos Hin]. split; [|done].
    apply list_elem_of_fmap in Hin as ([x|] & Hx & _); [|done].
    injection Hx as ->. apply dt_month_bounds.
  - intros y n Hy. by apply group_sizes_lookup in Hy as [Hpos _].
  - by rewrite total_count_group_sizes, Hlen.
  - by rewrite total_count_group_sizes, Hlen.
Qed.

Lemma extreme_events_calendar_counts_witness :
  ∃ r extreme_dates,
    ExploratoryAnalyzer.extreme_events_analysis extreme_sample "embalse_porcentaje" 90 = Ok r
    ∧ columns (ExploratoryAnalyzer.extreme_events_data r) !! "date"
      = Some (Datetime64 extreme_dates)
    ∧ (∀ m n, ExploratoryAnalyzer.monthly_extreme_counts r !! m = Some n →
              1 ≤ m ≤ 12 ∧ (0 < n)%nat)
    ∧ (∀ y n, ExploratoryAnalyzer.yearly_extreme_counts r !! y = Some n → (0 < n)%nat)
    ∧ total_count (ExploratoryAnalyzer.monthly_extreme_counts r)
      = length (dropna extreme_dates)
    ∧ total_count (ExploratoryAnalyzer.yearly_extreme_counts r)
      = length (dropna extreme_dates).
Proof.
  apply (extreme_events_calendar_counts extreme_sample "embalse_porcentaje"
           [Some 40%Q; Some 42%Q; None; Some 95%Q; Some 41%Q;
            Some 43%Q; Some 97%Q; Some 44%Q; Some 45%Q; Some 46%Q] ten_days 90).
  - reflexivity.
  - reflexivity.
  - vm_compute. lia.
  - unfold Qle. simpl. lia.
  - unfold Qle. simpl. lia.
Defined.
